(** * crawlingWeb: a shallow embedding of the job-board backend

    The development follows the layout of the repository:
    - [JS], [Crypto], [Regex]: what the handlers use of JavaScript and
      Node (strings as sequences of UTF-16 code units, [trim],
      [split], [replace], [parseInt], truthiness, SHA-256, the
      regular expressions);
    - [View]: [View/response.js], the response envelope;
    - [DB], [Query]: the relational store and what the SQL text of the
      handlers computes on it;
    - [InsertData]: [Model/DB_setup/insertData.js], the field parsers
      and the batch ingestion loop;
    - [JobsAPI], [ApplicationsAPI], [BookmarksAPI],
      [RecommendationsAPI], [AuthAPI]: the route handlers of
      [Control/].

    Strings are compared code unit by code unit, numbers are exact
    integers ([Z]); a handler is a function from the store and the
    request to the new store and the response.  The properties of the
    specification follow the embedding. *)

From Stdlib Require Import ZArith NArith List String Ascii Bool Lia.
From Stdlib Require Import Sorting.Sorted Sorting.Permutation.
Import ListNotations.

Local Open Scope Z_scope.

(* ================================================================= *)
(** ** JavaScript strings and numbers *)

Module JS.

(** A string is its sequence of UTF-16 code units. *)
Definition str := list N.

Fixpoint str_eqb (a b : str) : bool :=
  match a, b with
  | [], [] => true
  | x :: a', y :: b' => N.eqb x y && str_eqb a' b'
  | _, _ => false
  end.

(** Source literals are written in UTF-8; [js] decodes one into code
    units (code points above U+FFFF become a surrogate pair). *)
Definition cont (b : N) : N := N.land b 63.

Definition units_of_code_point (cp : N) : list N :=
  if (cp <? 65536)%N then [cp]
  else let v := (cp - 65536)%N in
       [(55296 + N.shiftr v 10)%N; (56320 + N.land v 1023)%N].

Fixpoint utf8_decode (bs : list N) : str :=
  match bs with
  | [] => []
  | b0 :: r0 =>
    if (b0 <? 128)%N then b0 :: utf8_decode r0
    else if (b0 <? 224)%N then
      match r0 with
      | b1 :: r1 =>
        (N.shiftl (N.land b0 31) 6 + cont b1)%N :: utf8_decode r1
      | [] => [65533%N]
      end
    else if (b0 <? 240)%N then
      match r0 with
      | b1 :: b2 :: r2 =>
        (N.shiftl (N.land b0 15) 12 + N.shiftl (cont b1) 6 + cont b2)%N
          :: utf8_decode r2
      | _ => [65533%N]
      end
    else
      match r0 with
      | b1 :: b2 :: b3 :: r3 =>
        units_of_code_point
          (N.shiftl (N.land b0 7) 18 + N.shiftl (cont b1) 12
           + N.shiftl (cont b2) 6 + cont b3)%N ++ utf8_decode r3
      | _ => [65533%N]
      end
  end.

Definition js (s : string) : str :=
  utf8_decode (map N_of_ascii (list_ascii_of_string s)).

(** The encoding Node uses when a string is fed to a hash or a
    buffer: UTF-8, a lone surrogate becoming U+FFFD. *)
Definition utf8_of_code_point (cp : N) : list N :=
  if (cp <? 128)%N then [cp]
  else if (cp <? 2048)%N then
    [(192 + N.shiftr cp 6)%N; (128 + N.land cp 63)%N]
  else if (cp <? 65536)%N then
    [(224 + N.shiftr cp 12)%N; (128 + N.land (N.shiftr cp 6) 63)%N;
     (128 + N.land cp 63)%N]
  else
    [(240 + N.shiftr cp 18)%N; (128 + N.land (N.shiftr cp 12) 63)%N;
     (128 + N.land (N.shiftr cp 6) 63)%N; (128 + N.land cp 63)%N].

Definition is_high_surrogate (c : N) : bool := (55296 <=? c)%N && (c <? 56320)%N.
Definition is_low_surrogate (c : N) : bool := (56320 <=? c)%N && (c <? 57344)%N.

Fixpoint utf8_encode (s : str) : list N :=
  match s with
  | [] => []
  | c :: r =>
    if is_high_surrogate c then
      match r with
      | d :: r' =>
        if is_low_surrogate d then
          utf8_of_code_point
            (65536 + N.shiftl (c - 55296) 10 + (d - 56320))%N ++ utf8_encode r'
        else utf8_of_code_point 65533 ++ utf8_encode r
      | [] => utf8_of_code_point 65533
      end
    else if is_low_surrogate c then utf8_of_code_point 65533 ++ utf8_encode r
    else utf8_of_code_point c ++ utf8_encode r
  end.

(** [\s] of a regular expression, which is also what [trim] strips:
    WhiteSpace and LineTerminator of ECMAScript. *)
Definition is_whitespace (c : N) : bool :=
  ((9 <=? c) && (c <=? 13) || (c =? 32) || (c =? 160) || (c =? 5760)
   || (8192 <=? c) && (c <=? 8202) || (c =? 8232) || (c =? 8233)
   || (c =? 8239) || (c =? 8287) || (c =? 12288) || (c =? 65279))%N.

(** [\d] *)
Definition is_digit (c : N) : bool := ((48 <=? c) && (c <=? 57))%N.

Fixpoint drop_while (p : N -> bool) (s : str) : str :=
  match s with
  | [] => []
  | c :: r => if p c then drop_while p r else s
  end.

Fixpoint take_while (p : N -> bool) (s : str) : str :=
  match s with
  | [] => []
  | c :: r => if p c then c :: take_while p r else []
  end.

(** [String.prototype.trim] *)
Definition trim (s : str) : str :=
  rev (drop_while is_whitespace (rev (drop_while is_whitespace s))).

(** [s.split(/[...]/)] for a character class [sep]: the pieces between
    the separators, empty pieces included; the empty string gives one
    empty piece. *)
Fixpoint split (sep : N -> bool) (s : str) : list str :=
  match s with
  | [] => [[]]
  | c :: r =>
    if sep c then [] :: split sep r
    else match split sep r with
         | h :: t => (c :: h) :: t
         | [] => [[c]]
         end
  end.

Fixpoint is_prefix (p s : str) : bool :=
  match p, s with
  | [], _ => true
  | x :: p', y :: s' => N.eqb x y && is_prefix p' s'
  | _ :: _, [] => false
  end.

(** [s.replace(needle, '')] with a string needle: the first occurrence
    is removed. *)
Fixpoint replace_first (needle s : str) : str :=
  if is_prefix needle s then skipn (List.length needle) s
  else match s with
       | [] => []
       | c :: r => c :: replace_first needle r
       end.

(** The value of a sequence of digits in base [b]. *)
Definition digit_value (c : N) : Z :=
  if is_digit c then Z.of_N c - 48
  else if ((97 <=? c) && (c <=? 102))%N then Z.of_N c - 87
  else Z.of_N c - 55.

Definition digits_value (b : Z) (ds : str) : Z :=
  fold_left (fun acc c => acc * b + digit_value c) ds 0.

Definition is_hex_digit (c : N) : bool :=
  (is_digit c || (97 <=? c) && (c <=? 102) || (65 <=? c) && (c <=? 70))%N.

Definition minus_sign : N := 45.
Definition plus_sign : N := 43.

Definition strip_sign (s : str) : bool * str :=
  match s with
  | c :: r =>
    if (c =? minus_sign)%N then (true, r)
    else if (c =? plus_sign)%N then (false, r)
    else (false, s)
  | [] => (false, [])
  end.

Definition signed (neg : bool) (v : Z) : Z := if neg then - v else v.

(** The digits at the head of [s] read in base [b]; [None] (NaN)
    when there is none. *)
Definition leading_number (is_base_digit : N -> bool) (b : Z) (s : str)
  : option Z :=
  match take_while is_base_digit s with
  | [] => None
  | ds => Some (digits_value b ds)
  end.

(** [parseInt(s, 10)]; [None] is NaN. *)
Definition parseInt10 (s : str) : option Z :=
  let (neg, r) := strip_sign (drop_while is_whitespace s) in
  option_map (signed neg) (leading_number is_digit 10 r).

Definition has_hex_prefix (s : str) : bool :=
  match s with
  | z :: x :: _ => (z =? 48)%N && ((x =? 120) || (x =? 88))%N
  | _ => false
  end.

(** [parseInt(s)]: as above, but a [0x] prefix selects base 16. *)
Definition parseInt (s : str) : option Z :=
  let (neg, r) := strip_sign (drop_while is_whitespace s) in
  option_map (signed neg)
    (if has_hex_prefix r then leading_number is_hex_digit 16 (skipn 2 r)
     else leading_number is_digit 10 r).

(** Truthiness of the values the handlers test. *)
Definition truthy_str (s : str) : bool := negb (str_eqb s []).
Definition truthy_num (n : Z) : bool := negb (n =? 0).

(** [Math.ceil(a / b)] for integers [0 <= a], [0 < b]. *)
Definition ceil_div (a b : Z) : Z := (a + b - 1) / b.

(** Decimal digits of a non-negative number, padded with zeros to
    [width] digits. *)
Fixpoint pad_digits (width : nat) (n : Z) : str :=
  match width with
  | O => []
  | S w => pad_digits w (n / 10) ++ [Z.to_N (48 + n mod 10)]
  end.

End JS.

Import JS.

(* ================================================================= *)
(** ** View/response.js: the response envelope *)

Module View.

Record pagination := {
  currentPage : Z;
  totalPages : Z;
  pageSize : Z;
  totalItems : Z
}.

(** What a handler sends: [success(res, message, data, pagination,
    is201)] answers 201 or 200, [error(res, message, err, code)]
    answers [code]. *)
Inductive response (D : Type) : Type :=
| success (message : string) (data : D) (pg : option pagination) (is201 : bool)
| error (message : string) (code : Z).

Arguments success {D} message data pg is201.
Arguments error {D} message code.

Definition http_status {D} (r : response D) : Z :=
  match r with
  | success _ _ _ is201 => if is201 then 201 else 200
  | error _ code => code
  end.

(** The error kinds of the specification, by status code. *)
Inductive error_kind :=
| Validation | Unauthenticated | Forbidden | NotFound | Conflict | Internal.

Definition kind_of_status (code : Z) : option error_kind :=
  if code =? 400 then Some Validation
  else if code =? 401 then Some Unauthenticated
  else if code =? 403 then Some Forbidden
  else if code =? 404 then Some NotFound
  else if code =? 409 then Some Conflict
  else if code =? 500 then Some Internal
  else None.

Definition kind {D} (r : response D) : option error_kind :=
  kind_of_status (http_status r).

Definition is_success {D} (r : response D) : bool :=
  match r with success _ _ _ _ => true | error _ _ => false end.

Definition pagination_of {D} (r : response D) : option pagination :=
  match r with success _ _ pg _ => pg | error _ _ => None end.

End View.

Import View.

(* ================================================================= *)
(** ** The relational store

    [Model/DB_setup/createTables.js] and [Model/executeDB.js] are not
    among the sources.  The tables carry the columns the SQL text of
    the handlers names; the constraints are those the specification
    states, each named where it is used.  [executeQuery] runs one
    statement, so a handler applies the function of the statement
    directly. *)

Module DB.

Inductive dim :=
| companies | educations | experiences | locations | sectors | employment_types.

Record dim_row := { dim_id : Z; dim_name : str }.

(** A dimension table: its rows in insertion order and the next
    AUTO_INCREMENT value. *)
Record dim_table := { dim_rows : list dim_row; dim_auto : Z }.

Record dims := {
  t_companies : dim_table;
  t_educations : dim_table;
  t_experiences : dim_table;
  t_locations : dim_table;
  t_sectors : dim_table;
  t_employment_types : dim_table
}.

Definition get_dim (d : dim) (ds : dims) : dim_table :=
  match d with
  | companies => t_companies ds
  | educations => t_educations ds
  | experiences => t_experiences ds
  | locations => t_locations ds
  | sectors => t_sectors ds
  | employment_types => t_employment_types ds
  end.

Definition set_dim (d : dim) (t : dim_table) (ds : dims) : dims :=
  {| t_companies := match d with companies => t | _ => t_companies ds end;
     t_educations := match d with educations => t | _ => t_educations ds end;
     t_experiences := match d with experiences => t | _ => t_experiences ds end;
     t_locations := match d with locations => t | _ => t_locations ds end;
     t_sectors := match d with sectors => t | _ => t_sectors ds end;
     t_employment_types :=
       match d with employment_types => t | _ => t_employment_types ds end |}.

Inductive junction :=
| job_posting_experiences | job_posting_locations
| job_posting_sectors | job_posting_employment_types.

(** A junction row: (job_posting_id, id in the dimension table). *)
Record junctions := {
  t_job_posting_experiences : list (Z * Z);
  t_job_posting_locations : list (Z * Z);
  t_job_posting_sectors : list (Z * Z);
  t_job_posting_employment_types : list (Z * Z)
}.

Definition get_junction (j : junction) (js : junctions) : list (Z * Z) :=
  match j with
  | job_posting_experiences => t_job_posting_experiences js
  | job_posting_locations => t_job_posting_locations js
  | job_posting_sectors => t_job_posting_sectors js
  | job_posting_employment_types => t_job_posting_employment_types js
  end.

Definition set_junction (j : junction) (l : list (Z * Z)) (js : junctions)
  : junctions :=
  {| t_job_posting_experiences :=
       match j with job_posting_experiences => l
                  | _ => t_job_posting_experiences js end;
     t_job_posting_locations :=
       match j with job_posting_locations => l
                  | _ => t_job_posting_locations js end;
     t_job_posting_sectors :=
       match j with job_posting_sectors => l
                  | _ => t_job_posting_sectors js end;
     t_job_posting_employment_types :=
       match j with job_posting_employment_types => l
                  | _ => t_job_posting_employment_types js end |}.

Record job_posting := {
  job_posting_id : Z;
  user_id : option Z;
  company_id : Z;
  title : str;
  link : str;
  link_hash : str;
  education_id : option Z;
  deadline : str;
  last_modified_date : option str;
  salary : str;
  employment_type_id : option Z;
  views : Z;
  created_at : Z
}.

Record bookmark := {
  bm_user_id : Z;
  bm_job_posting_id : Z;
  bm_created_at : Z
}.

Record user := {
  usr_id : Z;
  usr_email : str;
  usr_password : str;
  usr_name : str
}.

Record db := {
  db_dims : dims;
  t_job_postings : list job_posting;
  job_postings_auto : Z;
  db_junctions : junctions;
  t_bookmarks : list bookmark;
  t_users : list user;
  users_auto : Z
}.

Definition with_dims (ds : dims) (s : db) : db :=
  {| db_dims := ds; t_job_postings := t_job_postings s;
     job_postings_auto := job_postings_auto s;
     db_junctions := db_junctions s; t_bookmarks := t_bookmarks s;
     t_users := t_users s; users_auto := users_auto s |}.

Definition with_job_postings (ps : list job_posting) (auto : Z) (s : db) : db :=
  {| db_dims := db_dims s; t_job_postings := ps; job_postings_auto := auto;
     db_junctions := db_junctions s; t_bookmarks := t_bookmarks s;
     t_users := t_users s; users_auto := users_auto s |}.

Definition with_junctions (js : junctions) (s : db) : db :=
  {| db_dims := db_dims s; t_job_postings := t_job_postings s;
     job_postings_auto := job_postings_auto s;
     db_junctions := js; t_bookmarks := t_bookmarks s;
     t_users := t_users s; users_auto := users_auto s |}.

Definition with_bookmarks (bs : list bookmark) (s : db) : db :=
  {| db_dims := db_dims s; t_job_postings := t_job_postings s;
     job_postings_auto := job_postings_auto s;
     db_junctions := db_junctions s; t_bookmarks := bs;
     t_users := t_users s; users_auto := users_auto s |}.

Definition with_users (us : list user) (auto : Z) (s : db) : db :=
  {| db_dims := db_dims s; t_job_postings := t_job_postings s;
     job_postings_auto := job_postings_auto s;
     db_junctions := db_junctions s; t_bookmarks := t_bookmarks s;
     t_users := us; users_auto := auto |}.

Definition table (d : dim) (s : db) : dim_table := get_dim d (db_dims s).
Definition with_table (d : dim) (t : dim_table) (s : db) : db :=
  with_dims (set_dim d t (db_dims s)) s.
Definition links (j : junction) (s : db) : list (Z * Z) :=
  get_junction j (db_junctions s).
Definition with_links (j : junction) (l : list (Z * Z)) (s : db) : db :=
  with_junctions (set_junction j l (db_junctions s)) s.

Definition empty_dim : dim_table := {| dim_rows := []; dim_auto := 1 |}.

(** The store after [createTables.js]: every table empty, every
    AUTO_INCREMENT counter at 1. *)
Definition empty : db :=
  {| db_dims := {| t_companies := empty_dim; t_educations := empty_dim;
                   t_experiences := empty_dim; t_locations := empty_dim;
                   t_sectors := empty_dim; t_employment_types := empty_dim |};
     t_job_postings := []; job_postings_auto := 1;
     db_junctions := {| t_job_posting_experiences := [];
                        t_job_posting_locations := [];
                        t_job_posting_sectors := [];
                        t_job_posting_employment_types := [] |};
     t_bookmarks := []; t_users := []; users_auto := 1 |}.

(** *** Dimension tables *)

Definition rows_named (name : str) (t : dim_table) : list dim_row :=
  filter (fun r => str_eqb (dim_name r) name) (dim_rows t).

(** [SELECT <id> FROM <dim> WHERE <name> = ?] *)
Definition select_dim (name : str) (t : dim_table) : list dim_row :=
  rows_named name t.

Definition skip_auto (t : dim_table) : dim_table :=
  {| dim_rows := dim_rows t; dim_auto := dim_auto t + 1 |}.

Definition append_dim (name : str) (t : dim_table) : dim_table :=
  {| dim_rows := dim_rows t ++ [{| dim_id := dim_auto t; dim_name := name |}];
     dim_auto := dim_auto t + 1 |}.

(** Modelled from the spec: the schema of [createTables.js] is
    missing; by section 6 of the specification each dimension table
    has an AUTO_INCREMENT key and a uniqueness constraint on its
    name column.  This is [INSERT IGNORE INTO <dim> (<name>) VALUES
    (?)]: a name that is there is left alone, and the attempt still
    uses up one AUTO_INCREMENT value, as InnoDB does. *)
Definition insert_ignore_dim (name : str) (t : dim_table) : dim_table :=
  match rows_named name t with
  | [] => append_dim name t
  | _ :: _ => skip_auto t
  end.

(** Modelled from the spec: the uniqueness constraint on the name
    column, as above.  This is [INSERT INTO <dim> (<name>) VALUES (?)
    ON DUPLICATE KEY UPDATE <id> = LAST_INSERT_ID(<id>)]: the table
    afterwards and the new value of [LAST_INSERT_ID()]. *)
Definition upsert_dim (name : str) (t : dim_table) : dim_table * Z :=
  match rows_named name t with
  | [] => (append_dim name t, dim_auto t)
  | r :: _ => (skip_auto t, dim_id r)
  end.

(** *** Junction tables *)

Definition pair_eqb (a b : Z * Z) : bool :=
  (fst a =? fst b) && (snd a =? snd b).

Definition has_link (p : Z * Z) (l : list (Z * Z)) : bool :=
  existsb (pair_eqb p) l.

(** Modelled from the spec: the schema is missing; by section 4.2 of
    the specification a junction row is unique per (posting id,
    resolved id).  This is [INSERT IGNORE INTO <junction> VALUES
    (?, ?)]. *)
Definition insert_ignore_link (p : Z * Z) (l : list (Z * Z)) : list (Z * Z) :=
  if has_link p l then l else l ++ [p].

(** [DELETE FROM <junction> WHERE job_posting_id = ?] *)
Definition delete_links_of (id : Z) (l : list (Z * Z)) : list (Z * Z) :=
  filter (fun p => negb (fst p =? id)) l.

(** *** Postings *)

Definition find_posting (id : Z) (s : db) : list job_posting :=
  filter (fun p => job_posting_id p =? id) (t_job_postings s).

Definition postings_hashed (h : str) (s : db) : list job_posting :=
  filter (fun p => str_eqb (link_hash p) h) (t_job_postings s).

(** [UPDATE job_postings SET ... WHERE job_posting_id = ?] *)
Definition update_posting (f : job_posting -> job_posting) (id : Z) (s : db)
  : db :=
  with_job_postings
    (map (fun p => if job_posting_id p =? id then f p else p) (t_job_postings s))
    (job_postings_auto s) s.

Definition set_employment_type_id (v : option Z) (p : job_posting) : job_posting :=
  {| job_posting_id := job_posting_id p; user_id := user_id p;
     company_id := company_id p; title := title p; link := link p;
     link_hash := link_hash p; education_id := education_id p;
     deadline := deadline p; last_modified_date := last_modified_date p;
     salary := salary p; employment_type_id := v; views := views p;
     created_at := created_at p |}.

Definition set_company_id (v : Z) (p : job_posting) : job_posting :=
  {| job_posting_id := job_posting_id p; user_id := user_id p;
     company_id := v; title := title p; link := link p;
     link_hash := link_hash p; education_id := education_id p;
     deadline := deadline p; last_modified_date := last_modified_date p;
     salary := salary p; employment_type_id := employment_type_id p;
     views := views p; created_at := created_at p |}.

Definition set_education_id (v : option Z) (p : job_posting) : job_posting :=
  {| job_posting_id := job_posting_id p; user_id := user_id p;
     company_id := company_id p; title := title p; link := link p;
     link_hash := link_hash p; education_id := v;
     deadline := deadline p; last_modified_date := last_modified_date p;
     salary := salary p; employment_type_id := employment_type_id p;
     views := views p; created_at := created_at p |}.

Definition set_title (v : str) (p : job_posting) : job_posting :=
  {| job_posting_id := job_posting_id p; user_id := user_id p;
     company_id := company_id p; title := v; link := link p;
     link_hash := link_hash p; education_id := education_id p;
     deadline := deadline p; last_modified_date := last_modified_date p;
     salary := salary p; employment_type_id := employment_type_id p;
     views := views p; created_at := created_at p |}.

Definition set_link (v : str) (p : job_posting) : job_posting :=
  {| job_posting_id := job_posting_id p; user_id := user_id p;
     company_id := company_id p; title := title p; link := v;
     link_hash := link_hash p; education_id := education_id p;
     deadline := deadline p; last_modified_date := last_modified_date p;
     salary := salary p; employment_type_id := employment_type_id p;
     views := views p; created_at := created_at p |}.

Definition set_deadline (v : str) (p : job_posting) : job_posting :=
  {| job_posting_id := job_posting_id p; user_id := user_id p;
     company_id := company_id p; title := title p; link := link p;
     link_hash := link_hash p; education_id := education_id p;
     deadline := v; last_modified_date := last_modified_date p;
     salary := salary p; employment_type_id := employment_type_id p;
     views := views p; created_at := created_at p |}.

Definition set_salary (v : str) (p : job_posting) : job_posting :=
  {| job_posting_id := job_posting_id p; user_id := user_id p;
     company_id := company_id p; title := title p; link := link p;
     link_hash := link_hash p; education_id := education_id p;
     deadline := deadline p; last_modified_date := last_modified_date p;
     salary := v; employment_type_id := employment_type_id p;
     views := views p; created_at := created_at p |}.

Definition set_last_modified_date (v : option str) (p : job_posting)
  : job_posting :=
  {| job_posting_id := job_posting_id p; user_id := user_id p;
     company_id := company_id p; title := title p; link := link p;
     link_hash := link_hash p; education_id := education_id p;
     deadline := deadline p; last_modified_date := v;
     salary := salary p; employment_type_id := employment_type_id p;
     views := views p; created_at := created_at p |}.

End DB.

Import DB.

(* ================================================================= *)
(** ** Node's [crypto]: SHA-256 (FIPS 180-4), hex digest *)

Module Crypto.

Definition w32 (x : Z) : Z := x mod 4294967296.
Definition rotr (n x : Z) : Z :=
  w32 (Z.lor (Z.shiftr x n) (Z.shiftl x (32 - n))).
Definition xor3 (a b c : Z) : Z := Z.lxor (Z.lxor a b) c.
Definition Ch (x y z : Z) : Z :=
  Z.lxor (Z.land x y) (Z.land (Z.lxor x 4294967295) z).
Definition Maj (x y z : Z) : Z :=
  xor3 (Z.land x y) (Z.land x z) (Z.land y z).
Definition Sigma0 (x : Z) : Z := xor3 (rotr 2 x) (rotr 13 x) (rotr 22 x).
Definition Sigma1 (x : Z) : Z := xor3 (rotr 6 x) (rotr 11 x) (rotr 25 x).
Definition sigma0 (x : Z) : Z := xor3 (rotr 7 x) (rotr 18 x) (Z.shiftr x 3).
Definition sigma1 (x : Z) : Z := xor3 (rotr 17 x) (rotr 19 x) (Z.shiftr x 10).

(** The round constants and the initial hash value are, as the
    standard defines them, the first 32 bits of the fractional parts
    of the cube roots of the first 64 primes and of the square roots
    of the first 8. *)
Definition is_prime (n : nat) : bool :=
  (1 <? n)%nat
  && forallb (fun d => negb (n mod d =? 0)%nat) (List.seq 2 (n - 2)).

Definition primes (count : nat) : list Z :=
  map Z.of_nat (firstn count (filter is_prime (List.seq 2 310))).

(** The integer cube root of [x], found bit by bit from bit [bits]
    down; [r] is the root so far. *)
Fixpoint cube_root (bits : nat) (x r : Z) : Z :=
  match bits with
  | O => r
  | S b =>
    let r' := r + 2 ^ Z.of_nat b in
    if r' * r' * r' <=? x then cube_root b x r' else cube_root b x r
  end.

Definition K : list Z :=
  map (fun p => w32 (cube_root 36 (p * 2 ^ 96) 0)) (primes 64).

Definition H0 : list Z :=
  map (fun p => w32 (Z.sqrt (p * 2 ^ 64))) (primes 8).

(** The padded message: the bytes, 0x80, zeros, and the bit length
    as 8 big-endian bytes, a multiple of 64 bytes in all. *)
Definition be_bytes (n : nat) (x : Z) : list Z :=
  map (fun i => Z.shiftr x (8 * Z.of_nat i) mod 256) (rev (seq 0 n)).

Definition pad (bytes : list Z) : list Z :=
  let len := Z.of_nat (List.length bytes) in
  bytes ++ [128] ++ repeat 0 (Z.to_nat ((55 - len) mod 64))
        ++ be_bytes 8 (8 * len).

Fixpoint words (fuel : nat) (bytes : list Z) : list Z :=
  match fuel, bytes with
  | S f, b0 :: b1 :: b2 :: b3 :: r =>
    (b0 * 16777216 + b1 * 65536 + b2 * 256 + b3) :: words f r
  | _, _ => []
  end.

(** The message schedule: [w] holds W[0..t-1], newest first. *)
Fixpoint schedule (n : nat) (w : list Z) : list Z :=
  match n with
  | O => rev w
  | S n' =>
    schedule n'
      (w32 (sigma1 (nth 1 w 0) + nth 6 w 0 + sigma0 (nth 14 w 0) + nth 15 w 0)
       :: w)
  end.

Definition round (st : list Z) (kw : Z * Z) : list Z :=
  match st with
  | [a; b; c; d; e; f; g; h] =>
    let t1 := h + Sigma1 e + Ch e f g + fst kw + snd kw in
    let t2 := Sigma0 a + Maj a b c in
    [w32 (t1 + t2); a; b; c; w32 (d + t1); e; f; g]
  | _ => st
  end.

Definition compress (h : list Z) (block : list Z) : list Z :=
  let w := schedule 48 (rev block) in
  map (fun p => w32 (fst p + snd p))
      (combine h (fold_left round (combine K w) h)).

Fixpoint blocks (fuel : nat) (ws : list Z) (h : list Z) : list Z :=
  match fuel, ws with
  | _, [] => h
  | O, _ => h
  | S f, _ => blocks f (skipn 16 ws) (compress h (firstn 16 ws))
  end.

Definition sha256 (bytes : list Z) : list Z :=
  let p := pad bytes in
  let ws := words (List.length p) p in
  flat_map (be_bytes 4) (blocks (List.length ws) ws H0).

Definition hex_digit (n : Z) : N :=
  if n <? 10 then Z.to_N (48 + n) else Z.to_N (87 + n).

Definition hex (bytes : list Z) : str :=
  flat_map (fun b => [hex_digit (b / 16); hex_digit (b mod 16)]) bytes.

(** [crypto.createHash('sha256').update(s).digest('hex')] *)
Definition sha256_hex (s : str) : str :=
  hex (sha256 (map Z.of_N (utf8_encode s))).

End Crypto.

(* ================================================================= *)
(** ** Model/DB_setup/insertData.js *)

Module InsertData.

(** One scraped record, a flat object of labelled text fields.  The
    keys of the source are Korean: 회사명, 제목, 링크, 학력, 마감일,
    직무분야, 급여, 경력, 지역, 고용형태. *)
Record record := {
  r_company : str;
  r_title : str;
  r_link : str;
  r_education : str;
  r_deadline : str;
  r_sector : str;
  r_salary : str;
  r_experience : str;
  r_location : str;
  r_employment : str
}.

Definition comma : N := 44.
Definition middle_dot : N := 183.
Definition slash : N := 47.

(** The sentinel the sector parser drops, 외 ("and others"). *)
Definition etc : str := js "외".

(** [[,·]] *)
Definition field_separator (c : N) : bool :=
  ((c =? comma) || (c =? middle_dot))%N.

(** [fieldValue.split(/[,·]/).map(value => value.trim())
      .filter(value => value !== '')] *)
Definition parseMultiValueField (fieldValue : str) : list str :=
  filter (fun value => negb (str_eqb value []))
    (map trim (split field_separator fieldValue)).

(** The groups of a match of
    [/(수정일|등록일)\s*(\d{2})\/(\d{2})\/(\d{2})/]:
    the matched text and groups 2, 3 and 4. *)
Record date_match := {
  m_text : str;
  m_year : str;
  m_month : str;
  m_day : str
}.

Definition word_modified : str := js "수정일".
Definition word_posted : str := js "등록일".

(** The pattern tried at the head of [s].  [\s*] is greedy and what
    follows it is a digit, so the match at a position is unique. *)
Definition match_date_here (s : str) : option date_match :=
  let word :=
    if is_prefix word_modified s then Some word_modified
    else if is_prefix word_posted s then Some word_posted
    else None in
  match word with
  | None => None
  | Some w =>
    let r := skipn (List.length w) s in
    match drop_while is_whitespace r with
    | y1 :: y2 :: s1 :: m1 :: m2 :: s2 :: d1 :: d2 :: _ =>
      if is_digit y1 && is_digit y2 && (s1 =? slash)%N
         && is_digit m1 && is_digit m2 && (s2 =? slash)%N
         && is_digit d1 && is_digit d2
      then Some {| m_text := w ++ take_while is_whitespace r
                              ++ [y1; y2; s1; m1; m2; s2; d1; d2];
                   m_year := [y1; y2];
                   m_month := [m1; m2];
                   m_day := [d1; d2] |}
      else None
    | _ => None
    end
  end.

(** [sectorStr.match(...)]: the leftmost match. *)
Fixpoint match_date (s : str) : option date_match :=
  match match_date_here s with
  | Some m => Some m
  | None =>
    match s with
    | [] => None
    | _ :: r => match_date r
    end
  end.

(** *** moment

    [moment(`${year}-${month}-${day}`, 'YYYY-MM-DD').format('YYYY-MM-DD')]
    for a four-digit year and a month and a day of at most two
    digits: the zero-padded date when it is a day of the calendar,
    moment's text for an invalid date otherwise. *)
Definition is_leap_year (y : Z) : bool :=
  (y mod 4 =? 0) && negb (y mod 100 =? 0) || (y mod 400 =? 0).

Definition days_in_month (y m : Z) : Z :=
  if (m =? 2) then (if is_leap_year y then 29 else 28)
  else if (m =? 4) || (m =? 6) || (m =? 9) || (m =? 11) then 30
  else 31.

Definition valid_date (y m d : Z) : bool :=
  (1 <=? m) && (m <=? 12) && (1 <=? d) && (d <=? days_in_month y m).

Definition hyphen : N := 45.

Definition iso_date (y m d : Z) : str :=
  pad_digits 4 y ++ [hyphen] ++ pad_digits 2 m ++ [hyphen] ++ pad_digits 2 d.

Definition invalid_date : str := js "Invalid date".

Definition moment_format (y m d : Z) : str :=
  if valid_date y m d then iso_date y m d else invalid_date.

(** The sector tokens of a string: split on commas, trimmed, the
    empty ones and the sentinel dropped. *)
Definition sector_tokens (sectorStr : str) : list str :=
  filter (fun value => negb (str_eqb value []) && negb (str_eqb value etc))
    (map trim (split (fun c => (c =? comma)%N) sectorStr)).

(** Returns [{ sectorsArray, lastModifiedDate }]; [None] is [null]. *)
Definition parseSectorsAndModifiedDate (sectorStr : str)
  : list str * option str :=
  match match_date sectorStr with
  | Some m =>
    let lastModifiedDate :=
      match parseInt10 (m_year m), parseInt10 (m_month m),
            parseInt10 (m_day m) with
      | Some y, Some mo, Some d => moment_format (y + 2000) mo d
      | _, _, _ => invalid_date
      end in
    (sector_tokens (replace_first (m_text m) sectorStr), Some lastModifiedDate)
  | None => (sector_tokens sectorStr, None)
  end.

(** *** The ingestion loop *)

(** [rows[0]?.<id>] *)
Definition first_id (rows : list dim_row) : option Z :=
  match rows with
  | r :: _ => Some (dim_id r)
  | [] => None
  end.

(** Truthiness of an id that may be [undefined]. *)
Definition truthy_id (o : option Z) : bool :=
  match o with
  | Some v => truthy_num v
  | None => false
  end.

(** [INSERT IGNORE INTO <dim> ...] followed by [SELECT <id> FROM <dim>
    WHERE <name> = ?] and [rows[0]?.<id>]. *)
Definition get_or_create (d : dim) (name : str) (s : db) : db * option Z :=
  let s1 := with_table d (insert_ignore_dim name (table d s)) s in
  (s1, first_id (select_dim name (table d s1))).

(** How the loop resolves the label of each dimension: the education
    level is inserted only when the field is truthy and a falsy id
    becomes [null]; the employment type is looked at only when the
    field is truthy; the other four are always inserted and read
    back. *)
Definition resolve (d : dim) (name : str) (s : db) : db * option Z :=
  match d with
  | educations =>
    let s1 := if truthy_str name
              then with_table d (insert_ignore_dim name (table d s)) s
              else s in
    let id := first_id (select_dim name (table d s1)) in
    (s1, if truthy_id id then id else None)
  | employment_types =>
    if truthy_str name then get_or_create d name s else (s, None)
  | _ => get_or_create d name s
  end.

(** Modelled from the spec: the owner column of a scraped posting is
    filled by the schema, which is missing; by section 3 of the
    specification it is the designated administrator, user 1 of the
    README. *)
Definition batch_owner : option Z := Some 1.

(** Modelled from the spec: the schema is missing; the uniqueness
    constraint on link_hash is that of section 6 of the
    specification.  This is [INSERT IGNORE INTO job_postings
    (company_id, title, link, link_hash, education_id, deadline,
    last_modified_date, salary) VALUES (...)]; the remaining columns
    take their defaults. *)
Definition insert_ignore_posting (now companyId : Z) (title link linkHash : str)
    (educationId : option Z) (deadline : str) (lastModifiedDate : option str)
    (salary : str) (s : db) : db :=
  match postings_hashed linkHash s with
  | [] =>
    with_job_postings
      (t_job_postings s ++
       [{| job_posting_id := job_postings_auto s; user_id := batch_owner;
           company_id := companyId; title := title; link := link;
           link_hash := linkHash; education_id := educationId;
           deadline := deadline; last_modified_date := lastModifiedDate;
           salary := salary; employment_type_id := None; views := 0;
           created_at := now |}])
      (job_postings_auto s + 1) s
  | _ :: _ => with_job_postings (t_job_postings s) (job_postings_auto s + 1) s
  end.

(** One turn of a [for (const x of xsArray)] loop: the label is
    resolved and, when the id is truthy, linked to the posting. *)
Definition link_label (d : dim) (j : junction) (jobPostingId : Z)
    (s : db) (name : str) : db :=
  let (s1, id) := get_or_create d name s in
  match id with
  | Some v =>
    if truthy_num v
    then with_links j (insert_ignore_link (jobPostingId, v) (links j s1)) s1
    else s1
  | None => s1
  end.

Definition link_labels (d : dim) (j : junction) (jobPostingId : Z)
    (names : list str) (s : db) : db :=
  fold_left (link_label d j jobPostingId) names s.

(** The employment type block: the posting's own reference is
    updated and the junction row inserted. *)
Definition link_employment_type (jobPostingId : Z) (name : str) (s : db) : db :=
  let (s1, id) := resolve employment_types name s in
  match id with
  | Some v =>
    if truthy_num v
    then
      let s2 := update_posting (set_employment_type_id (Some v)) jobPostingId s1 in
      with_links job_posting_employment_types
        (insert_ignore_link (jobPostingId, v)
           (links job_posting_employment_types s2)) s2
    else s1
  | None => s1
  end.

(** The body of the loop for one record: the store afterwards and
    whether the record went through ([false]: an error was thrown,
    caught and logged; what had been written stays). *)
Definition insert_record (now : Z) (s : db) (data : record) : db * bool :=
  let (s1, companyId) := resolve companies (r_company data) s in
  match companyId with
  | None => (s1, false)
  | Some cid =>
    if negb (truthy_num cid) then (s1, false) else
    let (s2, educationId) := resolve educations (r_education data) s1 in
    let (sectorsArray, lastModifiedDate) :=
      parseSectorsAndModifiedDate (r_sector data) in
    let linkHash := Crypto.sha256_hex (r_link data) in
    let s3 := insert_ignore_posting now cid (r_title data) (r_link data)
                linkHash educationId (r_deadline data) lastModifiedDate
                (r_salary data) s2 in
    match postings_hashed linkHash s3 with
    | [] => (s3, false)
    | p :: _ =>
      let jobPostingId := job_posting_id p in
      if negb (truthy_num jobPostingId) then (s3, false) else
      let s4 := link_labels experiences job_posting_experiences jobPostingId
                  (parseMultiValueField (r_experience data)) s3 in
      let s5 := link_labels locations job_posting_locations jobPostingId
                  (parseMultiValueField (r_location data)) s4 in
      let s6 := link_employment_type jobPostingId (r_employment data) s5 in
      let s7 := link_labels sectors job_posting_sectors jobPostingId
                  sectorsArray s6 in
      (s7, true)
    end
  end.

(** [insertData(dataArray)] *)
Definition insertData (now : Z) (dataArray : list record) (s : db) : db :=
  fold_left (fun s data => fst (insert_record now s data)) dataArray s.

End InsertData.

Import InsertData.

(* ================================================================= *)
(** ** What the SQL text of the handlers computes *)

Module Query.

(** [LIMIT ? OFFSET ?] *)
Definition limit_offset {A} (limit offset : Z) (rows : list A) : list A :=
  firstn (Z.to_nat limit) (skipn (Z.to_nat offset) rows).

(** [ORDER BY]: a stable insertion sort, [leb a b] telling that [a]
    may come before [b]. *)
Fixpoint insert_sorted {A} (leb : A -> A -> bool) (x : A) (l : list A) : list A :=
  match l with
  | [] => [x]
  | y :: r => if leb x y then x :: l else y :: insert_sorted leb x r
  end.

Definition order_by {A} (leb : A -> A -> bool) (l : list A) : list A :=
  fold_right (insert_sorted leb) [] l.

(** [x LIKE pattern]: [%] is any sequence, [_] any one character, a
    backslash takes the next character literally. *)
Definition percent : N := 37.
Definition underscore : N := 95.
Definition backslash : N := 92.

Fixpoint like (pattern s : str) {struct pattern} : bool :=
  match pattern with
  | [] => match s with [] => true | _ :: _ => false end
  | c :: p =>
    if (c =? percent)%N then
      (fix any (s : str) : bool :=
         like p s || match s with [] => false | _ :: r => any r end) s
    else if (c =? underscore)%N then
      match s with [] => false | _ :: r => like p r end
    else if (c =? backslash)%N then
      match p with
      | e :: p' =>
        match s with [] => false | x :: r => (x =? e)%N && like p' r end
      | [] =>
        match s with [x] => (x =? backslash)%N | _ => false end
      end
    else
      match s with [] => false | x :: r => (x =? c)%N && like p r end
  end.

(** [`%${keyword}%`] *)
Definition contains_pattern (keyword : str) : str :=
  [percent] ++ keyword ++ [percent].

(** [REPLACE(s, needle, '')]: every occurrence removed, left to
    right; [skip] counts the characters of an occurrence still to be
    dropped. *)
Fixpoint remove_all_from (needle : str) (skip : nat) (s : str) : str :=
  match s with
  | [] => []
  | c :: r =>
    match skip with
    | S k => remove_all_from needle k r
    | O =>
      match needle with
      | [] => c :: remove_all_from needle O r
      | _ :: n' =>
        if is_prefix needle s then remove_all_from needle (List.length n') r
        else c :: remove_all_from needle O r
      end
    end
  end.

Definition remove_all (needle s : str) : str := remove_all_from needle O s.

(** [CAST(s AS UNSIGNED)]: blanks are skipped, then an optional sign
    and the longest run of digits is read; no digit gives 0, a minus
    sign wraps around 2^64, too large a number saturates. *)
Definition uint64_max : Z := 18446744073709551615.

Definition is_blank (c : N) : bool := ((c =? 32) || (c =? 9))%N.

Definition cast_unsigned (s : str) : Z :=
  let (neg, r) := strip_sign (drop_while is_blank s) in
  let v := Z.min (digits_value 10 (take_while is_digit r)) uint64_max in
  if neg && negb (v =? 0) then uint64_max + 1 - v else v.

(** The company a posting is joined with, [JOIN companies c ON
    j.company_id = c.company_id]. *)
Definition company_of (p : job_posting) (s : db) : option dim_row :=
  find (fun c => dim_id c =? company_id p) (dim_rows (table companies s)).

(** The rows of dimension [d] joined to posting [p] through junction
    [j], optionally only the one with id [only] (a filter of the
    WHERE clause on the joined table). *)
Definition joined (d : dim) (j : junction) (only : option Z) (p : job_posting)
    (s : db) : list dim_row :=
  filter
    (fun r =>
       has_link (job_posting_id p, dim_id r) (links j s)
       && match only with Some v => dim_id r =? v | None => true end)
    (dim_rows (table d s)).

Definition names (rows : list dim_row) : list str := map dim_name rows.

Fixpoint join_with (sep : str) (l : list str) : str :=
  match l with
  | [] => []
  | [x] => x
  | x :: r => x ++ sep ++ join_with sep r
  end.

(** [GROUP_CONCAT(DISTINCT name SEPARATOR sep)]; NULL without rows. *)
Definition group_concat (sep : str) (l : list str) : option str :=
  match l with
  | [] => None
  | _ => Some (join_with sep l)
  end.

End Query.

Import Query.

(* ================================================================= *)
(** ** Control/jobsAPI.js *)

Module JobsAPI.

Definition PAGE_SIZE : Z := 20.

(** [s.split(sep)] with a non-empty string separator. *)
Fixpoint split_str_from (sep : str) (skip : nat) (s : str) : list str :=
  match s with
  | [] => [[]]
  | c :: r =>
    match skip with
    | S k => split_str_from sep k r
    | O =>
      if is_prefix sep s
      then [] :: split_str_from sep (Nat.pred (List.length sep)) r
      else match split_str_from sep O r with
           | h :: t => (c :: h) :: t
           | [] => [[c]]
           end
    end
  end.

Definition split_str (sep s : str) : list str := split_str_from sep O s.

Definition comma_space : str := js ", ".

(** [row.x ? row.x.split(', ') : []] *)
Definition split_or_empty (sep : str) (o : option str) : list str :=
  match o with
  | Some v => if truthy_str v then split_str sep v else []
  | None => []
  end.

(** *** POST /jobs: the filtered, sorted, paginated listing *)

(** The body of the request.  [sort] stands for the ORDER BY
    expression the caller sent, given by the order it denotes. *)
Record list_request := {
  page : option Z;
  sort : option (job_posting -> job_posting -> bool);
  location : option Z;
  experience : option Z;
  sector : option Z;
  keyword : option str;
  company : option str
}.

Definition truthy_opt_num (o : option Z) : bool :=
  match o with Some v => truthy_num v | None => false end.

Definition truthy_opt_str (o : option str) : bool :=
  match o with Some v => truthy_str v | None => false end.

Definition filter_id (o : option Z) : option Z :=
  if truthy_opt_num o then o else None.

(** The WHERE clause over the joins of [baseQuery], for one posting:
    every filter that was pushed has a joined row satisfying it. *)
Definition matches (req : list_request) (s : db) (p : job_posting) : bool :=
  match company_of p s with
  | None => false
  | Some c =>
    (match filter_id (location req) with
     | Some v => has_link (job_posting_id p, v) (links job_posting_locations s)
     | None => true
     end)
    && (match filter_id (experience req) with
        | Some v =>
          has_link (job_posting_id p, v) (links job_posting_experiences s)
        | None => true
        end)
    && (match filter_id (sector req) with
        | Some v =>
          negb (match joined sectors job_posting_sectors (Some v) p s with
                | [] => true | _ :: _ => false end)
        | None => true
        end)
    && (match keyword req with
        | Some k =>
          if truthy_str k
          then like (contains_pattern k) (title p)
               || like (contains_pattern k) (dim_name c)
          else true
        | None => true
        end)
    && (match company req with
        | Some k =>
          if truthy_str k then like (contains_pattern k) (dim_name c) else true
        | None => true
        end)
  end.

Record job_row := {
  row_job_posting_id : Z;
  row_title : str;
  row_company_name : str;
  row_salary : str;
  row_link : str;
  row_deadline : str;
  row_locations : list str;
  row_sectors : list str
}.

Definition company_name_of (p : job_posting) (s : db) : str :=
  match company_of p s with
  | Some c => dim_name c
  | None => []
  end.

Definition format_row (req : list_request) (s : db) (p : job_posting) : job_row :=
  {| row_job_posting_id := job_posting_id p;
     row_title := title p;
     row_company_name := company_name_of p s;
     row_salary := salary p;
     row_link := link p;
     row_deadline := deadline p;
     row_locations :=
       split_or_empty comma_space
         (group_concat comma_space
            (names (joined locations job_posting_locations
                      (filter_id (location req)) p s)));
     row_sectors :=
       split_or_empty comma_space
         (group_concat comma_space
            (names (joined sectors job_posting_sectors
                      (filter_id (sector req)) p s))) |}.

(** [ORDER BY <sort>, j.job_posting_id ASC], by default
    [ORDER BY j.created_at DESC, j.job_posting_id ASC]. *)
Definition listing_order (req : list_request) (a b : job_posting) : bool :=
  match sort req with
  | Some leb =>
    if leb a b then (if leb b a then job_posting_id a <=? job_posting_id b else true)
    else false
  | None =>
    (created_at b <? created_at a)
    || (created_at a =? created_at b) && (job_posting_id a <=? job_posting_id b)
  end.

Definition list_jobs (s : db) (req : list_request) : response (list job_row) :=
  let page := match page req with Some p => p | None => 1 end in
  if page <? 1 then error "부적절한 페이지 값" 400 else
  let offset := (page - 1) * PAGE_SIZE in
  let matching := filter (matches req s) (t_job_postings s) in
  let totalCount := Z.of_nat (List.length matching) in
  if totalCount =? 0 then error "부합한 공고가 없습니다." 404 else
  let rows := limit_offset PAGE_SIZE offset (order_by (listing_order req) matching) in
  let pagination :=
    {| currentPage := page; totalPages := ceil_div totalCount PAGE_SIZE;
       pageSize := PAGE_SIZE; totalItems := totalCount |} in
  let formattedRows := map (format_row req s) rows in
  if (totalPages pagination <? page) || (page <? 1)
  then error "부적절한 페이지 값" 400
  else success "공고 조회 성공" formattedRows (Some pagination) false.

(** *** PUT /jobs/:id *)

Inductive ref_column := company_ref | education_ref | employment_type_ref.

Definition dim_of_ref (c : ref_column) : dim :=
  match c with
  | company_ref => companies
  | education_ref => educations
  | employment_type_ref => employment_types
  end.

(** The statements the handlers queue for [executeTransaction], each
    with its parameters. *)
Inductive query :=
| SelectPosting (id : Z)
    (* SELECT job_posting_id FROM job_postings WHERE job_posting_id = ? *)
| SelectOwnedPosting (id userId : Z)
    (* SELECT * FROM job_postings WHERE job_posting_id = ? AND user_id = ? *)
| Upsert (d : dim) (name : str)
    (* INSERT INTO <d> (<name>) VALUES (?) ON DUPLICATE KEY UPDATE
       <id> = LAST_INSERT_ID(<id>) *)
| SetRefToLastInsertId (c : ref_column) (id : Z)
    (* UPDATE job_postings SET <c> = LAST_INSERT_ID() WHERE job_posting_id = ? *)
| SetTitle (v : str) (id : Z)
| SetLink (v : str) (id : Z)
| SetDeadline (v : str) (id : Z)
| SetSalary (v : str) (id : Z)
| DeleteLinks (j : junction) (id : Z)
    (* DELETE FROM <j> WHERE job_posting_id = ? *)
| InsertLinkToLastInsertId (j : junction) (id : Z)
    (* INSERT INTO <j> (job_posting_id, <id>) VALUES (?, LAST_INSERT_ID()) *)
| TouchLastModified (id : Z).
    (* UPDATE job_postings SET last_modified_date = CURRENT_TIMESTAMP
       WHERE job_posting_id = ? *)

(** A connection: the store and the value of [LAST_INSERT_ID()]. *)
Record conn := { store : db; last_insert_id : Z }.

(** One statement on a connection; [None] when the store raises an
    error (here: a junction row that exists already, the junction
    rows being unique as in [DB.insert_ignore_link]). *)
Definition run_query (now : str) (q : query) (c : conn) : option conn :=
  let s := store c in
  let keep s' := Some {| store := s'; last_insert_id := last_insert_id c |} in
  match q with
  | SelectPosting _ => Some c
  | SelectOwnedPosting _ _ => Some c
  | Upsert d name =>
    let (t, id) := upsert_dim name (table d s) in
    Some {| store := with_table d t s; last_insert_id := id |}
  | SetRefToLastInsertId company_ref id =>
    keep (update_posting (set_company_id (last_insert_id c)) id s)
  | SetRefToLastInsertId education_ref id =>
    keep (update_posting (set_education_id (Some (last_insert_id c))) id s)
  | SetRefToLastInsertId employment_type_ref id =>
    keep (update_posting (set_employment_type_id (Some (last_insert_id c))) id s)
  | SetTitle v id => keep (update_posting (set_title v) id s)
  | SetLink v id => keep (update_posting (set_link v) id s)
  | SetDeadline v id => keep (update_posting (set_deadline v) id s)
  | SetSalary v id => keep (update_posting (set_salary v) id s)
  | DeleteLinks j id => keep (with_links j (delete_links_of id (links j s)) s)
  | InsertLinkToLastInsertId j id =>
    if has_link (id, last_insert_id c) (links j s) then None
    else keep (with_links j (links j s ++ [(id, last_insert_id c)]) s)
  | TouchLastModified id =>
    keep (update_posting (set_last_modified_date (Some now)) id s)
  end.

Fixpoint run_queries (now : str) (qs : list query) (c : conn) : option conn :=
  match qs with
  | [] => Some c
  | q :: r =>
    match run_query now q c with
    | Some c' => run_queries now r c'
    | None => None
    end
  end.

(** Modelled from the spec: [executeTransaction] of
    [Model/executeDB.js] is missing; by sections 4.3 and 5 of the
    specification the statements run in order on one connection
    inside one transaction, and a failing statement rolls all of
    them back and raises.  [None] is the raised error. *)
Definition executeTransaction (now : str) (queries : list query) (s : db)
  : option db :=
  match run_queries now queries {| store := s; last_insert_id := 0 |} with
  | Some c => Some (store c)
  | None => None
  end.

Record update_request := {
  companyName : option str;
  u_title : option str;
  u_link : option str;
  educationLevel : option str;
  u_deadline : option str;
  locationNames : option (list str);
  sectorNames : option (list str);
  employmentType : option str;
  u_salary : option str
}.

Definition when_truthy (o : option str) (f : str -> list query) : list query :=
  match o with
  | Some v => if truthy_str v then f v else []
  | None => []
  end.

(** An array is truthy, empty or not. *)
Definition when_given (o : option (list str)) (f : list str -> list query)
  : list query :=
  match o with
  | Some l => f l
  | None => []
  end.

Definition is_given (o : option (list str)) : bool :=
  match o with Some _ => true | None => false end.

(** The list [queries] the handler builds. *)
Definition update_queries (id userId : Z) (body : update_request) : list query :=
  [SelectPosting id; SelectOwnedPosting id userId]
  ++ when_truthy (companyName body)
       (fun v => [Upsert companies v; SetRefToLastInsertId company_ref id])
  ++ when_truthy (u_title body) (fun v => [SetTitle v id])
  ++ when_truthy (u_link body) (fun v => [SetLink v id])
  ++ when_truthy (educationLevel body)
       (fun v => [Upsert educations v; SetRefToLastInsertId education_ref id])
  ++ when_truthy (u_deadline body) (fun v => [SetDeadline v id])
  ++ when_truthy (employmentType body)
       (fun v => [Upsert employment_types v;
                  SetRefToLastInsertId employment_type_ref id])
  ++ when_truthy (u_salary body) (fun v => [SetSalary v id])
  ++ when_given (locationNames body)
       (fun l => DeleteLinks job_posting_locations id
                 :: flat_map (fun locationName =>
                                [Upsert locations locationName;
                                 InsertLinkToLastInsertId job_posting_locations id]) l)
  ++ when_given (sectorNames body)
       (fun l => DeleteLinks job_posting_sectors id
                 :: flat_map (fun sectorName =>
                                [Upsert sectors sectorName;
                                 InsertLinkToLastInsertId job_posting_sectors id]) l)
  ++ [TouchLastModified id].

(** The row read back after the update. *)
Record updated_job := {
  uj_title : str;
  uj_company_name : str;
  uj_salary : str;
  uj_deadline : str;
  uj_education_level : str;
  uj_locations : option str;
  uj_sectors : option str;
  uj_employment_type_name : option str;
  uj_last_modified_date : option str
}.

Definition comma_str : str := js ",".

Definition find_dim_row (d : dim) (id : option Z) (s : db) : option dim_row :=
  match id with
  | Some v => find (fun r => dim_id r =? v) (dim_rows (table d s))
  | None => None
  end.

Definition select_updated (id : Z) (s : db) : list updated_job :=
  flat_map
    (fun p =>
       match company_of p s, find_dim_row educations (education_id p) s with
       | Some c, Some e =>
         [{| uj_title := title p;
             uj_company_name := dim_name c;
             uj_salary := salary p;
             uj_deadline := deadline p;
             uj_education_level := dim_name e;
             uj_locations :=
               group_concat comma_str
                 (names (joined locations job_posting_locations None p s));
             uj_sectors :=
               group_concat comma_str
                 (names (joined sectors job_posting_sectors None p s));
             uj_employment_type_name :=
               option_map dim_name
                 (find_dim_row employment_types (employment_type_id p) s);
             uj_last_modified_date := last_modified_date p |}]
       | _, _ => []
       end)
    (find_posting id s).

(** The handler over any implementation [exec] of
    [executeTransaction]; a raised error leaves the store as the
    implementation left it, here the store before the call. *)
Definition updateJobPosting_with (exec : list query -> db -> option db)
    (s : db) (id userId : Z) (body : update_request)
  : db * response (list updated_job) :=
  if negb (truthy_opt_str (companyName body))
     && negb (truthy_opt_str (u_title body))
     && negb (truthy_opt_str (u_link body))
     && negb (truthy_opt_str (educationLevel body))
     && negb (truthy_opt_str (u_deadline body))
     && negb (is_given (locationNames body))
     && negb (is_given (sectorNames body))
     && negb (truthy_opt_str (employmentType body))
     && negb (truthy_opt_str (u_salary body))
  then (s, error "수정할 필드를 입력해주세요." 400)
  else
    match exec (update_queries id userId body) s with
    | Some s' =>
      (s', success "공고가 성공적으로 수정되었습니다." (select_updated id s') None false)
    | None => (s, error "공고 수정 실패" 500)
    end.

Definition updateJobPosting (now : str) := updateJobPosting_with (executeTransaction now).

(** *** DELETE /jobs/:id *)

(** Modelled from the spec: the schema is missing; by section 4.3
    the junction rows of a deleted posting go with it (and so do
    the bookmarks on it). *)
Definition delete_posting (id : Z) (s : db) : db :=
  let s1 := with_job_postings
              (filter (fun p => negb (job_posting_id p =? id)) (t_job_postings s))
              (job_postings_auto s) s in
  let s2 := fold_left (fun s j => with_links j (delete_links_of id (links j s)) s)
              [job_posting_experiences; job_posting_locations;
               job_posting_sectors; job_posting_employment_types] s1 in
  with_bookmarks
    (filter (fun b => negb (bm_job_posting_id b =? id)) (t_bookmarks s2)) s2.

(** [job[0].user_id !== userId] *)
Definition differs (owner : option Z) (userId : Z) : bool :=
  match owner with
  | Some u => negb (u =? userId)
  | None => true
  end.

(** [id] is [None] when the path segment is not a number. *)
Definition deleteJobPosting (s : db) (id : option Z) (userId : Z) : db * response Z :=
  match id with
  | None => (s, error "유효하지 않은 공고 ID입니다." 400)
  | Some id =>
    match find_posting id s with
    | [] => (s, error "삭제하려는 공고가 존재하지 않습니다." 404)
    | job0 :: _ =>
      if differs (user_id job0) userId
      then (s, error "이 공고를 삭제할 권한이 없습니다." 403)
      else (delete_posting id s,
            success "공고가 성공적으로 삭제되었습니다." id None false)
    end
  end.

(** *** POST /jobs/sectors *)

(** The sectors joined to a posting whose name is like the pattern:
    [JOIN job_posting_sectors jps ... JOIN sectors s ... WHERE
    s.sector_name LIKE ?]. *)
Definition sectors_like (pattern : str) (s : db) (p : job_posting)
  : list dim_row :=
  filter (fun r => like pattern (dim_name r))
    (joined sectors job_posting_sectors None p s).

Definition has_sector_like (pattern : str) (s : db) (p : job_posting) : bool :=
  match sectors_like pattern s p with [] => false | _ :: _ => true end.

(** A row of the data query: the sectors listed are the matching
    ones, the WHERE clause having dropped the others. *)
Definition sector_row (pattern : str) (s : db) (p : job_posting) : job_row :=
  {| row_job_posting_id := job_posting_id p;
     row_title := title p;
     row_company_name := company_name_of p s;
     row_salary := salary p;
     row_link := link p;
     row_deadline := deadline p;
     row_locations :=
       split_or_empty comma_space
         (group_concat comma_space
            (names (joined locations job_posting_locations None p s)));
     row_sectors :=
       split_or_empty comma_space
         (group_concat comma_space (names (sectors_like pattern s p))) |}.

(** The postings of the data query, which joins the company as well.
    It has no ORDER BY; the rows are taken in the order of the table. *)
Definition sector_query (pattern : str) (s : db) : list job_posting :=
  filter (fun p => has_sector_like pattern s p
                   && match company_of p s with Some _ => true | None => false end)
         (t_job_postings s).

(** The body holds [keyword] and [page]. *)
Definition sector_jobs (s : db) (keyword : option str) (page : option Z)
  : response (list job_row) :=
  let page := match page with Some p => p | None => 1 end in
  if page <? 1 then error "부적절한 페이지 값" 400 else
  if negb (truthy_opt_str keyword) then error "키워드는 필수입니다." 400 else
  let keyword := match keyword with Some k => k | None => [] end in
  let offset := (page - 1) * PAGE_SIZE in
  let pattern := contains_pattern keyword in
  let totalCount :=
    Z.of_nat (List.length (filter (has_sector_like pattern s) (t_job_postings s))) in
  if totalCount =? 0 then error "해당 직무 관련 공고가 없습니다." 404 else
  let rows := limit_offset PAGE_SIZE offset (sector_query pattern s) in
  let formattedRows := map (sector_row pattern s) rows in
  let pagination :=
    {| currentPage := page; totalPages := ceil_div totalCount PAGE_SIZE;
       pageSize := PAGE_SIZE; totalItems := totalCount |} in
  if (totalPages pagination <? page) || (page <? 1)
  then error "부적절한 페이지 값" 400
  else success "직무 관련 공고 조회 성공" formattedRows (Some pagination) false.

(** *** GET /jobs/:id *)

Record detail_job := {
  dj_job_posting_id : Z;
  dj_title : str;
  dj_company_name : str;
  dj_salary : str;
  dj_link : str;
  dj_deadline : str;
  dj_locations : list str;
  dj_sectors : list str;
  dj_employment_types : list str
}.

Record related_job := {
  rj_job_posting_id : Z;
  rj_title : str;
  rj_company_name : str;
  rj_salary : str;
  rj_link : str;
  rj_deadline : str;
  rj_sectors : option str
}.

(** [relatedJobsResult]: the related postings, or a text when there
    is none. *)
Inductive related_result :=
| related_jobs (jobs : list related_job)
| no_related_jobs (message : string).

Record detail_data := {
  detailJob : detail_job;
  relatedJobsResult : related_result
}.

(** A row of the detail query; the three lists are GROUP_CONCATs with
    the default separator, a comma. *)
Record detail_row := {
  dr_posting : job_posting;
  dr_company_name : str;
  dr_locations : option str;
  dr_sectors : option str;
  dr_employment_types : option str
}.

Definition detail_rows (id : Z) (s : db) : list detail_row :=
  flat_map
    (fun p =>
       match company_of p s with
       | Some c =>
         [{| dr_posting := p;
             dr_company_name := dim_name c;
             dr_locations :=
               group_concat comma_str
                 (names (joined locations job_posting_locations None p s));
             dr_sectors :=
               group_concat comma_str
                 (names (joined sectors job_posting_sectors None p s));
             dr_employment_types :=
               group_concat comma_str
                 (names (joined employment_types job_posting_employment_types
                           None p s)) |}]
       | None => []
       end)
    (find_posting id s).

(** [UPDATE job_postings SET views = views + 1 WHERE job_posting_id = ?] *)
Definition add_view (p : job_posting) : job_posting :=
  {| job_posting_id := job_posting_id p; user_id := user_id p;
     company_id := company_id p; title := title p; link := link p;
     link_hash := link_hash p; education_id := education_id p;
     deadline := deadline p; last_modified_date := last_modified_date p;
     salary := salary p; employment_type_id := employment_type_id p;
     views := views p + 1; created_at := created_at p |}.

(** [j.job_posting_id IN (SELECT DISTINCT js2.job_posting_id FROM
    job_posting_sectors js2 WHERE js2.sector_id IN (SELECT sector_id
    FROM job_posting_sectors WHERE job_posting_id = ?))] *)
Definition shares_sector (id : Z) (s : db) (p : job_posting) : bool :=
  existsb
    (fun js2 =>
       (fst js2 =? job_posting_id p)
       && existsb (fun l => (fst l =? id) && (snd l =? snd js2))
                  (links job_posting_sectors s))
    (links job_posting_sectors s).

(** The WHERE clause of the related postings.  The handler passes the
    company name of the posting for the parameter of [j.company_id =
    ?]; [equals_text n t] is what the store answers when it compares
    the number [n] with the text [t]. *)
Definition related_where (equals_text : Z -> str -> bool) (companyName : str)
    (id : Z) (s : db) (p : job_posting) : bool :=
  (equals_text (company_id p) companyName || shares_sector id s p)
  && negb (job_posting_id p =? id).

Definition related_row (s : db) (p : job_posting) : related_job :=
  {| rj_job_posting_id := job_posting_id p;
     rj_title := title p;
     rj_company_name := company_name_of p s;
     rj_salary := salary p;
     rj_link := link p;
     rj_deadline := deadline p;
     rj_sectors :=
       group_concat comma_space
         (names (joined sectors job_posting_sectors None p s)) |}.

(** [... ORDER BY RAND() LIMIT 5]; [rand] gives the number drawn for
    each posting in this request. *)
Definition related_query (equals_text : Z -> str -> bool) (rand : Z -> Z)
    (companyName : str) (id : Z) (s : db) : list job_posting :=
  firstn 5
    (order_by (fun a b => rand (job_posting_id a) <=? rand (job_posting_id b))
       (filter (fun p => match company_of p s with
                         | Some _ => related_where equals_text companyName id s p
                         | None => false
                         end)
               (t_job_postings s))).

(** [job.map(j => j.x.split(', ')).flat()]; [None] when some [j.x] is
    [null], on which [split] raises. *)
Fixpoint split_each (sep : str) (l : list (option str)) : option (list str) :=
  match l with
  | [] => Some []
  | Some v :: r =>
    match split_each sep r with
    | Some t => Some (split_str sep v ++ t)
    | None => None
    end
  | None :: _ => None
  end.

(** [job[0].x ? job.map(j => j.x.split(', ')).flat() : []] *)
Definition split_rows (first : option str) (all : list (option str))
  : option (list str) :=
  if truthy_opt_str first then split_each comma_space all else Some [].

(** [id] is [None] when the path segment is not a number. *)
Definition job_detail (equals_text : Z -> str -> bool) (rand : Z -> Z)
    (s : db) (id : option Z) : db * response detail_data :=
  match id with
  | None => (s, error "유효하지 않은 공고 ID입니다." 400)
  | Some id =>
    match detail_rows id s with
    | [] => (s, error "해당 공고를 찾을 수 없습니다." 404)
    | job0 :: rest =>
      let job := job0 :: rest in
      let s' := update_posting add_view id s in
      let relatedJobs :=
        related_query equals_text rand (dr_company_name job0) id s' in
      match split_rows (dr_locations job0) (map dr_locations job),
            split_rows (dr_sectors job0) (map dr_sectors job) with
      | Some locationList, Some sectorList =>
        let detailJob :=
          {| dj_job_posting_id := job_posting_id (dr_posting job0);
             dj_title := title (dr_posting job0);
             dj_company_name := dr_company_name job0;
             dj_salary := salary (dr_posting job0);
             dj_link := link (dr_posting job0);
             dj_deadline := deadline (dr_posting job0);
             dj_locations := locationList;
             dj_sectors := sectorList;
             dj_employment_types :=
               split_or_empty comma_space (dr_employment_types job0) |} in
        let relatedJobsResult :=
          match relatedJobs with
          | _ :: _ => related_jobs (map (related_row s') relatedJobs)
          | [] => no_related_jobs "관련 추천 공고가 없습니다"
          end in
        (s', success "공고 상세 조회 성공"
               {| detailJob := detailJob;
                  relatedJobsResult := relatedJobsResult |} None false)
      | _, _ => (s', error "공고 상세 조회 실패" 500)
      end
    end
  end.

(** *** POST /jobs/create *)

(** [salary || '추후 협의'] *)
Definition salary_or_default (salary : option str) : str :=
  match salary with
  | Some v => if truthy_str v then v else js "추후 협의"
  | None => js "추후 협의"
  end.

(** The row of [INSERT INTO job_postings (user_id, company_id, title,
    link, link_hash, education_id, deadline, employment_type_id,
    salary) VALUES (?, LAST_INSERT_ID(), ?, ?, ?, LAST_INSERT_ID(), ?,
    LAST_INSERT_ID(), ?)]: the three references are read from
    [LAST_INSERT_ID()]; the other columns take their defaults. *)
Definition created_row (now id userId lastInsertId : Z)
    (title link linkHash deadline salary : str) : job_posting :=
  {| job_posting_id := id; user_id := Some userId;
     company_id := lastInsertId; title := title; link := link;
     link_hash := linkHash; education_id := Some lastInsertId;
     deadline := deadline; last_modified_date := None;
     salary := salary; employment_type_id := Some lastInsertId;
     views := 0; created_at := now |}.

(** Modelled from the spec: [executeTransaction] is missing; as in
    [executeTransaction] above the statements of the first list the
    handler queues run in order on one connection, all or nothing.
    The SELECT that looks for a posting of the same title and link
    changes nothing and its rows are not read; the three upserts set
    [LAST_INSERT_ID()] one after the other; the INSERT is refused
    when a posting has the link hash already (the uniqueness
    constraint of section 6 of the specification).  The result is the
    store and [results[results.length - 1]?.insertId]. *)
Definition create_transaction (now userId : Z)
    (companyName title link educationLevel deadline employmentType salary : str)
    (s : db) : option (db * Z) :=
  let s1 := with_table companies
              (fst (upsert_dim companyName (table companies s))) s in
  let s2 := with_table educations
              (fst (upsert_dim educationLevel (table educations s1))) s1 in
  let (t3, lastInsertId) := upsert_dim employmentType (table employment_types s2) in
  let s3 := with_table employment_types t3 s2 in
  let linkHash := Crypto.sha256_hex link in
  match postings_hashed linkHash s3 with
  | [] =>
    Some (with_job_postings
            (t_job_postings s3
             ++ [created_row now (job_postings_auto s3) userId lastInsertId
                   title link linkHash deadline salary])
            (job_postings_auto s3 + 1) s3,
          job_postings_auto s3)
  | _ :: _ => None
  end.

(** One turn of [for (const name of names) await
    executeTransaction([...])]: the label is upserted and linked to
    the posting; [false] when a transaction raised. *)
Fixpoint link_each (exec : list query -> db -> option db) (d : dim)
    (j : junction) (jobPostingId : Z) (names : list str) (s : db) : db * bool :=
  match names with
  | [] => (s, true)
  | name :: r =>
    match exec [Upsert d name; InsertLinkToLastInsertId j jobPostingId] s with
    | Some s' => link_each exec d j jobPostingId r s'
    | None => (s, false)
    end
  end.

(** The handler over any implementation [exec] of
    [executeTransaction] for the transactions of the two loops. *)
Definition create_job_with (exec : list query -> db -> option db) (now : Z)
    (s : db) (userId : Z) (body : update_request) : db * response Z :=
  match companyName body, u_title body, u_link body, educationLevel body,
        u_deadline body, locationNames body, sectorNames body,
        employmentType body with
  | Some companyName, Some title, Some link, Some educationLevel,
    Some deadline, Some locationNames, Some sectorNames, Some employmentType =>
    if negb (truthy_str companyName) || negb (truthy_str title)
       || negb (truthy_str link) || negb (truthy_str educationLevel)
       || negb (truthy_str deadline) || negb (truthy_str employmentType)
    then (s, error "모든 필수 필드를 입력해야 합니다." 400)
    else
      match create_transaction now userId companyName title link educationLevel
              deadline employmentType (salary_or_default (u_salary body)) s with
      | None => (s, error "채용 공고 등록 실패" 500)
      | Some (s1, jobPostingId) =>
        if negb (truthy_num jobPostingId)
        then (s1, error "job_posting_id를 가져올 수 없습니다." 400)
        else
          let (s2, ok2) := link_each exec locations job_posting_locations
                             jobPostingId locationNames s1 in
          if negb ok2 then (s2, error "채용 공고 등록 실패" 500) else
          let (s3, ok3) := link_each exec sectors job_posting_sectors
                             jobPostingId sectorNames s2 in
          if negb ok3 then (s3, error "채용 공고 등록 실패" 500) else
          (s3, success "채용 공고가 성공적으로 등록되었습니다." jobPostingId
                 None true)
      end
  | _, _, _, _, _, _, _, _ =>
    (s, error "모든 필수 필드를 입력해야 합니다." 400)
  end.

Definition create_job (now : Z) := create_job_with (executeTransaction []) now.

End JobsAPI.

(* ================================================================= *)
(** ** Control/bookmarksAPI.js *)

Module BookmarksAPI.

Definition PAGE_SIZE : Z := 20.

Definition bookmarks_of (userId jobPostingId : Z) (s : db) : list bookmark :=
  filter (fun b => (bm_user_id b =? userId) && (bm_job_posting_id b =? jobPostingId))
         (t_bookmarks s).

(** [DELETE FROM bookmarks WHERE user_id = ? AND job_posting_id = ?] *)
Definition delete_bookmarks (userId jobPostingId : Z) (s : db) : db :=
  with_bookmarks
    (filter (fun b => negb ((bm_user_id b =? userId)
                            && (bm_job_posting_id b =? jobPostingId)))
            (t_bookmarks s)) s.

(** Modelled from the spec: the schema is missing; by section 3 of
    the specification a bookmark is unique per (user, posting), so a
    second row for a pair is refused ([None]).  This is [INSERT INTO
    bookmarks (user_id, job_posting_id, created_at) VALUES (?, ?,
    NOW())]. *)
Definition insert_bookmark (now userId jobPostingId : Z) (s : db) : option db :=
  match bookmarks_of userId jobPostingId s with
  | [] =>
    Some (with_bookmarks
            (t_bookmarks s ++ [{| bm_user_id := userId;
                                  bm_job_posting_id := jobPostingId;
                                  bm_created_at := now |}]) s)
  | _ :: _ => None
  end.

(** POST /bookmarks; [jobPostingId] is [None] when the body has no
    such field. *)
Definition toggle_bookmark (now : Z) (s : db) (userId : Z)
    (jobPostingId : option Z) : db * response Z :=
  match jobPostingId with
  | None => (s, error "공고 ID를 제공해야 합니다." 400)
  | Some jobPostingId =>
    if negb (truthy_num jobPostingId)
    then (s, error "공고 ID를 제공해야 합니다." 400)
    else
      match bookmarks_of userId jobPostingId s with
      | _ :: _ =>
        (delete_bookmarks userId jobPostingId s,
         success "북마크가 제거되었습니다." jobPostingId None false)
      | [] =>
        match insert_bookmark now userId jobPostingId s with
        | Some s' => (s', success "북마크가 추가되었습니다." jobPostingId None true)
        | None => (s, error "북마크 처리 중 오류가 발생했습니다." 500)
        end
      end
  end.

(** [parseInt(req.query.page) || 1]: a missing parameter, one that is
    not a number, and 0 all give page 1. *)
Definition page_of (query_page : option str) : Z :=
  match query_page with
  | Some t =>
    match parseInt t with
    | Some v => if truthy_num v then v else 1
    | None => 1
    end
  | None => 1
  end.

Record bookmark_row := {
  br_job_posting_id : Z;
  br_created_at : Z;
  br_title : str;
  br_company_name : str;
  br_sectors : option str
}.

Definition comma_str : str := js ",".

(** The joins of the listing query for one bookmark. *)
Definition bookmark_rows (s : db) (b : bookmark) : list bookmark_row :=
  flat_map
    (fun p =>
       match company_of p s with
       | Some c =>
         [{| br_job_posting_id := job_posting_id p;
             br_created_at := bm_created_at b;
             br_title := title p;
             br_company_name := dim_name c;
             br_sectors :=
               group_concat comma_str
                 (names (joined sectors job_posting_sectors None p s)) |}]
       | None => []
       end)
    (find_posting (bm_job_posting_id b) s).

(** GET /bookmarks *)
Definition list_bookmarks (s : db) (userId : Z) (query_page : option str)
  : response (list bookmark_row) :=
  let page := page_of query_page in
  let offset := (page - 1) * PAGE_SIZE in
  if page <? 1 then error "부적절한 페이지 값" 400 else
  let mine := filter (fun b => bm_user_id b =? userId) (t_bookmarks s) in
  let bookmarks :=
    limit_offset PAGE_SIZE offset
      (order_by (fun a b => br_created_at b <=? br_created_at a)
                (flat_map (bookmark_rows s) mine)) in
  let totalCount := Z.of_nat (List.length mine) in
  if totalCount =? 0 then error "북마크 된 공고가 없습니다." 404 else
  let pagination :=
    {| currentPage := page; totalPages := ceil_div totalCount PAGE_SIZE;
       pageSize := PAGE_SIZE; totalItems := totalCount |} in
  if (totalPages pagination <? page) || (page <? 1)
  then error "부적절한 페이지 값" 400
  else success "북마크 목록 반환" bookmarks (Some pagination) false.

End BookmarksAPI.

(* ================================================================= *)
(** ** Control/applicationsAPI.js *)

Module ApplicationsAPI.

(** A row of the table [applications], with the columns the
    statements name. *)
Record application := {
  application_id : Z;
  app_user_id : Z;
  app_job_posting_id : Z;
  status : str;
  app_created_at : Z;
  app_updated_at : option Z
}.

(** The table: its rows in insertion order and the next
    AUTO_INCREMENT value. *)
Record applications := { app_rows : list application; app_auto : Z }.

Definition applying : str := js "지원 중".
Definition cancelled : str := js "취소됨".
Definition hired : str := js "채용 완료".
Definition rejected : str := js "탈락".

Definition set_status (v : str) (updated : option Z) (a : application)
  : application :=
  {| application_id := application_id a; app_user_id := app_user_id a;
     app_job_posting_id := app_job_posting_id a; status := v;
     app_created_at := app_created_at a; app_updated_at := updated |}.

(** [UPDATE applications SET ... WHERE application_id = ?] *)
Definition update_application (f : application -> application) (id : Z)
    (t : applications) : applications :=
  {| app_rows := map (fun a => if application_id a =? id then f a else a)
                     (app_rows t);
     app_auto := app_auto t |}.

(** [SELECT * FROM applications WHERE user_id = ? AND job_posting_id = ?] *)
Definition applications_of (userId jobPostingId : Z) (t : applications)
  : list application :=
  filter (fun a => (app_user_id a =? userId)
                   && (app_job_posting_id a =? jobPostingId))
         (app_rows t).

(** What the handlers answer about one application. *)
Record applied := {
  applicationId : Z;
  ap_jobPostingId : Z;
  ap_status : str
}.

(** POST /applications; [jobPostingId] is [None] when the body has no
    such field. *)
Definition apply (now : Z) (t : applications) (userId : Z)
    (jobPostingId : option Z) : applications * response applied :=
  match jobPostingId with
  | None => (t, error "공고 ID를 입력하세요." 400)
  | Some jobPostingId =>
    if negb (truthy_num jobPostingId)
    then (t, error "공고 ID를 입력하세요." 400)
    else
      match applications_of userId jobPostingId t with
      | existingApplication :: _ =>
        if str_eqb (status existingApplication) cancelled
        then
          (update_application
             (fun a => set_status applying (Some now) a)
             (application_id existingApplication) t,
           success "취소된 지원이 다시 활성화되었습니다."
             {| applicationId := application_id existingApplication;
                ap_jobPostingId := jobPostingId;
                ap_status := applying |} None false)
        else (t, error "이미 지원한 공고입니다." 400)
      | [] =>
        ({| app_rows :=
              app_rows t
              ++ [{| application_id := app_auto t; app_user_id := userId;
                     app_job_posting_id := jobPostingId; status := applying;
                     app_created_at := now; app_updated_at := None |}];
            app_auto := app_auto t + 1 |},
         success "지원이 완료되었습니다."
           {| applicationId := app_auto t;
              ap_jobPostingId := jobPostingId;
              ap_status := applying |} None true)
      end
  end.

(** [SELECT * FROM applications WHERE application_id = ? AND user_id = ?] *)
Definition own_application (id userId : Z) (t : applications)
  : list application :=
  filter (fun a => (application_id a =? id) && (app_user_id a =? userId))
         (app_rows t).

(** DELETE /applications/:id; [id] is the number the store reads from
    the path segment. *)
Definition deleteApplication (t : applications) (id userId : Z)
  : applications * response Z :=
  match own_application id userId t with
  | [] => (t, error "해당 지원 내역을 찾을 수 없습니다." 404)
  | application0 :: _ =>
    if negb (str_eqb (status application0) applying)
    then (t, error "지원 중 상태가 아닙니다." 400)
    else
      (update_application
         (fun a => set_status cancelled (app_updated_at a) a) id t,
       success "지원이 취소되었습니다." id None false)
  end.

(** *** GET /applications *)

(** [['지원 중', '취소됨', '채용 완료', '탈락'].includes(status)] *)
Definition known_status (v : str) : bool :=
  existsb (str_eqb v) [applying; cancelled; hired; rejected].

(** [sortByDate.toLowerCase() === 'desc'], the letters of [desc]
    being the lower case of themselves and of their capitals only. *)
Definition lower_ascii (c : N) : N :=
  if ((65 <=? c) && (c <=? 90))%N then (c + 32)%N else c.

Definition is_desc (sortByDate : str) : bool :=
  str_eqb (map lower_ascii sortByDate) (js "desc").

(** [(!sortByDate || sortByDate.toLowerCase() === 'desc') ? 'DESC' : 'ASC'] *)
Definition descending_order (sortByDate : option str) : bool :=
  match sortByDate with
  | Some v => negb (truthy_str v) || is_desc v
  | None => true
  end.

Record application_row := {
  ar_application_id : Z;
  ar_status : str;
  ar_created_at : Z;
  ar_user_name : str;
  ar_title : str;
  ar_company_name : str;
  ar_sectors : option str
}.

(** The joins of the listing query for one application. *)
Definition application_rows (s : db) (a : application) : list application_row :=
  flat_map
    (fun u =>
       flat_map
         (fun p =>
            match company_of p s with
            | Some c =>
              [{| ar_application_id := application_id a;
                  ar_status := status a;
                  ar_created_at := app_created_at a;
                  ar_user_name := usr_name u;
                  ar_title := title p;
                  ar_company_name := dim_name c;
                  ar_sectors :=
                    group_concat JobsAPI.comma_str
                      (names (joined sectors job_posting_sectors None p s)) |}]
            | None => []
            end)
         (find_posting (app_job_posting_id a) s))
    (filter (fun u => usr_id u =? app_user_id a) (t_users s)).

Record application_list := {
  totalCount : Z;
  applications_listed : list application_row
}.

(** The query parameters are [status] and [sortByDate]. *)
Definition list_applications (s : db) (t : applications) (userId : Z)
    (status_filter sortByDate : option str) : response application_list :=
  let filtering :=
    match status_filter with
    | Some v => if truthy_str v then Some v else None
    | None => None
    end in
  if match filtering with Some v => negb (known_status v) | None => false end
  then error "유효하지 않은 지원 상태입니다." 400
  else
    let applications :=
      order_by
        (fun a b => if descending_order sortByDate
                    then ar_created_at b <=? ar_created_at a
                    else ar_created_at a <=? ar_created_at b)
        (flat_map (application_rows s)
           (filter
              (fun a => (app_user_id a =? userId)
                        && match filtering with
                           | Some v => str_eqb (status a) v
                           | None => true
                           end)
              (app_rows t))) in
    let totalCount := Z.of_nat (List.length applications) in
    if totalCount =? 0 then error "부합하는 지원 내역이 없습니다." 404
    else success "지원 내역을 반환합니다."
           {| totalCount := totalCount; applications_listed := applications |}
           None false.

End ApplicationsAPI.

(* ================================================================= *)
(** ** Control/recommendationsAPI.js *)

Module RecommendationsAPI.

Definition PAGE_SIZE : Z := 20.

Record rec_row := {
  rr_job_posting_id : Z;
  rr_title : str;
  rr_company_name : str;
  rr_salary : str;
  rr_link : str;
  rr_deadline : str;
  rr_views : Z;
  rr_locations : list str;
  rr_sectors : list str;
  rr_employment_types : list str
}.

Definition comma_space : str := js ", ".

Definition listed (d : dim) (j : junction) (p : job_posting) (s : db) : list str :=
  JobsAPI.split_or_empty comma_space
    (group_concat comma_space (names (joined d j None p s))).

Definition format_row (s : db) (p : job_posting) : rec_row :=
  {| rr_job_posting_id := job_posting_id p;
     rr_title := title p;
     rr_company_name := JobsAPI.company_name_of p s;
     rr_salary := salary p;
     rr_link := link p;
     rr_deadline := deadline p;
     rr_views := views p;
     rr_locations := listed locations job_posting_locations p s;
     rr_sectors := listed sectors job_posting_sectors p s;
     rr_employment_types :=
       listed employment_types job_posting_employment_types p s |}.

(** [JOIN companies c ON j.company_id = c.company_id] *)
Definition has_company (s : db) (p : job_posting) : bool :=
  match company_of p s with Some _ => true | None => false end.

(** *** GET /recommendations/popular *)

(** [WHERE j.views > 0] *)
Definition viewed (p : job_posting) : bool := 0 <? views p.

(** [ORDER BY j.views DESC, RAND()]; [rand] gives the number drawn
    for each posting in this request. *)
Definition popular_order (rand : Z -> Z) (a b : job_posting) : bool :=
  (views b <? views a)
  || (views a =? views b) && (rand (job_posting_id a) <=? rand (job_posting_id b)).

Definition popular_query (rand : Z -> Z) (s : db) : list job_posting :=
  order_by (popular_order rand)
    (filter (fun p => has_company s p && viewed p) (t_job_postings s)).

Definition popular_jobs (rand : Z -> Z) (s : db) (query_page : option str)
  : response (list rec_row) :=
  let page := BookmarksAPI.page_of query_page in
  let offset := (page - 1) * PAGE_SIZE in
  if page <? 1 then error "부적절한 페이지 값" 400 else
  let topJobs := limit_offset PAGE_SIZE offset (popular_query rand s) in
  let formattedRows := map (format_row s) topJobs in
  let totalItems := Z.of_nat (List.length topJobs) in
  if totalItems =? 0 then error "불러온 공고가 없습니다." 404 else
  let pagination :=
    {| currentPage := page; totalPages := ceil_div totalItems PAGE_SIZE;
       pageSize := PAGE_SIZE; totalItems := totalItems |} in
  if (totalPages pagination <? page) || (page <? 1)
  then error "부적절한 페이지 값" 400
  else success "인기 공고 조회 성공" formattedRows (Some pagination) false.

(** *** GET /recommendations/pay *)

(** The unit suffix 만원 (10,000 won). *)
Definition manwon : str := js "만원".

(** [REPLACE(REPLACE(j.salary, ',', ''), '만원', '')] *)
Definition stripped (salary : str) : str :=
  remove_all manwon (remove_all [InsertData.comma] salary).

(** [CAST(REPLACE(REPLACE(j.salary, ',', ''), '만원', '') AS UNSIGNED)] *)
Definition salary_number (salary : str) : Z := cast_unsigned (stripped salary).

(** The WHERE clause:
    [j.salary LIKE '%만원' AND LENGTH(REPLACE(...)) > 0
     AND CAST(REPLACE(...) AS UNSIGNED) >= 1000] *)
Definition salary_qualifies (salary : str) : bool :=
  like ([percent] ++ manwon) salary
  && (0 <? Z.of_nat (List.length (stripped salary)))
  && (1000 <=? salary_number salary).

Definition pay_where (p : job_posting) : bool := salary_qualifies (salary p).

(** [ORDER BY CAST(...) DESC] *)
Definition pay_order (a b : job_posting) : bool :=
  salary_number (salary b) <=? salary_number (salary a).

Definition pay_query (s : db) : list job_posting :=
  order_by pay_order
    (filter (fun p => has_company s p && pay_where p) (t_job_postings s)).

Definition getPayJobs (s : db) (query_page : option str) : response (list rec_row) :=
  let page := BookmarksAPI.page_of query_page in
  let offset := (page - 1) * PAGE_SIZE in
  if page <? 1 then error "부적절한 페이지 값" 400 else
  let payJobs := limit_offset PAGE_SIZE offset (pay_query s) in
  let totalItems := Z.of_nat (List.length (filter pay_where (t_job_postings s))) in
  let formattedRows := map (format_row s) payJobs in
  let pagination :=
    {| currentPage := page; totalPages := ceil_div totalItems PAGE_SIZE;
       pageSize := PAGE_SIZE; totalItems := totalItems |} in
  if (totalPages pagination <? page) || (page <? 1)
  then error "부적절한 페이지 값" 400
  else success "급여 순 공고 조회 성공" formattedRows (Some pagination) false.

(** *** GET /recommendations *)

(** [SELECT job_posting_id FROM bookmarks WHERE user_id = ? UNION
    SELECT job_posting_id FROM applications WHERE user_id = ?] *)
Definition bookmarked_or_applied (s : db) (apps : ApplicationsAPI.applications)
    (userId : Z) (jobPostingId : Z) : bool :=
  existsb (fun b => (bm_user_id b =? userId)
                    && (bm_job_posting_id b =? jobPostingId)) (t_bookmarks s)
  || existsb (fun a => (ApplicationsAPI.app_user_id a =? userId)
                       && (ApplicationsAPI.app_job_posting_id a =? jobPostingId))
             (ApplicationsAPI.app_rows apps).

(** [SELECT job_posting_id FROM applications WHERE user_id = ?] *)
Definition applied (apps : ApplicationsAPI.applications) (userId : Z)
    (jobPostingId : Z) : bool :=
  existsb (fun a => (ApplicationsAPI.app_user_id a =? userId)
                    && (ApplicationsAPI.app_job_posting_id a =? jobPostingId))
          (ApplicationsAPI.app_rows apps).

Definition posting_exists (s : db) (jobPostingId : Z) : bool :=
  existsb (fun p => job_posting_id p =? jobPostingId) (t_job_postings s).

(** [SELECT DISTINCT js.sector_id FROM job_postings jp JOIN
    job_posting_sectors js ... WHERE jp.job_posting_id IN (...)]:
    the sectors of the postings the user bookmarked or applied to. *)
Definition user_sectors (s : db) (apps : ApplicationsAPI.applications)
    (userId : Z) : list Z :=
  nodup Z.eq_dec
    (map snd
       (filter (fun js => posting_exists s (fst js)
                          && bookmarked_or_applied s apps userId (fst js))
               (links job_posting_sectors s))).

(** [JOIN job_posting_sectors js ... WHERE js.sector_id IN (?) AND
    jp.job_posting_id NOT IN (SELECT job_posting_id FROM applications
    WHERE user_id = ?)], for one posting. *)
Definition recommended_where (s : db) (apps : ApplicationsAPI.applications)
    (userId : Z) (sectorIds : list Z) (p : job_posting) : bool :=
  existsb (fun js => (fst js =? job_posting_id p)
                     && existsb (Z.eqb (snd js)) sectorIds)
          (links job_posting_sectors s)
  && negb (applied apps userId (job_posting_id p)).

(** The sectors of the data query for one posting: [JOIN
    job_posting_sectors js ... JOIN sectors s ...] under [WHERE
    js.sector_id IN (?)]. *)
Definition preferred_sectors (s : db) (sectorIds : list Z) (p : job_posting)
  : list dim_row :=
  filter (fun r => existsb (Z.eqb (dim_id r)) sectorIds)
         (joined sectors job_posting_sectors None p s).

(** A row of the answer; [views: row.views] is [undefined], the query
    not selecting the column, and leaves no field. *)
Record recommended_row := {
  rc_job_posting_id : Z;
  rc_title : str;
  rc_company_name : str;
  rc_salary : str;
  rc_link : str;
  rc_deadline : str;
  rc_locations : list str;
  rc_sectors : list str;
  rc_employment_types : list str
}.

Definition recommended_row_of (s : db) (sectorIds : list Z) (p : job_posting)
  : recommended_row :=
  {| rc_job_posting_id := job_posting_id p;
     rc_title := title p;
     rc_company_name := JobsAPI.company_name_of p s;
     rc_salary := salary p;
     rc_link := link p;
     rc_deadline := deadline p;
     rc_locations := listed locations job_posting_locations p s;
     rc_sectors :=
       JobsAPI.split_or_empty comma_space
         (group_concat comma_space (names (preferred_sectors s sectorIds p)));
     rc_employment_types :=
       listed employment_types job_posting_employment_types p s |}.

(** The postings of the data query, which joins the company and the
    sector rows as well.  It has no ORDER BY; the rows are taken in
    the order of the table. *)
Definition recommended_query (s : db) (apps : ApplicationsAPI.applications)
    (userId : Z) (sectorIds : list Z) : list job_posting :=
  filter (fun p => has_company s p
                   && recommended_where s apps userId sectorIds p
                   && match preferred_sectors s sectorIds p with
                      | [] => false
                      | _ :: _ => true
                      end)
         (t_job_postings s).

Definition recommendations (s : db) (apps : ApplicationsAPI.applications)
    (userId : Z) (query_page : option str) : response (list recommended_row) :=
  let page := BookmarksAPI.page_of query_page in
  let offset := (page - 1) * PAGE_SIZE in
  if page <? 1 then error "부적절한 페이지 값" 400 else
  match user_sectors s apps userId with
  | [] => error "북마크 및 지원란이 비어있습니다." 422
  | sectorIds =>
    let totalItems :=
      Z.of_nat (List.length
                  (filter (recommended_where s apps userId sectorIds)
                          (t_job_postings s))) in
    if totalItems =? 0 then error "추천할 공고가 없습니다." 404 else
    let recommendedJobs :=
      limit_offset PAGE_SIZE offset (recommended_query s apps userId sectorIds) in
    let formattedRows := map (recommended_row_of s sectorIds) recommendedJobs in
    let pagination :=
      {| currentPage := page; totalPages := ceil_div totalItems PAGE_SIZE;
         pageSize := PAGE_SIZE; totalItems := totalItems |} in
    if (totalPages pagination <? page) || (page <? 1)
    then error "부적절한 페이지 값" 400
    else success "추천 공고 조회 성공" formattedRows (Some pagination) false
  end.

End RecommendationsAPI.

(* ================================================================= *)
(** ** Regular expressions of the handlers, matched on whole strings *)

Module Regex.

Inductive re :=
| Nothing
| Eps
| Class (p : N -> bool)
| Cat (a b : re)
| Alt (a b : re)
| Star (a : re).

(** [a+] *)
Definition Plus (a : re) : re := Cat a (Star a).

Fixpoint nullable (r : re) : bool :=
  match r with
  | Nothing => false
  | Eps => true
  | Class _ => false
  | Cat a b => nullable a && nullable b
  | Alt a b => nullable a || nullable b
  | Star _ => true
  end.

(** The derivative of [r] by the character [c]. *)
Fixpoint deriv (c : N) (r : re) : re :=
  match r with
  | Nothing => Nothing
  | Eps => Nothing
  | Class p => if p c then Eps else Nothing
  | Cat a b =>
    if nullable a then Alt (Cat (deriv c a) b) (deriv c b)
    else Cat (deriv c a) b
  | Alt a b => Alt (deriv c a) (deriv c b)
  | Star a => Cat (deriv c a) (Star a)
  end.

(** [/^r$/.test(s)] *)
Definition test (r : re) (s : str) : bool :=
  nullable (fold_left (fun r c => deriv c r) s r).

End Regex.

(* ================================================================= *)
(** ** Control/authAPI.js: registration *)

Module AuthAPI.

Import Regex.

Definition at_sign : N := 64.
Definition dot : N := 46.

(** [[^\s@]] *)
Definition not_space_or_at (c : N) : bool :=
  negb (is_whitespace c || (c =? at_sign)%N).

(** [/^[^\s@]+@[^\s@]+\.[^\s@]+$/] *)
Definition emailRegex : re :=
  Cat (Plus (Class not_space_or_at))
      (Cat (Class (fun c => (c =? at_sign)%N))
           (Cat (Plus (Class not_space_or_at))
                (Cat (Class (fun c => (c =? dot)%N))
                     (Plus (Class not_space_or_at))))).

Definition is_alnum (c : N) : bool :=
  ((97 <=? c) && (c <=? 122) || (65 <=? c) && (c <=? 90)
   || (48 <=? c) && (c <=? 57))%N.

(** [/^[a-zA-Z가-힣0-9]+$/] *)
Definition nameRegex : re :=
  Plus (Class (fun c => is_alnum c || (44032 <=? c)%N && (c <=? 55203)%N)).

(** [/^[a-zA-Z0-9!@]+$/] *)
Definition passwordRegex : re :=
  Plus (Class (fun c => is_alnum c || (c =? 33)%N || (c =? at_sign)%N)).

(** [Buffer.from(password).toString('base64')] *)
Definition base64_char (n : Z) : N :=
  if n <? 26 then Z.to_N (65 + n)
  else if n <? 52 then Z.to_N (71 + n)
  else if n <? 62 then Z.to_N (n - 4)
  else if n =? 62 then 43%N else 47%N.

Definition equals_sign : N := 61.

Fixpoint base64_bytes (bytes : list Z) : str :=
  match bytes with
  | [] => []
  | [a] =>
    [base64_char (a / 4); base64_char (a mod 4 * 16); equals_sign; equals_sign]
  | [a; b] =>
    [base64_char (a / 4); base64_char (a mod 4 * 16 + b / 16);
     base64_char (b mod 16 * 4); equals_sign]
  | a :: b :: c :: r =>
    [base64_char (a / 4); base64_char (a mod 4 * 16 + b / 16);
     base64_char (b mod 16 * 4 + c / 64); base64_char (c mod 64)]
    ++ base64_bytes r
  end.

Definition base64 (s : str) : str :=
  base64_bytes (map Z.of_N (utf8_encode s)).

Record register_request := {
  email : option str;
  password : option str;
  name : option str
}.

Definition example_email : str := js "user@example.com".

Definition users_with_email (email : str) (s : db) : list user :=
  filter (fun u => str_eqb (usr_email u) email) (t_users s).

(** POST /auth/register *)
Definition register (s : db) (req : register_request) : db * response str :=
  match email req, password req, name req with
  | Some email, Some password, Some name =>
    if negb (truthy_str email) || negb (truthy_str password)
       || negb (truthy_str name)
    then (s, error "모든 필드를 입력하세요." 400)
    else if negb (test emailRegex email) || str_eqb email example_email
    then (s, error "유효하지 않은 이메일 형식입니다." 400)
    else if negb (test nameRegex name)
    then (s, error "이름은 한글, 영어, 숫자만 입력 가능합니다." 400)
    else if negb (test passwordRegex password)
    then (s, error "비밀번호는 영어, 숫자, !, @만 포함할 수 있습니다." 400)
    else
      let hashedPassword := base64 password in
      match users_with_email email s with
      | _ :: _ => (s, error "이미 등록된 이메일입니다." 409)
      | [] =>
        (with_users
           (t_users s ++ [{| usr_id := users_auto s; usr_email := email;
                             usr_password := hashedPassword; usr_name := name |}])
           (users_auto s + 1) s,
         success "회원 가입 성공" email None true)
      end
  | _, _, _ => (s, error "모든 필드를 입력하세요." 400)
  end.

(** *** Tokens

    [jsonwebtoken] and the secret of [Utils/config.js] are not among
    the sources: the handlers are given [sign secret userId expiresIn]
    for [jwt.sign({ userId }, secret, { expiresIn })] and [verify
    secret token] for [jwt.verify(token, secret)], which answers the
    [userId] of the token or raises ([None]). *)

Inductive secret := SECRET_KEY | REFRESH_SECRET_KEY.

Record tokens := { accessToken : str; refreshToken : str }.

Record login_request := {
  l_email : option str;
  l_password : option str
}.

(** A row of [login_history]: (user_id, login_time). *)
Definition login_history := list (Z * Z).

(** POST /auth/login *)
Definition login (sign : secret -> Z -> str -> str) (now : Z) (s : db)
    (history : login_history) (req : login_request)
  : login_history * response tokens :=
  match l_email req, l_password req with
  | Some email, Some password =>
    if negb (truthy_str email) || negb (truthy_str password)
    then (history, error "이메일과 비밀번호를 입력하세요." 400)
    else
      let hashedPassword := base64 password in
      match users_with_email email s with
      | [] => (history, error "이메일 또는 비밀번호가 잘못되었습니다." 401)
      | row0 :: _ =>
        if negb (str_eqb (usr_password row0) hashedPassword)
        then (history, error "이메일 또는 비밀번호가 잘못되었습니다." 401)
        else
          let userId := usr_id row0 in
          (history ++ [(userId, now)],
           success "로그인 성공"
             {| accessToken := sign SECRET_KEY userId (js "1h");
                refreshToken := sign REFRESH_SECRET_KEY userId (js "7d") |}
             None false)
      end
  | _, _ => (history, error "이메일과 비밀번호를 입력하세요." 400)
  end.

(** [req.headers.authorization?.split(' ')[1]] *)
Definition bearer_token (authorization : option str) : option str :=
  match authorization with
  | Some v => nth_error (JobsAPI.split_str [32%N] v) 1
  | None => None
  end.

(** What was changed, as the handler reports it. *)
Record changed := {
  ch_email : option str;
  ch_name : option str;
  ch_password : option str
}.

Definition when_truthy (o : option str) : option str :=
  match o with
  | Some v => if truthy_str v then Some v else None
  | None => None
  end.

(** [x = COALESCE(?, x)] *)
Definition coalesce (o : option str) (v : str) : str :=
  match o with Some w => w | None => v end.

(** [UPDATE users SET password = COALESCE(?, password), name =
    COALESCE(?, name), email = COALESCE(?, email) WHERE user_id = ?] *)
Definition update_user (password name email : option str) (userId : Z) (s : db)
  : db :=
  with_users
    (map (fun u => if usr_id u =? userId
                   then {| usr_id := usr_id u;
                           usr_email := coalesce email (usr_email u);
                           usr_password := coalesce password (usr_password u);
                           usr_name := coalesce name (usr_name u) |}
                   else u)
         (t_users s))
    (users_auto s) s.

(** ['*'.repeat(password.length)] *)
Definition mask (password : str) : str := repeat 42%N (List.length password).

(** PUT /auth/modify *)
Definition modify (verify : secret -> str -> option Z) (s : db)
    (authorization : option str) (req : register_request)
  : db * response changed :=
  match when_truthy (bearer_token authorization) with
  | None => (s, error "권한이 없습니다." 403)
  | Some token =>
    match verify SECRET_KEY token with
    | None => (s, error "회원 정보 수정 실패" 500)
    | Some userId =>
      let email := when_truthy (email req) in
      let name := when_truthy (name req) in
      let password := when_truthy (password req) in
      if match email with
         | Some e => match users_with_email e s with
                     | _ :: _ => true
                     | [] => false
                     end
         | None => false
         end
      then (s, error "이미 사용 중인 이메일입니다." 409)
      else if match email with
              | Some e => negb (test emailRegex e)
              | None => false
              end
      then (s, error "유효하지 않은 이메일 형식입니다." 400)
      else if match name with
              | Some n => negb (test nameRegex n)
              | None => false
              end
      then (s, error "이름은 한글, 영어, 숫자만 입력 가능합니다." 400)
      else if match password with
              | Some p => negb (test passwordRegex p)
              | None => false
              end
      then (s, error "비밀번호는 영어, 숫자, !, @만 포함할 수 있습니다." 400)
      else
        (update_user (when_truthy (option_map base64 password)) name email
           userId s,
         success "회원 정보 수정 성공"
           {| ch_email := email; ch_name := name;
              ch_password := option_map mask password |} None false)
    end
  end.

(** The columns [user_id, email, name] of a user. *)
Record profile_data := {
  pf_user_id : Z;
  pf_email : str;
  pf_name : str
}.

(** GET /auth/profile *)
Definition profile (verify : secret -> str -> option Z) (s : db)
    (authorization : option str) : response profile_data :=
  match when_truthy (bearer_token authorization) with
  | None => error "권한이 없습니다." 403
  | Some token =>
    match verify SECRET_KEY token with
    | None => error "회원 정보 조회 실패" 500
    | Some userId =>
      match filter (fun u => usr_id u =? userId) (t_users s) with
      | [] => error "사용자를 찾을 수 없습니다." 404
      | user :: _ =>
        success "회원 정보 조회 성공"
          {| pf_user_id := usr_id user; pf_email := usr_email user;
             pf_name := usr_name user |} None false
      end
    end
  end.

(** DELETE /auth/delete *)
Definition delete_account (verify : secret -> str -> option Z) (s : db)
    (authorization : option str) : db * response unit :=
  match when_truthy (bearer_token authorization) with
  | None => (s, error "권한이 없습니다." 403)
  | Some token =>
    match verify SECRET_KEY token with
    | None => (s, error "회원 탈퇴 실패" 500)
    | Some userId =>
      match filter (fun u => usr_id u =? userId) (t_users s) with
      | [] => (s, error "해당 사용자를 찾을 수 없습니다." 404)
      | _ :: _ =>
        (with_users (filter (fun u => negb (usr_id u =? userId)) (t_users s))
           (users_auto s) s,
         success "회원 탈퇴가 완료되었습니다." tt None false)
      end
    end
  end.

End AuthAPI.

(* ================================================================= *)
(** * Properties

    The vocabulary of the statements comes first, then the lemmas and
    theorems, grouped by the part of the code they are about. *)

(** ** Vocabulary *)

(** *** Field parsers *)

(** The value of two decimal digits. *)
Definition two_digits (a b : N) : Z := 10 * (Z.of_N a - 48) + (Z.of_N b - 48).

(** The text of a date marker, as the pattern describes it: one of the
    two words, white space, and YY/MM/DD; [y], [mo] and [d] are the
    numbers it spells. *)
Definition date_marker (m : str) (y mo d : Z) : Prop :=
  exists w ws y1 y2 m1 m2 d1 d2,
    (w = word_modified \/ w = word_posted)
    /\ Forall (fun c => is_whitespace c = true) ws
    /\ is_digit y1 = true /\ is_digit y2 = true
    /\ is_digit m1 = true /\ is_digit m2 = true
    /\ is_digit d1 = true /\ is_digit d2 = true
    /\ m = w ++ ws ++ [y1; y2; slash; m1; m2; slash; d1; d2]
    /\ y = two_digits y1 y2 /\ mo = two_digits m1 m2 /\ d = two_digits d1 d2.

(** No marker starts before the end of [pre] in [s]. *)
Definition leftmost (pre s : str) : Prop :=
  forall pre' m' post' y' mo' d',
    s = pre' ++ m' ++ post' -> date_marker m' y' mo' d' ->
    (List.length pre <= List.length pre')%nat.

(** *** Tokens of a delimited text *)

(** [pieces] are the texts between the separators of [s], from left
    to right: none holds a separator, and [s] is the pieces with one
    separator between each two neighbours. *)
Inductive pieces_of (sep : N -> bool) : str -> list str -> Prop :=
| pieces_last (p : str) :
    Forall (fun c => sep c = false) p -> pieces_of sep p [p]
| pieces_more (p : str) (c : N) (s : str) (rest : list str) :
    Forall (fun c => sep c = false) p -> sep c = true ->
    pieces_of sep s rest -> pieces_of sep (p ++ c :: s) (p :: rest).

(** The text starts with no white space. *)
Definition tight_start (t : str) : Prop :=
  match t with c :: _ => is_whitespace c = false | [] => True end.

(** [t] is [p] without the white space at its two ends. *)
Definition trimmed (p t : str) : Prop :=
  exists l r, p = l ++ t ++ r
              /\ Forall (fun c => is_whitespace c = true) l
              /\ Forall (fun c => is_whitespace c = true) r
              /\ tight_start t /\ tight_start (rev t).

(** The list without its empty texts, in the same order. *)
Fixpoint non_empty (l : list str) : list str :=
  match l with
  | [] => []
  | [] :: r => non_empty r
  | t :: r => t :: non_empty r
  end.

(** The tokens of a field: its pieces, each trimmed, the empty ones
    left out, in the order of the field. *)
Definition tokens_of (sep : N -> bool) (s : str) (tokens : list str) : Prop :=
  exists pieces trims,
    pieces_of sep s pieces /\ Forall2 trimmed pieces trims
    /\ tokens = non_empty trims.

(** *** The store *)

(** The invariants the schema maintains on a dimension table: a name
    occurs at most once, and ids start from 1. *)
Record wf_dim (t : dim_table) : Prop := {
  wf_unique : forall name, (List.length (rows_named name t) <= 1)%nat;
  wf_ids : forall r, In r (dim_rows t) -> dim_id r <> 0;
  wf_auto : 0 < dim_auto t
}.

Definition wf_dims (s : db) : Prop := forall d, wf_dim (table d s).

(** Posting ids start from 1 and stay below the AUTO_INCREMENT counter. *)
Definition wf_postings (s : db) : Prop :=
  0 < job_postings_auto s
  /\ forall p, In p (t_job_postings s) ->
       0 < job_posting_id p < job_postings_auto s.

Definition wf (s : db) : Prop := wf_dims s /\ wf_postings s.

(** The id a label has in a dimension table. *)
Definition id_of (d : dim) (name : str) (s : db) : option Z :=
  first_id (rows_named name (table d s)).

(** What the employment type block of the ingestion loop does to a
    posting row, [s'] being the store it leaves. *)
Definition employment_update (name : str) (s' : db) (q : job_posting)
  : job_posting :=
  if truthy_str name
  then set_employment_type_id (id_of employment_types name s') q
  else q.

(** [s'] differs from [s] at most in the dimension table [d] and in
    the junction tables; the rows of [d] stay. *)
Definition only_dim (d : dim) (s s' : db) : Prop :=
  t_job_postings s' = t_job_postings s
  /\ job_postings_auto s' = job_postings_auto s
  /\ (forall d', d' <> d -> table d' s' = table d' s)
  /\ (forall name r, rows_named name (table d s) = [r] ->
                     rows_named name (table d s') = [r])
  /\ (wf_dims s -> wf_dims s').

(** The row [INSERT IGNORE INTO job_postings] writes for a record. *)
Definition inserted_row (now : Z) (r : record) (id companyId : Z)
    (educationId : option Z) : job_posting :=
  {| job_posting_id := id; user_id := batch_owner; company_id := companyId;
     title := r_title r; link := r_link r;
     link_hash := Crypto.sha256_hex (r_link r);
     education_id := educationId; deadline := r_deadline r;
     last_modified_date := snd (parseSectorsAndModifiedDate (r_sector r));
     salary := r_salary r; employment_type_id := None; views := 0;
     created_at := now |}.

(** The label [name] has one row in the dimension table [d], and the
    junction table [j] links that row to the posting [pid]. *)
Definition linked (d : dim) (j : junction) (pid : Z) (name : str) (s : db)
  : Prop :=
  exists r, rows_named name (table d s) = [r] /\ In (pid, dim_id r) (links j s).

(** A label that has one row in [s] has the same row in [s']. *)
Definition keeps_rows (s s' : db) : Prop :=
  forall d name r, rows_named name (table d s) = [r] ->
                   rows_named name (table d s') = [r].

(** The junction rows of [s] are in [s']. *)
Definition keeps_links (s s' : db) : Prop :=
  forall j l, In l (links j s) -> In l (links j s').

(** *** Listings *)

(** The answer to a page that is out of range. *)
Definition invalid_page {D} : response D := error "부적절한 페이지 값" 400.

(** How many postings a listing request matches. *)
Definition matching_total (s : db) (req : JobsAPI.list_request) : Z :=
  Z.of_nat (List.length (filter (JobsAPI.matches req s) (t_job_postings s))).

(** How many bookmarks a user has. *)
Definition bookmark_total (s : db) (userId : Z) : Z :=
  Z.of_nat (List.length (filter (fun b => bm_user_id b =? userId) (t_bookmarks s))).

(** How many postings qualify for the listing by pay. *)
Definition pay_total (s : db) : Z :=
  Z.of_nat (List.length (filter RecommendationsAPI.pay_where (t_job_postings s))).

Definition page_block (page total : Z) : pagination :=
  {| currentPage := page; totalPages := ceil_div total 20;
     pageSize := 20; totalItems := total |}.

(** A list of numbers in which none is followed by a larger one. *)
Definition descending (l : list Z) : Prop := StronglySorted Z.ge l.


(** Every posting is joined to its company. *)
Definition companies_present (s : db) : Prop :=
  forall p, In p (t_job_postings s) -> RecommendationsAPI.has_company s p = true.


(** *** Bookmarks and registration *)

(** The toggle called once per element of [nows] (the clock at each
    call) by the same user on the same posting. *)
Definition toggle_all (nows : list Z) (s : db) (userId jobPostingId : Z) : db :=
  fold_left
    (fun s now =>
       fst (BookmarksAPI.toggle_bookmark now s userId (Some jobPostingId)))
    nows s.

Definition invalid_email_format : response str :=
  error "유효하지 않은 이메일 형식입니다." 400.

(** The email test of the registration handler, negated: the address
    has the format and is not the example address. *)
Definition email_accepted (email : str) : bool :=
  negb (negb (Regex.test AuthAPI.emailRegex email)
        || str_eqb email AuthAPI.example_email).

(** *** Sample data *)

Definition sample_record : record :=
  {| r_company := js "가나다소프트";
     r_title := js "백엔드 개발자";
     r_link := js "https://www.saramin.co.kr/zf_user/jobs/relay/view?rec_idx=1";
     r_education := js "대졸";
     r_deadline := js "~ 12/31(화)";
     r_sector := js "백엔드, 서버개발 수정일 24/03/15";
     r_salary := js "5,000 만원";
     r_experience := js "신입 · 경력";
     r_location := js "서울 강남구";
     r_employment := js "정규직" |}.

(** The same link scraped again, every other field different. *)
Definition sample_again : record :=
  {| r_company := js "라마바시스템";
     r_title := js "서버 개발자";
     r_link := r_link sample_record;
     r_education := js "학력무관";
     r_deadline := js "~ 01/31(금)";
     r_sector := js "웹개발";
     r_salary := js "면접 후 결정";
     r_experience := js "경력";
     r_location := js "부산";
     r_employment := js "계약직" |}.

(** The store after the first record was ingested: posting 1, owned
    by user 1. *)
Definition sample_store : db := insertData 0 [sample_record] DB.empty.

(** The same store after user 7 bookmarked posting 1. *)
Definition bookmarked_store : db :=
  fst (BookmarksAPI.toggle_bookmark 100 sample_store 7 (Some 1)).

(** An update request that changes the title only. *)
Definition retitle (t : str) : JobsAPI.update_request :=
  {| JobsAPI.companyName := None; JobsAPI.u_title := Some t;
     JobsAPI.u_link := None; JobsAPI.educationLevel := None;
     JobsAPI.u_deadline := None; JobsAPI.locationNames := None;
     JobsAPI.sectorNames := None; JobsAPI.employmentType := None;
     JobsAPI.u_salary := None |}.

(** A listing request for page [p], without filters. *)
Definition list_page (p : Z) : JobsAPI.list_request :=
  {| JobsAPI.page := Some p; JobsAPI.sort := None; JobsAPI.location := None;
     JobsAPI.experience := None; JobsAPI.sector := None;
     JobsAPI.keyword := None; JobsAPI.company := None |}.

(** A posting of company 1 that was viewed [i] times. *)
Definition viewed_posting (i : Z) : job_posting :=
  {| job_posting_id := i; user_id := Some 1; company_id := 1;
     title := js "job"; link := js "https://example.com/job";
     link_hash := []; education_id := None; deadline := js "2024-12-31";
     last_modified_date := None; salary := js "3,000 만원";
     employment_type_id := None; views := i; created_at := 0 |}.

(** A store with one company and [n] viewed postings. *)
Definition viewed_store (n : nat) : db :=
  with_job_postings (map (fun i => viewed_posting (Z.of_nat i)) (seq 1 n))
    (Z.of_nat n + 1)
    (with_table companies
       {| dim_rows := [{| dim_id := 1; dim_name := js "A" |}]; dim_auto := 2 |}
       DB.empty).



(** *** Ingestion *)

(** No two postings have the same link hash. *)
Definition unique_hashes (s : db) : Prop :=
  forall h, (List.length (postings_hashed h s) <= 1)%nat.

(** Whether every record of a batch went through the loop body
    without an error being thrown. *)
Fixpoint all_went_through (now : Z) (dataArray : list record) (s : db) : bool :=
  match dataArray with
  | [] => true
  | data :: r =>
    snd (insert_record now s data)
    && all_went_through now r (fst (insert_record now s data))
  end.

(** The dimension tables of [s'] hold the rows of those of [s], in
    the same order, and maybe more after them. *)
Definition grows (s s' : db) : Prop :=
  forall d, exists extra,
    dim_rows (table d s') = dim_rows (table d s) ++ extra.

(** *** The detail of a posting *)

(** Two postings have a sector in common, by the junction table. *)
Definition common_sector (s : db) (a b : Z) : Prop :=
  exists sectorId,
    In (a, sectorId) (links job_posting_sectors s)
    /\ In (b, sectorId) (links job_posting_sectors s).

(** The detail of posting [id] is read once for each element of
    [rands] (the numbers drawn at each request). *)
Definition read_all (equals_text : Z -> str -> bool) (rands : list (Z -> Z))
    (s : db) (id : Z) : db :=
  fold_left (fun s rand => fst (JobsAPI.job_detail equals_text rand s (Some id)))
            rands s.

(** A second scraped record: another link, the sector 백엔드 in common
    with the first. *)
Definition sample_other : record :=
  {| r_company := js "라마바시스템";
     r_title := js "서버 개발자";
     r_link := js "https://www.saramin.co.kr/zf_user/jobs/relay/view?rec_idx=2";
     r_education := js "학력무관";
     r_deadline := js "~ 01/31(금)";
     r_sector := js "백엔드, 웹개발";
     r_salary := js "면접 후 결정";
     r_experience := js "경력";
     r_location := js "부산";
     r_employment := js "계약직" |}.

(** The store after both records were ingested: postings 1 and 2. *)
Definition two_postings : db :=
  insertData 0 [sample_record; sample_other] DB.empty.

(** A comparison of a number with a text that never holds. *)
Definition never_equal (n : Z) (t : str) : bool := false.

(** *** The search by sector *)

(** How many postings have a sector whose name is like [%keyword%]. *)
Definition sector_total (s : db) (keyword : str) : Z :=
  Z.of_nat (List.length
              (filter (JobsAPI.has_sector_like (contains_pattern keyword) s)
                      (t_job_postings s))).


(** *** Pages *)

(** The same listing request for page [p]. *)
Definition on_page (req : JobsAPI.list_request) (p : Z) : JobsAPI.list_request :=
  {| JobsAPI.page := Some p; JobsAPI.sort := JobsAPI.sort req;
     JobsAPI.location := JobsAPI.location req;
     JobsAPI.experience := JobsAPI.experience req;
     JobsAPI.sector := JobsAPI.sector req;
     JobsAPI.keyword := JobsAPI.keyword req;
     JobsAPI.company := JobsAPI.company req |}.

(** The rows an answer carries. *)
Definition served {D} (r : response (list D)) : list D :=
  match r with
  | success _ rows _ _ => rows
  | error _ _ => []
  end.

(** The pages of a listing of [total] items: 1, ..., ceil(total / 20). *)
Definition pages (total : Z) : list Z :=
  map (fun i => Z.of_nat i + 1) (seq 0 (Z.to_nat (ceil_div total 20))).

(** Newest first, and by id among postings created at the same time. *)
Definition newest_first (a b : job_posting) : Prop :=
  created_at b < created_at a
  \/ created_at a = created_at b /\ job_posting_id a <= job_posting_id b.

(** *** Applications *)

(** Application ids start from 1 and stay below the AUTO_INCREMENT
    counter. *)
Definition wf_applications (t : ApplicationsAPI.applications) : Prop :=
  forall a, In a (ApplicationsAPI.app_rows t) ->
            0 < ApplicationsAPI.application_id a < ApplicationsAPI.app_auto t.

(** No user has two applications to the same posting. *)
Definition one_application_each (t : ApplicationsAPI.applications) : Prop :=
  forall userId jobPostingId,
    (List.length (ApplicationsAPI.applications_of userId jobPostingId t) <= 1)%nat.

(** The table without applications. *)
Definition no_applications : ApplicationsAPI.applications :=
  {| ApplicationsAPI.app_rows := []; ApplicationsAPI.app_auto := 1 |}.

(** A list of numbers in which none is followed by a smaller one. *)
Definition ascending (l : list Z) : Prop := StronglySorted Z.le l.

(** User 7 applied to posting 1 at time 10 and to posting 2 at time
    20, and cancelled the second application. *)
Definition sample_applications : ApplicationsAPI.applications :=
  fst (ApplicationsAPI.deleteApplication
         (fst (ApplicationsAPI.apply 20
                 (fst (ApplicationsAPI.apply 10 no_applications 7 (Some 1)))
                 7 (Some 2)))
         2 7).

(** *** Regular expressions and accounts *)

(** The texts a regular expression denotes. *)
Inductive denotes : Regex.re -> str -> Prop :=
| denotes_eps : denotes Regex.Eps []
| denotes_class (p : N -> bool) (c : N) :
    p c = true -> denotes (Regex.Class p) [c]
| denotes_cat (a b : Regex.re) (s1 s2 : str) :
    denotes a s1 -> denotes b s2 -> denotes (Regex.Cat a b) (s1 ++ s2)
| denotes_alt_l (a b : Regex.re) (s : str) :
    denotes a s -> denotes (Regex.Alt a b) s
| denotes_alt_r (a b : Regex.re) (s : str) :
    denotes b s -> denotes (Regex.Alt a b) s
| denotes_star_nil (a : Regex.re) : denotes (Regex.Star a) []
| denotes_star_cons (a : Regex.re) (s1 s2 : str) :
    denotes a s1 -> denotes (Regex.Star a) s2 ->
    denotes (Regex.Star a) (s1 ++ s2).

(** A non-empty text of characters of the class [p]. *)
Definition some_of (p : N -> bool) (s : str) : Prop :=
  s <> [] /\ Forall (fun c => p c = true) s.

(** local@domain.tld, none of the three empty or holding white space
    or an at sign. *)
Definition email_shape (email : str) : Prop :=
  exists local domain tld,
    email = local ++ [AuthAPI.at_sign] ++ domain ++ [AuthAPI.dot] ++ tld
    /\ some_of AuthAPI.not_space_or_at local
    /\ some_of AuthAPI.not_space_or_at domain
    /\ some_of AuthAPI.not_space_or_at tld.

(** Letters, digits and Hangul syllables. *)
Definition name_char (c : N) : bool :=
  AuthAPI.is_alnum c || (44032 <=? c)%N && (c <=? 55203)%N.

(** Letters, digits, the exclamation mark and the at sign. *)
Definition password_char (c : N) : bool :=
  AuthAPI.is_alnum c || (c =? 33)%N || (c =? AuthAPI.at_sign)%N.

(** A text of 16-bit code units. *)
Definition code_units (s : str) : Prop := Forall (fun c => (c < 65536)%N) s.

(** User ids are below the AUTO_INCREMENT counter, no two users have
    the same id, and no two the same email. *)
Definition wf_users (s : db) : Prop :=
  0 < users_auto s
  /\ (forall u, In u (t_users s) -> 0 < usr_id u < users_auto s)
  /\ NoDup (map usr_id (t_users s))
  /\ forall email, (List.length (AuthAPI.users_with_email email s) <= 1)%nat.

Definition sample_registration : AuthAPI.register_request :=
  {| AuthAPI.email := Some (js "kim@example.org");
     AuthAPI.password := Some (js "pass1234!");
     AuthAPI.name := Some (js "김철수") |}.

(** The store after the registration of one user, user 1. *)
Definition one_member : db := fst (AuthAPI.register two_postings sample_registration).

(** A signer whose token is the secret's letter and the user id in
    unary, and its verifier. *)
Definition sample_sign (k : AuthAPI.secret) (userId : Z) (expiresIn : str) : str :=
  (match k with AuthAPI.SECRET_KEY => 97%N | AuthAPI.REFRESH_SECRET_KEY => 114%N end)
    :: repeat 49%N (Z.to_nat userId).

Definition sample_verify (k : AuthAPI.secret) (token : str) : option Z :=
  match token with
  | c :: r =>
    if (c =? match k with
             | AuthAPI.SECRET_KEY => 97
             | AuthAPI.REFRESH_SECRET_KEY => 114
             end)%N
    then Some (Z.of_nat (List.length r))
    else None
  | [] => None
  end.

(** A list of bytes. *)
Definition byte_list (l : list Z) : Prop := Forall (fun b => 0 <= b < 256) l.

(** A text of characters below 128. *)
Definition ascii_text (s : str) : Prop := Forall (fun c => (c < 128)%N) s.

(** A login request. *)
Definition login_with (email password : str) : AuthAPI.login_request :=
  {| AuthAPI.l_email := Some email; AuthAPI.l_password := Some password |}.

(** A registration request. *)
Definition register_with (email password name : str) : AuthAPI.register_request :=
  {| AuthAPI.email := Some email; AuthAPI.password := Some password;
     AuthAPI.name := Some name |}.

(** The row a registration writes. *)
Definition registered_user (s : db) (email password name : str) : user :=
  {| usr_id := users_auto s; usr_email := email;
     usr_password := AuthAPI.base64 password; usr_name := name |}.

(** *** Recommendations *)

(** The user bookmarked the posting or applied to it. *)
Definition liked (s : db) (apps : ApplicationsAPI.applications)
    (userId jobPostingId : Z) : Prop :=
  (exists b, In b (t_bookmarks s) /\ bm_user_id b = userId
             /\ bm_job_posting_id b = jobPostingId)
  \/ (exists a, In a (ApplicationsAPI.app_rows apps)
                /\ ApplicationsAPI.app_user_id a = userId
                /\ ApplicationsAPI.app_job_posting_id a = jobPostingId).

(** The user applied to the posting. *)
Definition has_applied (apps : ApplicationsAPI.applications)
    (userId jobPostingId : Z) : Prop :=
  exists a, In a (ApplicationsAPI.app_rows apps)
            /\ ApplicationsAPI.app_user_id a = userId
            /\ ApplicationsAPI.app_job_posting_id a = jobPostingId.

(** User 7 bookmarked posting 1 of the store with two postings. *)
Definition two_postings_bookmarked : db :=
  fst (BookmarksAPI.toggle_bookmark 100 two_postings 7 (Some 1)).

(** *** Changes of a posting *)

(** The row [q] has the id, the owner, the link hash, the view count
    and the creation time of the row [p]. *)
Definition keeps_identity (p q : job_posting) : Prop :=
  job_posting_id q = job_posting_id p
  /\ user_id q = user_id p
  /\ link_hash q = link_hash p
  /\ views q = views p
  /\ created_at q = created_at p.

(** [v || old] for a text of the request body. *)
Definition given_or (o : option str) (old : str) : str :=
  match o with
  | Some v => if truthy_str v then v else old
  | None => old
  end.

(** A change of the rows of the posting [id]. *)
Definition update_row (id : Z) (f : job_posting -> job_posting)
    (p : job_posting) : job_posting :=
  if job_posting_id p =? id then f p else p.

(** What a change of the posting [id] leaves alone. *)
Definition rest_kept (id : Z) (s s' : db) : Prop :=
  job_postings_auto s' = job_postings_auto s
  /\ (forall j, delete_links_of id (links j s') = delete_links_of id (links j s))
  /\ t_bookmarks s' = t_bookmarks s
  /\ t_users s' = t_users s
  /\ users_auto s' = users_auto s
  /\ grows s s'.

(** [s'] is [s] but for the posting [id], which keeps its identity,
    its junction rows, and labels added to the dimension tables. *)
Definition changes_only (id : Z) (s s' : db) : Prop :=
  (exists f, (forall p, keeps_identity p (f p))
             /\ t_job_postings s' = map (update_row id f) (t_job_postings s))
  /\ rest_kept id s s'.

(** The statement is on the posting [id], if on any. *)
Definition targets (id : Z) (q : JobsAPI.query) : Prop :=
  match q with
  | JobsAPI.SelectPosting _ | JobsAPI.SelectOwnedPosting _ _
  | JobsAPI.Upsert _ _ => True
  | JobsAPI.SetRefToLastInsertId _ i | JobsAPI.SetTitle _ i
  | JobsAPI.SetLink _ i | JobsAPI.SetDeadline _ i | JobsAPI.SetSalary _ i
  | JobsAPI.DeleteLinks _ i | JobsAPI.InsertLinkToLastInsertId _ i
  | JobsAPI.TouchLastModified i => i = id
  end.

(** What a statement does to the texts of the row it is on. *)
Definition text_effect (now : str) (q : JobsAPI.query) (p : job_posting)
  : job_posting :=
  match q with
  | JobsAPI.SetTitle v _ => set_title v p
  | JobsAPI.SetLink v _ => set_link v p
  | JobsAPI.SetDeadline v _ => set_deadline v p
  | JobsAPI.SetSalary v _ => set_salary v p
  | JobsAPI.TouchLastModified _ => set_last_modified_date (Some now) p
  | _ => p
  end.

(** The texts of a row after the statements of a list. *)
Definition texts_after (now : str) (qs : list JobsAPI.query) (p : job_posting)
  : job_posting :=
  fold_left (fun p q => text_effect now q p) qs p.

Definition same_texts (p q : job_posting) : Prop :=
  title p = title q /\ link p = link q /\ deadline p = deadline q
  /\ salary p = salary q /\ last_modified_date p = last_modified_date q.

(** A complete request for a new posting. *)
Definition new_posting : JobsAPI.update_request :=
  {| JobsAPI.companyName := Some (js "Acme");
     JobsAPI.u_title := Some (js "Engineer");
     JobsAPI.u_link := Some (js "https://example.com/jobs/1");
     JobsAPI.educationLevel := Some (js "Any");
     JobsAPI.u_deadline := Some (js "2025-01-31");
     JobsAPI.locationNames := Some [js "Seoul"];
     JobsAPI.sectorNames := Some [js "Backend"];
     JobsAPI.employmentType := Some (js "Full-time");
     JobsAPI.u_salary := None |}.

(** The member applied to posting 1 at time 10 and to posting 2 at
    time 20, and cancelled the second application. *)
Definition member_applications : ApplicationsAPI.applications :=
  fst (ApplicationsAPI.deleteApplication
         (fst (ApplicationsAPI.apply 20
                 (fst (ApplicationsAPI.apply 10 no_applications 1 (Some 1)))
                 1 (Some 2)))
         2 1).

(** The empty store after user 7 created a posting. *)
Definition one_created : db :=
  fst (JobsAPI.create_job 5 DB.empty 7 new_posting).

(** A request to change the password and nothing else. *)
Definition new_password (password : str) : AuthAPI.register_request :=
  {| AuthAPI.email := None; AuthAPI.password := Some password;
     AuthAPI.name := None |}.

(** The row of a user after a change of password. *)
Definition with_password (password : str) (u : user) : user :=
  {| usr_id := usr_id u; usr_email := usr_email u;
     usr_password := AuthAPI.base64 password; usr_name := usr_name u |}.

(* ================================================================= *)
(** ** Strings *)

Section Strings.

Lemma str_eqb_eq (a b : str) : str_eqb a b = true <-> a = b.
Proof.
  revert b; induction a as [|x a IH]; intros [|y b]; simpl; split; intro H;
    try reflexivity; try discriminate.
  - apply andb_true_iff in H as [Hx Hr]. apply N.eqb_eq in Hx.
    apply IH in Hr. now subst.
  - injection H as -> ->. rewrite N.eqb_refl. now apply IH.
Qed.

Lemma str_eqb_neq (a b : str) : str_eqb a b = false <-> a <> b.
Proof.
  rewrite <- str_eqb_eq. destruct (str_eqb a b); split; congruence.
Qed.

Lemma str_eqb_refl (a : str) : str_eqb a a = true.
Proof. now apply str_eqb_eq. Qed.

Variable p : N -> bool.

Lemma drop_while_head (s : str) :
  match drop_while p s with
  | c :: _ => p c = false
  | [] => True
  end.
Proof.
  induction s as [|c r IH]; simpl; [exact I|].
  destruct (p c) eqn:E; [exact IH | exact E].
Qed.

Lemma drop_while_fixed (s : str) :
  match s with c :: _ => p c = false | [] => True end ->
  drop_while p s = s.
Proof. destruct s as [|c r]; simpl; [reflexivity|]. now intros ->. Qed.

Lemma drop_while_idem (s : str) :
  drop_while p (drop_while p s) = drop_while p s.
Proof. apply drop_while_fixed, drop_while_head. Qed.

Lemma take_drop_while (s : str) :
  take_while p s ++ drop_while p s = s.
Proof.
  induction s as [|c r IH]; simpl; [reflexivity|].
  destruct (p c); simpl; [now rewrite IH | reflexivity].
Qed.

Lemma take_while_all (s : str) : Forall (fun c => p c = true) (take_while p s).
Proof.
  induction s as [|c r IH]; simpl; [constructor|].
  destruct (p c) eqn:E; constructor; assumption.
Qed.

(** What [drop_while] removes is a run of [p], in front. *)
Lemma drop_while_suffix (s : str) :
  exists l, s = l ++ drop_while p s /\ Forall (fun c => p c = true) l.
Proof.
  exists (take_while p s). split;
    [symmetry; apply take_drop_while | apply take_while_all].
Qed.

End Strings.

Lemma drop_while_run (p : N -> bool) (ws r : str) :
  Forall (fun c => p c = true) ws ->
  match r with c :: _ => p c = false | [] => True end ->
  drop_while p (ws ++ r) = r /\ take_while p (ws ++ r) = ws.
Proof.
  intros Hws Hr. induction Hws as [|c ws Hc _ IH]; simpl.
  - destruct r as [|c r]; simpl; [auto|]. now rewrite Hr.
  - rewrite Hc. destruct IH as [-> ->]. auto.
Qed.

(** [trim] removes a run of white space at each end, and nothing else. *)
Lemma trim_infix (s : str) :
  exists l r, s = l ++ trim s ++ r
              /\ Forall (fun c => is_whitespace c = true) l
              /\ Forall (fun c => is_whitespace c = true) r.
Proof.
  unfold trim.
  destruct (drop_while_suffix is_whitespace s) as (l & Hl & Fl).
  destruct (drop_while_suffix is_whitespace (rev (drop_while is_whitespace s)))
    as (r & Hr & Fr).
  exists l, (rev r). split; [|split; [exact Fl | now apply Forall_rev]].
  rewrite Hl at 1. f_equal.
  rewrite <- (rev_involutive (drop_while is_whitespace s)) at 1.
  rewrite Hr at 1. now rewrite rev_app_distr.
Qed.

Lemma trim_idem (s : str) : trim (trim s) = trim s.
Proof.
  unfold trim at 1.
  assert (H : drop_while is_whitespace (trim s) = trim s).
  { apply drop_while_fixed. unfold trim.
    set (y := drop_while is_whitespace s).
    destruct (drop_while_suffix is_whitespace (rev y)) as (r & Hr & _).
    assert (Hy : y = rev (drop_while is_whitespace (rev y)) ++ rev r).
    { rewrite <- (rev_involutive y) at 1. rewrite Hr at 1.
      now rewrite rev_app_distr. }
    pose proof (drop_while_head is_whitespace s) as Hh. fold y in Hh.
    destruct (rev (drop_while is_whitespace (rev y))) as [|c t]; [exact I|].
    rewrite Hy in Hh. exact Hh. }
  rewrite H. unfold trim. rewrite rev_involutive, drop_while_idem. reflexivity.
Qed.

Lemma is_prefix_app (m s : str) :
  is_prefix m s = true <-> exists r, s = m ++ r.
Proof.
  revert s; induction m as [|x m IH]; intros s; simpl.
  - split; [now exists s | reflexivity].
  - destruct s as [|y s]; [split; [discriminate | intros (r & H); discriminate]|].
    rewrite andb_true_iff, N.eqb_eq, IH. split.
    + intros [-> (r & ->)]. now exists r.
    + intros (r & H). injection H as -> ->. split; [reflexivity | now exists r].
Qed.

Lemma skipn_app_exact {A} (l r : list A) : skipn (List.length l) (l ++ r) = r.
Proof. induction l; simpl; auto. Qed.

Lemma Forall_infix {A} (P : A -> Prop) (l m r : list A) :
  Forall P (l ++ m ++ r) -> Forall P m.
Proof.
  intro H. apply Forall_app in H as [_ H]. now apply Forall_app in H as [H _].
Qed.

Section Split.

Variable sep : N -> bool.

Lemma split_not_nil (s : str) : split sep s <> [].
Proof.
  induction s as [|c r IH]; simpl; [discriminate|].
  destruct (sep c); [discriminate|].
  destruct (split sep r); discriminate.
Qed.

Lemma split_pieces (s : str) :
  Forall (Forall (fun c => sep c = false)) (split sep s).
Proof.
  induction s as [|c r IH]; simpl.
  - repeat constructor.
  - destruct (sep c) eqn:E.
    + constructor; [constructor | exact IH].
    + destruct (split sep r) as [|h t]; [repeat constructor; exact E|].
      inversion IH; subst. constructor; [constructor|]; assumption.
Qed.

Lemma split_concat (s : str) :
  List.concat (split sep s) = filter (fun c => negb (sep c)) s.
Proof.
  induction s as [|c r IH]; simpl; [reflexivity|].
  destruct (sep c) eqn:E; simpl; [exact IH|].
  destruct (split sep r) as [|h t] eqn:S.
  - now destruct (split_not_nil r S).
  - simpl in *. now rewrite IH.
Qed.

End Split.

(* ================================================================= *)
(** ** The multi-value field parser *)

Lemma split_pieces_of (sep : N -> bool) (s : str) : pieces_of sep s (split sep s).
Proof.
  induction s as [|c r IH]; cbn [split].
  - apply pieces_last. constructor.
  - destruct (sep c) eqn:E.
    + apply (pieces_more sep [] c r); [constructor | exact E | exact IH].
    + destruct (split sep r) as [|h t] eqn:S; [now destruct (split_not_nil sep r S)|].
      inversion IH as [p Hp | p c' s' rest Hp Hc Hrest]; subst.
      * apply pieces_last. now constructor.
      * apply (pieces_more sep (c :: h) c' s' t);
          [now constructor | exact Hc | exact Hrest].
Qed.

Lemma split_without_separator (sep : N -> bool) (p : str) :
  Forall (fun c => sep c = false) p -> split sep p = [p].
Proof.
  induction 1 as [|c r Hc _ IH]; [reflexivity|].
  cbn [split]. now rewrite Hc, IH.
Qed.

Lemma split_at_separator (sep : N -> bool) (p : str) (c : N) (s : str) :
  Forall (fun c => sep c = false) p -> sep c = true ->
  split sep (p ++ c :: s) = p :: split sep s.
Proof.
  intros Hp Hc. induction Hp as [|a r Ha _ IH]; cbn [split app].
  - now rewrite Hc.
  - now rewrite Ha, IH.
Qed.

Lemma pieces_of_split (sep : N -> bool) (s : str) (pieces : list str) :
  pieces_of sep s pieces -> pieces = split sep s.
Proof.
  induction 1 as [p Hp | p c s rest Hp Hc _ IH].
  - symmetry. now apply split_without_separator.
  - rewrite (split_at_separator sep p c s Hp Hc). now rewrite IH.
Qed.

Lemma drop_while_all (p : N -> bool) (ws : str) :
  Forall (fun c => p c = true) ws -> drop_while p ws = [].
Proof. induction 1 as [|c r Hc _ IH]; cbn; [reflexivity | now rewrite Hc]. Qed.

Lemma tight_start_trim (s : str) : tight_start (trim s) /\ tight_start (rev (trim s)).
Proof.
  unfold trim. set (y := drop_while is_whitespace s).
  rewrite rev_involutive. split; [|apply drop_while_head].
  destruct (drop_while_suffix is_whitespace (rev y)) as (r & Hr & _).
  assert (Hy : y = rev (drop_while is_whitespace (rev y)) ++ rev r).
  { rewrite <- (rev_involutive y) at 1. rewrite Hr at 1.
    now rewrite rev_app_distr. }
  pose proof (drop_while_head is_whitespace s) as Hh. fold y in Hh.
  unfold tight_start.
  destruct (rev (drop_while is_whitespace (rev y))) as [|c t]; [exact I|].
  rewrite Hy in Hh. exact Hh.
Qed.

Lemma trimmed_trim (p : str) : trimmed p (trim p).
Proof.
  destruct (trim_infix p) as (l & r & E & Hl & Hr).
  destruct (tight_start_trim p) as [H1 H2].
  now exists l, r.
Qed.

Lemma trimmed_unique (p t : str) : trimmed p t -> t = trim p.
Proof.
  intros (l & r & -> & Hl & Hr & Ht & Hrt). unfold trim.
  destruct t as [|c t'].
  - cbn [app].
    assert (E : drop_while is_whitespace (l ++ r) = []).
    { apply drop_while_all. apply Forall_app. now split. }
    rewrite E. reflexivity.
  - destruct (drop_while_run is_whitespace l ((c :: t') ++ r) Hl Ht) as [E _].
    rewrite E, rev_app_distr.
    assert (Hne : rev (c :: t') <> []).
    { intro H. apply (f_equal (@rev N)) in H. rewrite rev_involutive in H.
      discriminate. }
    assert (Hrr : Forall (fun c => is_whitespace c = true) (rev r))
      by now apply Forall_rev.
    destruct (drop_while_run is_whitespace (rev r) (rev (c :: t')) Hrr Hrt) as [E' _].
    rewrite E'. now rewrite rev_involutive.
Qed.

Lemma Forall2_trimmed_map (pieces trims : list str) :
  Forall2 trimmed pieces trims <-> trims = map trim pieces.
Proof.
  split.
  - induction 1 as [|p t ps ts Hpt _ IH]; [reflexivity|].
    cbn [map]. now rewrite (trimmed_unique p t Hpt), IH.
  - intros ->. induction pieces as [|p ps IH]; constructor;
      [apply trimmed_trim | exact IH].
Qed.

Lemma non_empty_filter (l : list str) :
  non_empty l = filter (fun value => negb (str_eqb value [])) l.
Proof.
  induction l as [|t r IH]; [reflexivity|].
  destruct t; cbn [non_empty filter str_eqb negb]; now rewrite IH.
Qed.

Lemma tokens_of_unique (sep : N -> bool) (s : str) (tokens : list str) :
  tokens_of sep s tokens
  <-> tokens = filter (fun value => negb (str_eqb value []))
                 (map trim (split sep s)).
Proof.
  unfold tokens_of. split.
  - intros (pieces & trims & Hp & Ht & ->).
    apply pieces_of_split in Hp. apply Forall2_trimmed_map in Ht.
    subst. apply non_empty_filter.
  - intros ->. exists (split sep s), (map trim (split sep s)).
    split; [apply split_pieces_of|]. split; [now apply Forall2_trimmed_map|].
    symmetry. apply non_empty_filter.
Qed.

(** C5 (amended).  For every input string the multi-value field
    parser returns the list of tokens of the field and no other list:
    the pieces between commas and mid-dots, from left to right and
    each as often as it occurs, every piece without the white space
    at its ends, the empty ones left out.  A token is the non-empty
    trim of a piece, holds no separator, and has no white space at
    either end; the pieces, put together, are the input without its
    separators.  The empty input gives the empty list, and no result
    holds the empty string.  The parser does not drop the sentinel 외;
    that is done by the sector parser, whose result never holds it. *)
Theorem parseMultiValueField_tokens (fieldValue : str) :
  (forall tokens,
      tokens_of field_separator fieldValue tokens
      <-> tokens = parseMultiValueField fieldValue)
  /\ (forall t, In t (parseMultiValueField fieldValue) <->
        t <> [] /\ exists piece,
          In piece (split field_separator fieldValue) /\ t = trim piece)
  /\ List.concat (split field_separator fieldValue)
     = filter (fun c => negb (field_separator c)) fieldValue
  /\ Forall (fun t => t <> []
                      /\ Forall (fun c => field_separator c = false) t
                      /\ trim t = t)
            (parseMultiValueField fieldValue)
  /\ parseMultiValueField [] = []
  /\ ~ In [] (parseMultiValueField fieldValue)
  /\ ~ In etc (sector_tokens fieldValue).
Proof.
  split; [intro tokens; apply tokens_of_unique|].
  assert (Hin : forall t, In t (parseMultiValueField fieldValue) <->
     t <> [] /\ exists piece,
       In piece (split field_separator fieldValue) /\ t = trim piece).
  { intro t. unfold parseMultiValueField.
    rewrite filter_In, in_map_iff, negb_true_iff, str_eqb_neq.
    split.
    - intros [(piece & <- & Hp) Hne]. split; [exact Hne|]. now exists piece.
    - intros [Hne (piece & Hp & ->)]. split; [|exact Hne]. now exists piece. }
  split; [exact Hin|]. split; [apply split_concat|].
  split; [|split; [reflexivity|split]].
  - apply Forall_forall. intros t Ht. apply Hin in Ht as [Hne (piece & Hp & ->)].
    split; [exact Hne|]. split; [|apply trim_idem].
    pose proof (split_pieces field_separator fieldValue) as Hall.
    rewrite Forall_forall in Hall. specialize (Hall _ Hp).
    destruct (trim_infix piece) as (l & r & Heq & _).
    rewrite Heq in Hall. exact (Forall_infix _ _ _ _ Hall).
  - intro H. apply Hin in H as [H _]. now apply H.
  - unfold sector_tokens. rewrite filter_In. intros [_ H].
    rewrite str_eqb_refl in H. rewrite andb_false_r in H. discriminate.
Qed.

(** C5, counterexample: on "서울, 외" the multi-value field parser
    returns the sentinel 외 as a token. *)
Lemma parseMultiValueField_keeps_sentinel :
  In etc (parseMultiValueField (js "서울, 외")).
Proof. vm_compute. right. left. reflexivity. Qed.

(* ================================================================= *)
(** ** The sector and date parser *)

Lemma digit_cases (c : N) :
  is_digit c = true -> In c [48; 49; 50; 51; 52; 53; 54; 55; 56; 57]%N.
Proof.
  unfold is_digit. rewrite andb_true_iff, !N.leb_le. intros [Hl Hu].
  assert (H : (c = 48 \/ c = 49 \/ c = 50 \/ c = 51 \/ c = 52 \/ c = 53
               \/ c = 54 \/ c = 55 \/ c = 56 \/ c = 57)%N) by lia.
  simpl. intuition.
Qed.

Lemma digit_not_whitespace (c : N) : is_digit c = true -> is_whitespace c = false.
Proof.
  intro H. apply digit_cases in H. simpl in H.
  repeat (destruct H as [<- | H]; [reflexivity|]). contradiction.
Qed.

Lemma parseInt10_two_digits (a b : N) :
  is_digit a = true -> is_digit b = true ->
  parseInt10 [a; b] = Some (two_digits a b).
Proof.
  intros Ha Hb. apply digit_cases in Ha, Hb. simpl in Ha, Hb.
  repeat (destruct Ha as [<- | Ha]; [
    repeat (destruct Hb as [<- | Hb]; [reflexivity|]); contradiction |]).
  contradiction.
Qed.

(** The pattern matches a marker wherever one starts. *)
Lemma match_date_here_complete (m post : str) (y mo d : Z) :
  date_marker m y mo d ->
  exists dm, match_date_here (m ++ post) = Some dm /\ m_text dm = m
             /\ parseInt10 (m_year dm) = Some y
             /\ parseInt10 (m_month dm) = Some mo
             /\ parseInt10 (m_day dm) = Some d.
Proof.
  intros (w & ws & y1 & y2 & m1 & m2 & d1 & d2 & Hw & Hws & Hy1 & Hy2 & Hm1
          & Hm2 & Hd1 & Hd2 & -> & -> & -> & ->).
  assert (Hrun :
    drop_while is_whitespace
      (ws ++ [y1; y2; slash; m1; m2; slash; d1; d2] ++ post)
    = [y1; y2; slash; m1; m2; slash; d1; d2] ++ post
    /\ take_while is_whitespace
         (ws ++ [y1; y2; slash; m1; m2; slash; d1; d2] ++ post) = ws).
  { apply drop_while_run; [exact Hws|]. simpl. now apply digit_not_whitespace. }
  destruct Hrun as [Hdrop Htake].
  assert (Hwm : word_modified = [49688; 51221; 51068]%N) by reflexivity.
  assert (Hwp : word_posted = [46321; 47197; 51068]%N) by reflexivity.
  destruct Hw as [-> | ->]; rewrite ?Hwm, ?Hwp;
    (eexists; split; [|split; [|split; [|split]]];
     [ unfold match_date_here; rewrite Hwm, Hwp, <- !app_assoc;
       simpl; simpl in Hdrop, Htake; rewrite Hdrop, Htake; simpl;
       rewrite Hy1, Hy2, Hm1, Hm2, Hd1, Hd2; simpl; reflexivity
     | reflexivity
     | now apply parseInt10_two_digits
     | now apply parseInt10_two_digits
     | now apply parseInt10_two_digits ]).
Qed.

(** What the pattern matches at the head of a string is a marker. *)
Lemma match_date_here_sound (s : str) (dm : date_match) :
  match_date_here s = Some dm ->
  exists post y mo d,
    s = m_text dm ++ post /\ date_marker (m_text dm) y mo d.
Proof.
  unfold match_date_here.
  set (word := if is_prefix word_modified s then Some word_modified
               else if is_prefix word_posted s then Some word_posted
               else None).
  assert (Hword : forall w, word = Some w ->
            (w = word_modified \/ w = word_posted)
            /\ exists r, s = w ++ r).
  { intros w. unfold word.
    destruct (is_prefix word_modified s) eqn:E1;
      [|destruct (is_prefix word_posted s) eqn:E2]; intro H;
      try discriminate; injection H as <-.
    - split; [now left | now apply is_prefix_app].
    - split; [now right | now apply is_prefix_app]. }
  destruct word as [w|]; [|discriminate].
  destruct (Hword w eq_refl) as [Hw (r & ->)]. clear Hword.
  rewrite skipn_app_exact.
  pose proof (take_drop_while is_whitespace r) as Hsplit.
  pose proof (take_while_all is_whitespace r) as Hws.
  destruct (drop_while is_whitespace r)
    as [|y1 [|y2 [|s1 [|m1 [|m2 [|s2 [|d1 [|d2 post]]]]]]]];
    try discriminate.
  destruct (is_digit y1) eqn:Hy1; [|discriminate].
  destruct (is_digit y2) eqn:Hy2; [|discriminate].
  destruct (s1 =? slash)%N eqn:Hs1; [|discriminate].
  destruct (is_digit m1) eqn:Hm1; [|discriminate].
  destruct (is_digit m2) eqn:Hm2; [|discriminate].
  destruct (s2 =? slash)%N eqn:Hs2; [|discriminate].
  destruct (is_digit d1) eqn:Hd1; [|discriminate].
  destruct (is_digit d2) eqn:Hd2; [|discriminate].
  simpl. intro H. injection H as <-. simpl.
  apply N.eqb_eq in Hs1, Hs2. subst s1 s2.
  exists post, (two_digits y1 y2), (two_digits m1 m2), (two_digits d1 d2).
  split.
  - rewrite <- Hsplit at 1. now rewrite <- !app_assoc.
  - exists w, (take_while is_whitespace r), y1, y2, m1, m2, d1, d2.
    repeat (split; [assumption || reflexivity|]). reflexivity.
Qed.

(** [match] returns the marker that starts first. *)
Lemma match_date_leftmost (pre rest : str) :
  leftmost pre (pre ++ rest) -> match_date (pre ++ rest) = match_date rest.
Proof.
  induction pre as [|c pre IH]; intro Hl; [reflexivity|].
  simpl app. cbn [match_date].
  destruct (match_date_here (c :: pre ++ rest)) as [dm|] eqn:E.
  - apply match_date_here_sound in E as (post & y & mo & d & Hs & Hm).
    specialize (Hl [] (m_text dm) post y mo d Hs Hm). simpl in Hl. lia.
  - apply IH. intros pre' m' post' y' mo' d' Hs Hm.
    specialize (Hl (c :: pre') m' post' y' mo' d').
    simpl in Hl. rewrite Hs in Hl. specialize (Hl eq_refl Hm). lia.
Qed.

Lemma match_date_some (s : str) (dm : date_match) :
  match_date s = Some dm ->
  exists pre post y mo d,
    s = pre ++ m_text dm ++ post /\ date_marker (m_text dm) y mo d.
Proof.
  induction s as [|c s IH]; cbn [match_date].
  - destruct (match_date_here []) eqn:E; [|discriminate].
    intro H; injection H as ->.
    apply match_date_here_sound in E as (post & y & mo & d & Hs & Hm).
    now exists [], post, y, mo, d.
  - destruct (match_date_here (c :: s)) eqn:E.
    + intro H; injection H as ->.
      apply match_date_here_sound in E as (post & y & mo & d & Hs & Hm).
      now exists [], post, y, mo, d.
    + intro H. apply IH in H as (pre & post & y & mo & d & -> & Hm).
      now exists (c :: pre), post, y, mo, d.
Qed.

(** [replace] removes the marker where [match] found it. *)
Lemma replace_first_leftmost (pre m post : str) (y mo d : Z) :
  date_marker m y mo d -> leftmost pre (pre ++ m ++ post) ->
  replace_first m (pre ++ m ++ post) = pre ++ post.
Proof.
  intro Hm. induction pre as [|c pre IH]; intro Hl.
  - simpl app. destruct m as [|x m'].
    + destruct Hm as (w & ws & y1 & y2 & m1 & m2 & d1 & d2 & [-> | ->] & _ & _
                      & _ & _ & _ & _ & _ & H & _); discriminate.
    + assert (E : is_prefix (x :: m') ((x :: m') ++ post) = true)
        by (apply is_prefix_app; eauto).
      change (replace_first (x :: m') ((x :: m') ++ post))
        with (if is_prefix (x :: m') ((x :: m') ++ post)
              then skipn (List.length (x :: m')) ((x :: m') ++ post)
              else x :: replace_first (x :: m') (m' ++ post)).
      rewrite E. apply skipn_app_exact.
  - simpl app. cbn [replace_first].
    destruct (is_prefix m (c :: pre ++ m ++ post)) eqn:E.
    + apply is_prefix_app in E as (r & Hr).
      specialize (Hl [] m r y mo d Hr Hm). simpl in Hl. lia.
    + f_equal. apply IH. intros pre' m' post' y' mo' d' Hs Hm'.
      specialize (Hl (c :: pre') m' post' y' mo' d').
      simpl in Hl. rewrite Hs in Hl. specialize (Hl eq_refl Hm'). lia.
Qed.

(** A check by computation that no marker starts inside [pre]. *)
Lemma leftmost_by_search (pre rest : str) :
  forallb (fun i => match match_date_here (skipn i (pre ++ rest)) with
                    | Some _ => false
                    | None => true
                    end) (seq 0 (List.length pre)) = true ->
  leftmost pre (pre ++ rest).
Proof.
  intros Hall pre' m' post' y' mo' d' Hs Hm.
  destruct (Nat.le_gt_cases (List.length pre) (List.length pre')) as [H|H];
    [exact H|exfalso].
  rewrite forallb_forall in Hall.
  assert (Hin : In (List.length pre') (seq 0 (List.length pre)))
    by (apply in_seq; lia).
  specialize (Hall _ Hin). cbv beta in Hall.
  rewrite Hs, skipn_app_exact in Hall.
  destruct (match_date_here_complete m' post' y' mo' d' Hm) as (dm & Hdm & _).
  rewrite Hdm in Hall. discriminate Hall.
Qed.

(** C6 (amended).  When the sector string holds a date marker (수정일
    or 등록일, white space, YY/MM/DD) and [m] is the leftmost one, the
    parser answers the sector tokens of the string with exactly the
    text of [m] taken out, and the date moment makes of year YY + 2000,
    month MM and day DD: the ISO date YYYY-MM-DD when that is a day of
    the calendar.  When the string holds no marker, no date is
    produced and the whole string is split into sectors. *)
Theorem parseSectorsAndModifiedDate_spec (sectorStr : str) :
  (forall pre m post y mo d,
      sectorStr = pre ++ m ++ post -> date_marker m y mo d ->
      leftmost pre sectorStr ->
      parseSectorsAndModifiedDate sectorStr
      = (sector_tokens (pre ++ post), Some (moment_format (y + 2000) mo d))
      /\ (valid_date (y + 2000) mo d = true ->
          moment_format (y + 2000) mo d = iso_date (y + 2000) mo d))
  /\ ((forall pre m post y mo d,
          sectorStr = pre ++ m ++ post -> ~ date_marker m y mo d) ->
      parseSectorsAndModifiedDate sectorStr = (sector_tokens sectorStr, None)).
Proof.
  split.
  - intros pre m post y mo d -> Hm Hl. split.
    + unfold parseSectorsAndModifiedDate.
      pose proof (replace_first_leftmost pre m post y mo d Hm Hl) as Hrep.
      rewrite (match_date_leftmost _ _ Hl). clear Hl.
      destruct (match_date_here_complete m post y mo d Hm)
        as (dm & Hdm & Htext & Hy & Hmo & Hd).
      assert (Hmd : match_date (m ++ post) = Some dm).
      { destruct m as [|x m']; [|simpl app in *; cbn [match_date]; now rewrite Hdm].
        destruct Hm as (w & ws & y1 & y2 & m1 & m2 & d1 & d2 & [-> | ->] & _ & _
                        & _ & _ & _ & _ & _ & H & _); discriminate. }
      rewrite Hmd, Hy, Hmo, Hd, Htext, Hrep. reflexivity.
    + unfold moment_format. now intros ->.
  - intro Hnone. unfold parseSectorsAndModifiedDate.
    destruct (match_date sectorStr) as [dm|] eqn:E; [|reflexivity].
    apply match_date_some in E as (pre & post & y & mo & d & Hs & Hm).
    destruct (Hnone _ _ _ _ _ _ Hs Hm).
Qed.

(** C6, witness: "IT, Software 수정일 24/03/15" gives the sectors IT
    and Software and the date 2024-03-15; "IT, Software" gives the
    same sectors and no date. *)
Lemma parseSectorsAndModifiedDate_witness :
  parseSectorsAndModifiedDate (js "IT, Software 수정일 24/03/15")
  = ([js "IT"; js "Software"], Some (js "2024-03-15"))
  /\ parseSectorsAndModifiedDate (js "IT, Software")
     = ([js "IT"; js "Software"], None).
Proof.
  split.
  - destruct (parseSectorsAndModifiedDate_spec (js "IT, Software 수정일 24/03/15"))
      as [H _].
    destruct (H (js "IT, Software ") (js "수정일 24/03/15") [] 24 3 15) as [H1 _].
    + reflexivity.
    + exists word_modified, [32%N], 50%N, 52%N, 48%N, 51%N, 49%N, 53%N.
      repeat (split; [first [now left | now repeat constructor | reflexivity]|]).
      reflexivity.
    + apply (leftmost_by_search (js "IT, Software ") (js "수정일 24/03/15")).
      vm_compute. reflexivity.
    + exact H1.
  - reflexivity.
Defined.

(** C6, counterexample: only the marker is taken out, so parentheses
    around it stay in the last sector; and a marker that is not a day
    of the calendar gives moment's "Invalid date", not an ISO date. *)
Lemma parseSectorsAndModifiedDate_parentheses :
  parseSectorsAndModifiedDate (js "IT, Software (수정일 24/03/15)")
  = ([js "IT"; js "Software ()"], Some (js "2024-03-15"))
  /\ parseSectorsAndModifiedDate (js "IT, Software 수정일 24/13/45")
     = ([js "IT"; js "Software"], Some (js "Invalid date")).
Proof. split; vm_compute; reflexivity. Qed.

(* ================================================================= *)
(** ** The link hash *)

(** The digests of "abc" and of the empty string, as FIPS 180-4 gives
    them. *)
Lemma sha256_hex_test_vectors :
  Crypto.sha256_hex (js "abc")
  = js "ba7816bf8f01cfea414140de5dae2223b00361a396177a9cb410ff61f20015ad"
  /\ Crypto.sha256_hex []
     = js "e3b0c44298fc1c149afbf4c8996fb92427ae41e4649b934ca495991b7852b855".
Proof. split; vm_compute; reflexivity. Qed.

(* ================================================================= *)
(** ** Dimension tables: get-or-create *)

Lemma dim_eq_dec (d d' : dim) : {d = d'} + {d <> d'}.
Proof. decide equality. Defined.

Lemma table_with_table_same (d : dim) (t : dim_table) (s : db) :
  table d (with_table d t s) = t.
Proof. now destruct d. Qed.

Lemma table_with_table_other (d d' : dim) (t : dim_table) (s : db) :
  d <> d' -> table d' (with_table d t s) = table d' s.
Proof. destruct d, d'; intro H; try reflexivity; now destruct H. Qed.

Lemma rows_named_append (name name' : str) (t : dim_table) :
  rows_named name' (append_dim name t)
  = rows_named name' t
    ++ (if str_eqb name name' then [{| dim_id := dim_auto t; dim_name := name |}]
        else []).
Proof. unfold rows_named, append_dim. simpl. now rewrite filter_app. Qed.

Lemma rows_named_In (name : str) (t : dim_table) (r : dim_row) :
  In r (rows_named name t) -> In r (dim_rows t) /\ dim_name r = name.
Proof.
  unfold rows_named. rewrite filter_In, str_eqb_eq. tauto.
Qed.

Lemma insert_ignore_dim_wf (name : str) (t : dim_table) :
  wf_dim t -> wf_dim (insert_ignore_dim name t).
Proof.
  intros [Hu Hi Hp]. unfold insert_ignore_dim.
  destruct (rows_named name t) eqn:E.
  - split.
    + intro name'. rewrite rows_named_append.
      destruct (str_eqb name name') eqn:En.
      * apply str_eqb_eq in En. subst name'. rewrite E. simpl. lia.
      * rewrite app_nil_r. apply Hu.
    + intros r. unfold append_dim. simpl. rewrite in_app_iff. simpl.
      intros [H | [<- | []]]; [now apply Hi | simpl; lia].
    + unfold append_dim. simpl. lia.
  - split; [exact Hu | exact Hi | unfold skip_auto; simpl; lia].
Qed.

(** After [INSERT IGNORE] the table holds exactly one row for the
    name: the one it held, or the new one. *)
Lemma insert_ignore_dim_named (name : str) (t : dim_table) :
  wf_dim t ->
  exists r, rows_named name (insert_ignore_dim name t) = [r]
            /\ dim_id r <> 0
            /\ (rows_named name t = [r]
                \/ rows_named name t = []
                   /\ r = {| dim_id := dim_auto t; dim_name := name |}).
Proof.
  intros [Hu Hi Hp]. unfold insert_ignore_dim.
  destruct (rows_named name t) as [|r l] eqn:E.
  - exists {| dim_id := dim_auto t; dim_name := name |}.
    rewrite rows_named_append, E, str_eqb_refl. simpl.
    split; [reflexivity|]. split; [lia | auto].
  - specialize (Hu name). rewrite E in Hu. simpl in Hu.
    destruct l; [|simpl in Hu; lia].
    exists r. change (rows_named name (skip_auto t)) with (rows_named name t).
    rewrite E. split; [reflexivity|]. split; [|now left].
    apply Hi. apply (rows_named_In name). rewrite E. now left.
Qed.

Lemma insert_ignore_dim_stable (name : str) (t : dim_table) (r : dim_row) :
  rows_named name t = [r] -> insert_ignore_dim name t = skip_auto t.
Proof. unfold insert_ignore_dim. now intros ->. Qed.

Lemma rows_named_insert_other (name name' : str) (t : dim_table) (r : dim_row) :
  rows_named name t = [r] -> rows_named name (insert_ignore_dim name' t) = [r].
Proof.
  intro H. unfold insert_ignore_dim.
  destruct (rows_named name' t) eqn:E; [|exact H].
  rewrite rows_named_append, H.
  destruct (str_eqb name' name) eqn:En; [|reflexivity].
  apply str_eqb_eq in En. subst. rewrite H in E. discriminate.
Qed.

Lemma with_table_wf (d : dim) (t : dim_table) (s : db) :
  wf_dims s -> wf_dim t -> wf_dims (with_table d t s).
Proof.
  intros Hs Ht d'. destruct (dim_eq_dec d d') as [<- | Hne].
  - now rewrite table_with_table_same.
  - rewrite table_with_table_other by exact Hne. apply Hs.
Qed.

Lemma wf_dim_empty : wf_dim empty_dim.
Proof.
  split; simpl.
  - intros _. lia.
  - intros r [].
  - reflexivity.
Qed.

Lemma wf_empty : wf DB.empty.
Proof.
  split.
  - intros []; exact wf_dim_empty.
  - split; [reflexivity | intros p []].
Qed.

Lemma truthy_num_true (v : Z) : v <> 0 -> truthy_num v = true.
Proof. unfold truthy_num. intro H. now apply negb_true_iff, Z.eqb_neq. Qed.

Lemma truthy_str_true (name : str) : name <> [] -> truthy_str name = true.
Proof. unfold truthy_str. intro H. now apply negb_true_iff, str_eqb_neq. Qed.

Lemma get_or_create_spec (d : dim) (name : str) (s : db) :
  wf_dims s ->
  exists r,
    get_or_create d name s
    = (with_table d (insert_ignore_dim name (table d s)) s, Some (dim_id r))
    /\ rows_named name (table d (fst (get_or_create d name s))) = [r]
    /\ dim_id r <> 0.
Proof.
  intro Hwf. destruct (insert_ignore_dim_named name (table d s) (Hwf d))
    as (r & Hr & Hid & _).
  exists r. unfold get_or_create, select_dim. cbn [fst].
  rewrite table_with_table_same, Hr. auto.
Qed.

(** How the batch path resolves a label that is there. *)
Lemma resolve_spec (d : dim) (name : str) (s : db) :
  wf_dims s ->
  (d = educations \/ d = employment_types -> name <> []) ->
  exists r,
    resolve d name s
    = (with_table d (insert_ignore_dim name (table d s)) s, Some (dim_id r))
    /\ rows_named name (table d (fst (resolve d name s))) = [r]
    /\ dim_id r <> 0.
Proof.
  intros Hwf Hne.
  destruct (get_or_create_spec d name s Hwf) as (r & Hg & Hr & Hid).
  exists r. rewrite Hg in Hr. cbn [fst] in Hr.
  destruct d; unfold resolve; try (rewrite Hg; cbn [fst]; now auto).
  - rewrite (truthy_str_true name) by auto.
    unfold select_dim. rewrite Hr. cbn [first_id truthy_id fst].
    rewrite (truthy_num_true _ Hid). rewrite Hr. auto.
  - rewrite (truthy_str_true name) by auto. rewrite Hg. cbn [fst]. auto.
Qed.

Lemma resolve_wf (d : dim) (name : str) (s : db) :
  wf_dims s -> wf_dims (fst (resolve d name s)).
Proof.
  intro Hwf.
  assert (H : wf_dims (with_table d (insert_ignore_dim name (table d s)) s))
    by (apply with_table_wf; [exact Hwf | apply insert_ignore_dim_wf, Hwf]).
  destruct d; try exact H; unfold resolve; destruct (truthy_str name);
    try exact H; exact Hwf.
Qed.

Lemma upsert_dim_spec (name : str) (t : dim_table) :
  wf_dim t ->
  exists r, upsert_dim name t = (insert_ignore_dim name t, dim_id r)
            /\ rows_named name (insert_ignore_dim name t) = [r].
Proof.
  intro Hwf. destruct (insert_ignore_dim_named name t Hwf) as (r & Hr & _ & Hc).
  exists r. split; [|exact Hr].
  unfold upsert_dim, insert_ignore_dim in *.
  destruct (rows_named name t) as [|r' l] eqn:E.
  - destruct Hc as [Hc | [_ ->]]; [discriminate | reflexivity].
  - destruct Hc as [Hc | [Hc _]]; [|discriminate]. now injection Hc as -> _.
Qed.

(** C3 (amended).  On a store whose dimension tables are well formed,
    resolving a label twice gives the same non-zero id both times and
    leaves exactly one row for the label: in the batch path for every
    label of a company, experience level, location or sector and for
    every non-empty education level or employment type, and with the
    upsert statement of the API for every label. *)
Theorem resolve_label_idempotent (d : dim) (L : str) (s : db) :
  wf_dims s ->
  ((d = educations \/ d = employment_types -> L <> []) ->
   exists id,
      id <> 0
      /\ snd (resolve d L s) = Some id
      /\ snd (resolve d L (fst (resolve d L s))) = Some id
      /\ List.length (rows_named L (table d (fst (resolve d L s)))) = 1%nat
      /\ List.length
           (rows_named L (table d (fst (resolve d L (fst (resolve d L s))))))
         = 1%nat)
  /\ (exists id t1 t2,
         upsert_dim L (table d s) = (t1, id) /\ upsert_dim L t1 = (t2, id)
         /\ List.length (rows_named L t1) = 1%nat
         /\ List.length (rows_named L t2) = 1%nat).
Proof.
  intros Hwf. split.
  - intro Hne.
    destruct (resolve_spec d L s Hwf Hne) as (r & H1 & Hr1 & Hid).
    pose proof (resolve_wf d L s Hwf) as Hwf1.
    destruct (resolve_spec d L _ Hwf1 Hne) as (r' & H2 & Hr2 & _).
    rewrite H2 in Hr2. rewrite H2. clear H2.
    rewrite H1 in Hr1, Hr2. rewrite H1. clear H1.
    cbn [fst snd] in *. rewrite !table_with_table_same in *.
    rewrite (insert_ignore_dim_stable _ _ _ Hr1) in Hr2 |- *.
    change (rows_named L (skip_auto (insert_ignore_dim L (table d s))))
      with (rows_named L (insert_ignore_dim L (table d s))) in Hr2 |- *.
    rewrite Hr1 in Hr2 |- *. injection Hr2 as <-.
    exists (dim_id r). auto.
  - destruct (upsert_dim_spec L (table d s) (Hwf d)) as (r & H1 & Hr1).
    destruct (upsert_dim_spec L _ (insert_ignore_dim_wf L _ (Hwf d)))
      as (r' & H2 & Hr2).
    exists (dim_id r), (insert_ignore_dim L (table d s)),
           (insert_ignore_dim L (insert_ignore_dim L (table d s))).
    rewrite H1, H2, Hr1.
    rewrite (insert_ignore_dim_stable _ _ _ Hr1) in Hr2 |- *.
    change (rows_named L (skip_auto (insert_ignore_dim L (table d s))))
      with (rows_named L (insert_ignore_dim L (table d s))) in Hr2 |- *.
    rewrite Hr1 in Hr2 |- *. injection Hr2 as <-. auto.
Qed.

(** C3, witness: a company name resolved twice on the empty store. *)
Lemma resolve_label_idempotent_witness :
  (exists id,
      id <> 0
      /\ snd (resolve companies (js "가나다소프트") DB.empty) = Some id
      /\ snd (resolve companies (js "가나다소프트")
                (fst (resolve companies (js "가나다소프트") DB.empty))) = Some id
      /\ List.length
           (rows_named (js "가나다소프트")
              (table companies
                 (fst (resolve companies (js "가나다소프트") DB.empty)))) = 1%nat
      /\ List.length
           (rows_named (js "가나다소프트")
              (table companies
                 (fst (resolve companies (js "가나다소프트")
                         (fst (resolve companies (js "가나다소프트")
                                 DB.empty)))))) = 1%nat).
Proof.
  apply (resolve_label_idempotent companies (js "가나다소프트") DB.empty).
  - exact (proj1 wf_empty).
  - intros [H | H]; discriminate.
Defined.

(** C3, counterexample: the batch path does not resolve an empty
    education level: no id comes back and no row is written. *)
Lemma resolve_empty_education :
  resolve educations [] DB.empty = (DB.empty, None)
  /\ rows_named [] (table educations (fst (resolve educations [] DB.empty))) = [].
Proof. split; reflexivity. Qed.

(* ================================================================= *)
(** ** Batch ingestion: one posting per link *)

Ltac split_only_dim := split; [|split; [|split; [|split]]].

Lemma only_dim_refl (d : dim) (s : db) : only_dim d s s.
Proof. split_only_dim; auto. Qed.

Lemma only_dim_trans (d : dim) (s1 s2 s3 : db) :
  only_dim d s1 s2 -> only_dim d s2 s3 -> only_dim d s1 s3.
Proof.
  intros (A1 & B1 & C1 & D1 & E1) (A2 & B2 & C2 & D2 & E2).
  split_only_dim; try congruence; auto.
  intros d' Hd. now rewrite C2, C1.
Qed.

Lemma insert_only_dim (d : dim) (name : str) (s : db) :
  only_dim d s (with_table d (insert_ignore_dim name (table d s)) s).
Proof.
  split_only_dim; try reflexivity.
  - intros d' Hd. apply table_with_table_other. congruence.
  - intros name' r H. rewrite table_with_table_same.
    now apply rows_named_insert_other.
  - intro Hwf. apply with_table_wf; [exact Hwf | apply insert_ignore_dim_wf, Hwf].
Qed.

Lemma with_links_only_dim (d : dim) (j : junction) (l : list (Z * Z)) (s : db) :
  only_dim d s (with_links j l s).
Proof. split_only_dim; auto. Qed.

Lemma resolve_only_dim (d : dim) (name : str) (s : db) :
  only_dim d s (fst (resolve d name s)).
Proof.
  pose proof (insert_only_dim d name s) as H.
  destruct d; try exact H; unfold resolve; destruct (truthy_str name);
    try exact H; apply only_dim_refl.
Qed.

Lemma link_label_only_dim (d : dim) (j : junction) (pid : Z) (s : db) (name : str) :
  only_dim d s (link_label d j pid s name).
Proof.
  unfold link_label, get_or_create.
  destruct (first_id _) as [v|]; [destruct (truthy_num v)|].
  - eapply only_dim_trans; [apply insert_only_dim | apply with_links_only_dim].
  - apply insert_only_dim.
  - apply insert_only_dim.
Qed.

Lemma link_labels_only_dim (d : dim) (j : junction) (pid : Z)
    (names : list str) (s : db) :
  only_dim d s (link_labels d j pid names s).
Proof.
  unfold link_labels. revert s.
  induction names as [|name names IH]; intro s; [apply only_dim_refl|].
  simpl. eapply only_dim_trans; [apply link_label_only_dim | apply IH].
Qed.

Lemma map_if_same {A} (c : A -> bool) (l : list A) :
  map (fun q => if c q then q else q) l = l.
Proof. induction l as [|x l IH]; simpl; [|destruct (c x)]; congruence. Qed.

Lemma map_update_fresh (f : job_posting -> job_posting) (id : Z)
    (l : list job_posting) :
  (forall p, In p l -> job_posting_id p <> id) ->
  map (fun q => if job_posting_id q =? id then f q else q) l = l.
Proof.
  induction l as [|x l IH]; intro H; simpl; [reflexivity|].
  rewrite IH by (intros p Hp; apply H; now right).
  replace (job_posting_id x =? id) with false; [reflexivity|].
  symmetry. apply Z.eqb_neq, H. now left.
Qed.

Lemma filter_map_update (h : str) (c : job_posting -> bool)
    (f : job_posting -> job_posting) (l : list job_posting) :
  (forall q, link_hash (f q) = link_hash q) ->
  filter (fun p => str_eqb (link_hash p) h) (map (fun q => if c q then f q else q) l)
  = map (fun q => if c q then f q else q)
        (filter (fun p => str_eqb (link_hash p) h) l).
Proof.
  intro Hf. induction l as [|x l IH]; simpl; [reflexivity|].
  replace (link_hash (if c x then f x else x)) with (link_hash x)
    by (destruct (c x); [now rewrite Hf | reflexivity]).
  destruct (str_eqb (link_hash x) h); simpl; now rewrite IH.
Qed.

Lemma employment_update_id (name : str) (s : db) (q : job_posting) :
  job_posting_id (employment_update name s q) = job_posting_id q.
Proof. unfold employment_update. now destruct (truthy_str name). Qed.

Lemma employment_update_hash (name : str) (s : db) (q : job_posting) :
  link_hash (employment_update name s q) = link_hash q.
Proof. unfold employment_update. now destruct (truthy_str name). Qed.

Lemma employment_update_table (name : str) (s s' : db) :
  table employment_types s' = table employment_types s ->
  employment_update name s' = employment_update name s.
Proof. unfold employment_update, id_of. now intros ->. Qed.

(** The employment type block changes the employment type table,
    the junction table, and the reference of the posting. *)
Lemma link_employment_type_spec (pid : Z) (name : str) (s : db) :
  wf_dims s ->
  let s' := link_employment_type pid name s in
  t_job_postings s'
  = map (fun q => if job_posting_id q =? pid
                  then employment_update name s' q else q) (t_job_postings s)
  /\ job_postings_auto s' = job_postings_auto s
  /\ (forall d', d' <> employment_types -> table d' s' = table d' s)
  /\ wf_dims s'.
Proof.
  intros Hwf s'. subst s'. unfold link_employment_type, employment_update.
  destruct (truthy_str name) eqn:Et.
  - assert (Hne : name <> []).
    { intros ->. discriminate. }
    destruct (resolve_spec employment_types name s Hwf (fun _ => Hne))
      as (r & Hres & Hr & Hid).
    pose proof (resolve_only_dim employment_types name s) as (A & B & C & _ & E).
    rewrite Hres in *. cbn [fst] in *.
    rewrite (truthy_num_true _ Hid).
    split; [|split; [|split]].
    + unfold id_of. cbn [t_job_postings with_links with_junctions update_posting
                         with_job_postings].
      change (table employment_types (with_links ?j ?l (update_posting ?f ?i ?x)))
        with (table employment_types x).
      rewrite Hr. cbn [first_id]. now rewrite A.
    + exact B.
    + exact C.
    + exact (E Hwf).
  - unfold resolve. rewrite Et. rewrite map_if_same. auto.
Qed.

Lemma insert_ignore_posting_spec (now : Z) (r : record) (cid : Z)
    (eid : option Z) (s : db) :
  let h := Crypto.sha256_hex (r_link r) in
  let s' := insert_ignore_posting now cid (r_title r) (r_link r) h eid
              (r_deadline r) (snd (parseSectorsAndModifiedDate (r_sector r)))
              (r_salary r) s in
  (forall d, table d s' = table d s)
  /\ job_postings_auto s' = job_postings_auto s + 1
  /\ match postings_hashed h s with
     | [] =>
       t_job_postings s'
       = t_job_postings s ++ [inserted_row now r (job_postings_auto s) cid eid]
       /\ postings_hashed h s'
          = [inserted_row now r (job_postings_auto s) cid eid]
     | p :: l =>
       t_job_postings s' = t_job_postings s /\ postings_hashed h s' = p :: l
     end.
Proof.
  intros h s'. subst s'. unfold insert_ignore_posting.
  destruct (postings_hashed h s) as [|p l] eqn:E.
  - split; [reflexivity|]. split; [reflexivity|]. split; [reflexivity|].
    unfold postings_hashed in *. cbn [t_job_postings with_job_postings].
    rewrite filter_app, E. cbn [filter link_hash inserted_row app].
    fold h. now rewrite str_eqb_refl.
  - split; [reflexivity|]. split; [reflexivity|]. split; [reflexivity|].
    exact E.
Qed.

Lemma resolve_education_id (name : str) (s : db) :
  wf_dims s ->
  snd (resolve educations name s)
  = id_of educations name (fst (resolve educations name s)).
Proof.
  intro Hwf. pose proof (resolve_only_dim educations name s) as (_ & _ & _ & _ & E).
  specialize (E Hwf educations). unfold resolve in *. cbn [fst snd] in *.
  unfold id_of, select_dim.
  destruct (rows_named name _) as [|r l] eqn:Er; [reflexivity|].
  cbn [first_id truthy_id].
  rewrite truthy_num_true; [reflexivity|].
  apply (wf_ids _ E). apply (rows_named_In name). rewrite Er. now left.
Qed.

(** The association part of the loop body, after the posting row is
    there. *)
Lemma link_associations_spec (pid : Z) (r : record) (sectorsArray : list str)
    (s3 : db) :
  wf_dims s3 ->
  let s7 :=
    link_labels sectors job_posting_sectors pid sectorsArray
      (link_employment_type pid (r_employment r)
         (link_labels locations job_posting_locations pid
            (parseMultiValueField (r_location r))
            (link_labels experiences job_posting_experiences pid
               (parseMultiValueField (r_experience r)) s3))) in
  t_job_postings s7
  = map (fun q => if job_posting_id q =? pid
                  then employment_update (r_employment r) s7 q else q)
        (t_job_postings s3)
  /\ job_postings_auto s7 = job_postings_auto s3
  /\ table companies s7 = table companies s3
  /\ table educations s7 = table educations s3
  /\ wf_dims s7.
Proof.
  intros Hd3.
  pose proof (link_labels_only_dim experiences job_posting_experiences pid
                (parseMultiValueField (r_experience r)) s3) as (A4 & B4 & C4 & _ & E4).
  set (s4 := link_labels experiences _ _ _ s3) in *.
  pose proof (link_labels_only_dim locations job_posting_locations pid
                (parseMultiValueField (r_location r)) s4) as (A5 & B5 & C5 & _ & E5).
  set (s5 := link_labels locations _ _ _ s4) in *.
  destruct (link_employment_type_spec pid (r_employment r) s5 (E5 (E4 Hd3)))
    as (A6 & B6 & C6 & E6).
  set (s6 := link_employment_type _ _ s5) in *.
  pose proof (link_labels_only_dim sectors job_posting_sectors pid
                sectorsArray s6) as (A7 & B7 & C7 & _ & E7).
  set (s7 := link_labels sectors _ _ _ s6) in *.
  cbv zeta. fold s4 s5 s6 s7.
  split; [|split; [|split; [|split]]].
  - rewrite A7, A6, A5, A4.
    rewrite (employment_update_table (r_employment r) s6 s7)
      by (apply C7; discriminate).
    reflexivity.
  - congruence.
  - rewrite C7, C6, C5, C4 by discriminate. reflexivity.
  - rewrite C7, C6, C5, C4 by discriminate. reflexivity.
  - auto.
Qed.

Lemma insert_record_spec (now : Z) (s : db) (r : record) :
  wf s ->
  let s' := fst (insert_record now s r) in
  let h := Crypto.sha256_hex (r_link r) in
  wf s'
  /\ exists cid,
      id_of companies (r_company r) s' = Some cid
      /\ match postings_hashed h s with
         | [] =>
           t_job_postings s'
           = t_job_postings s
             ++ [employment_update (r_employment r) s'
                   (inserted_row now r (job_postings_auto s) cid
                      (id_of educations (r_education r) s'))]
         | p :: _ =>
           t_job_postings s'
           = map (fun q => if job_posting_id q =? job_posting_id p
                           then employment_update (r_employment r) s' q else q)
                 (t_job_postings s)
         end.
Proof.
  intros [Hd [Ha Hp]] s' h. subst s'. unfold insert_record.
  destruct (resolve_spec companies (r_company r) s Hd)
    as (rc & Hres & Hrc & Hidc); [intros [H|H]; discriminate|].
  pose proof (resolve_only_dim companies (r_company r) s) as O1.
  rewrite Hres in Hrc, O1. rewrite Hres. cbn [fst] in Hrc, O1.
  set (s1 := with_table companies _ s) in *.
  rewrite (truthy_num_true _ Hidc). cbn [negb].
  assert (Hd1 : wf_dims s1) by (now apply O1).
  pose proof (resolve_only_dim educations (r_education r) s1) as O2.
  pose proof (resolve_education_id (r_education r) s1 Hd1) as He.
  destruct (resolve educations (r_education r) s1) as [s2 eid].
  cbn [fst snd] in O2, He.
  assert (Hd2 : wf_dims s2) by (now apply O2).
  pose proof (insert_ignore_posting_spec now r (dim_id rc) eid s2)
    as (T3 & A3 & P3).
  destruct (parseSectorsAndModifiedDate (r_sector r))
    as [sectorsArray lastModifiedDate] eqn:Ep.
  cbn [snd] in T3, A3, P3.
  set (s3 := insert_ignore_posting _ _ _ _ _ _ _ _ _ s2) in *.
  fold h in P3. fold h.
  destruct O1 as (A1 & B1 & C1 & _ & _). destruct O2 as (A2 & B2 & C2 & _ & _).
  assert (Hposts2 : t_job_postings s2 = t_job_postings s) by congruence.
  assert (Hauto2 : job_postings_auto s2 = job_postings_auto s) by congruence.
  assert (Hh : postings_hashed h s2 = postings_hashed h s)
    by (unfold postings_hashed; now rewrite Hposts2).
  rewrite Hh, Hauto2, Hposts2 in P3. rewrite Hauto2 in A3.
  assert (Hd3 : wf_dims s3) by (intro d; rewrite T3; apply Hd2).
  assert (Hcompany : forall s7, table companies s7 = table companies s3 ->
            id_of companies (r_company r) s7 = Some (dim_id rc)).
  { intros s7 H7. unfold id_of.
    rewrite H7, T3, C2 by discriminate. now rewrite Hrc. }
  assert (Heducation : forall s7, table educations s7 = table educations s3 ->
            id_of educations (r_education r) s7 = eid).
  { intros s7 H7. unfold id_of in *. now rewrite H7, T3. }
  assert (Hwf7 : forall s7 pid,
            wf_dims s7 -> job_postings_auto s7 = job_postings_auto s3 ->
            t_job_postings s7
            = map (fun q => if job_posting_id q =? pid
                            then employment_update (r_employment r) s7 q else q)
                  (t_job_postings s3) ->
            (forall q, In q (t_job_postings s3) ->
                       0 < job_posting_id q < job_postings_auto s3) ->
            wf s7).
  { intros s7 pid H7 Hauto Hposts Hids. split; [exact H7|]. split; [lia|].
    intros q. rewrite Hposts, in_map_iff. intros (q0 & <- & Hq0).
    rewrite Hauto. specialize (Hids q0 Hq0).
    destruct (job_posting_id q0 =? pid); [rewrite employment_update_id|]; exact Hids. }
  destruct (postings_hashed h s) as [|p l] eqn:Eh.
  - destruct P3 as [P3 H3]. rewrite H3. cbn [job_posting_id inserted_row].
    rewrite truthy_num_true by lia. cbn [negb fst].
    destruct (link_associations_spec (job_postings_auto s) r sectorsArray s3 Hd3)
      as (A7 & B7 & C7 & D7 & E7).
    set (s7 := link_labels sectors _ _ _ _) in *.
    split.
    + apply (Hwf7 s7 (job_postings_auto s) E7 B7 A7).
      intros q. rewrite P3, in_app_iff. intros [Hq | [<- | []]].
      * specialize (Hp q Hq). lia.
      * cbn [job_posting_id inserted_row]. lia.
    + exists (dim_id rc). split; [now apply Hcompany|].
      rewrite A7, P3, map_app, (Heducation s7 D7).
      rewrite map_update_fresh
        by (intros q Hq; specialize (Hp q Hq); lia).
      cbn [map job_posting_id inserted_row]. now rewrite Z.eqb_refl.
  - destruct P3 as [P3 H3]. rewrite H3.
    assert (Hin : In p (t_job_postings s)).
    { unfold postings_hashed in Eh.
      assert (H : In p (filter (fun p => str_eqb (link_hash p) h) (t_job_postings s)))
        by (rewrite Eh; now left).
      now apply filter_In in H. }
    rewrite truthy_num_true by (specialize (Hp p Hin); lia). cbn [negb fst].
    destruct (link_associations_spec (job_posting_id p) r sectorsArray s3 Hd3)
      as (A7 & B7 & C7 & D7 & E7).
    set (s7 := link_labels sectors _ _ _ _) in *.
    split.
    + apply (Hwf7 s7 (job_posting_id p) E7 B7 A7).
      intros q. rewrite P3. intro Hq. specialize (Hp q Hq). lia.
    + exists (dim_id rc). split; [now apply Hcompany|].
      now rewrite A7, P3.
Qed.

Lemma links_with_links_same (j : junction) (l : list (Z * Z)) (s : db) :
  links j (with_links j l s) = l.
Proof. now destruct j. Qed.

Lemma junction_eq_dec (j j' : junction) : {j = j'} + {j <> j'}.
Proof. decide equality. Qed.

Lemma links_with_links_other (j j' : junction) (l : list (Z * Z)) (s : db) :
  j <> j' -> links j' (with_links j l s) = links j' s.
Proof. destruct j, j'; intro H; try reflexivity; now destruct H. Qed.

Lemma keeps_rows_refl (s : db) : keeps_rows s s.
Proof. intros d name r H. exact H. Qed.

Lemma keeps_rows_trans (s1 s2 s3 : db) :
  keeps_rows s1 s2 -> keeps_rows s2 s3 -> keeps_rows s1 s3.
Proof. intros H12 H23 d name r H. apply H23, H12, H. Qed.

Lemma keeps_links_refl (s : db) : keeps_links s s.
Proof. intros j l H. exact H. Qed.

Lemma keeps_links_trans (s1 s2 s3 : db) :
  keeps_links s1 s2 -> keeps_links s2 s3 -> keeps_links s1 s3.
Proof. intros H12 H23 j l H. apply H23, H12, H. Qed.

Lemma only_dim_keeps_rows (d : dim) (s s' : db) : only_dim d s s' -> keeps_rows s s'.
Proof.
  intros (_ & _ & Hother & Hsame & _) d' name r H.
  destruct (dim_eq_dec d' d) as [-> | Hne]; [now apply Hsame|].
  now rewrite Hother.
Qed.

Lemma linked_kept (d : dim) (j : junction) (pid : Z) (name : str) (s s' : db) :
  keeps_rows s s' -> keeps_links s s' ->
  linked d j pid name s -> linked d j pid name s'.
Proof. intros Hr Hl (r & H1 & H2). exists r. split; [now apply Hr | now apply Hl]. Qed.

Lemma has_link_In (p : Z * Z) (l : list (Z * Z)) : has_link p l = true -> In p l.
Proof.
  unfold has_link. rewrite existsb_exists. intros ([a b] & Hin & H).
  unfold pair_eqb in H. cbn [fst snd] in H.
  apply andb_true_iff in H as [Ha Hb]. apply Z.eqb_eq in Ha, Hb.
  destruct p as [x y]. cbn [fst snd] in *. now subst.
Qed.

Lemma insert_ignore_link_In (p : Z * Z) (l : list (Z * Z)) :
  In p (insert_ignore_link p l) /\ forall q, In q l -> In q (insert_ignore_link p l).
Proof.
  unfold insert_ignore_link. destruct (has_link p l) eqn:E.
  - split; [now apply has_link_In | auto].
  - split; [apply in_or_app; right; now left|].
    intros q Hq. apply in_or_app. now left.
Qed.

Lemma with_links_keeps_links (j : junction) (p : Z * Z) (s : db) :
  keeps_links s (with_links j (insert_ignore_link p (links j s)) s).
Proof.
  intros j' l H. destruct (junction_eq_dec j j') as [<- | Hne].
  - rewrite links_with_links_same.
    exact (proj2 (insert_ignore_link_In p (links j s)) l H).
  - now rewrite links_with_links_other.
Qed.

Lemma link_label_linked (d : dim) (j : junction) (pid : Z) (s : db) (name : str) :
  wf_dims s ->
  linked d j pid name (link_label d j pid s name)
  /\ keeps_links s (link_label d j pid s name).
Proof.
  intro Hwf. unfold link_label.
  destruct (get_or_create_spec d name s Hwf) as (r & Hg & Hr & Hid).
  rewrite Hg in *. cbn [fst] in Hr. rewrite (truthy_num_true _ Hid).
  set (s1 := with_table d _ s) in *. split.
  - exists r. split; [exact Hr|].
    rewrite links_with_links_same.
    exact (proj1 (insert_ignore_link_In (pid, dim_id r) (links j s1))).
  - intros j' l H. apply (with_links_keeps_links j (pid, dim_id r) s1). exact H.
Qed.

Lemma link_labels_linked (d : dim) (j : junction) (pid : Z) (names : list str)
    (s : db) :
  wf_dims s ->
  (forall name, In name names -> linked d j pid name (link_labels d j pid names s))
  /\ keeps_links s (link_labels d j pid names s).
Proof.
  unfold link_labels. revert s.
  induction names as [|name names IH]; intros s Hwf; cbn [fold_left].
  - split; [intros name [] | apply keeps_links_refl].
  - destruct (link_label_linked d j pid s name Hwf) as [H1 L1].
    pose proof (link_label_only_dim d j pid s name) as O1.
    assert (Hwf1 : wf_dims (link_label d j pid s name)) by now apply O1.
    destruct (IH _ Hwf1) as [H2 L2].
    split; [|eapply keeps_links_trans; eassumption].
    intros n [<- | Hn]; [|now apply H2].
    apply (linked_kept d j pid name (link_label d j pid s name)); [|exact L2|exact H1].
    apply (only_dim_keeps_rows d). apply (link_labels_only_dim d j pid names).
Qed.

Lemma link_employment_type_linked (pid : Z) (name : str) (s : db) :
  wf_dims s ->
  let s' := link_employment_type pid name s in
  (name <> [] ->
   linked employment_types job_posting_employment_types pid name s')
  /\ keeps_links s s' /\ keeps_rows s s'.
Proof.
  intros Hwf s'. subst s'. unfold link_employment_type.
  destruct (truthy_str name) eqn:Et.
  - assert (Hne : name <> []) by (intros ->; discriminate).
    destruct (resolve_spec employment_types name s Hwf (fun _ => Hne))
      as (r & Hres & Hr & Hid).
    pose proof (resolve_only_dim employment_types name s) as O.
    rewrite Hres in *. cbn [fst] in Hr, O. rewrite (truthy_num_true _ Hid).
    set (s1 := with_table employment_types _ s) in *.
    set (s2 := update_posting _ pid s1).
    split; [|split].
    + intros _. exists r. split; [exact Hr|].
      rewrite links_with_links_same.
      exact (proj1 (insert_ignore_link_In (pid, dim_id r)
                      (links job_posting_employment_types s2))).
    + intros j l H.
      apply (with_links_keeps_links job_posting_employment_types (pid, dim_id r) s2).
      exact H.
    + intros d n r' H. apply (only_dim_keeps_rows _ _ _ O) in H. exact H.
  - unfold resolve. rewrite Et.
    split; [|split; [apply keeps_links_refl | apply keeps_rows_refl]].
    intro Hne. apply truthy_str_true in Hne. congruence.
Qed.

(** The association rows the loop body writes for a record, after
    the posting row [pid] is there. *)
Lemma link_associations_linked (pid : Z) (r : record) (sectorsArray : list str)
    (s3 : db) :
  wf_dims s3 ->
  let s7 :=
    link_labels sectors job_posting_sectors pid sectorsArray
      (link_employment_type pid (r_employment r)
         (link_labels locations job_posting_locations pid
            (parseMultiValueField (r_location r))
            (link_labels experiences job_posting_experiences pid
               (parseMultiValueField (r_experience r)) s3))) in
  (forall name, In name (parseMultiValueField (r_experience r)) ->
                linked experiences job_posting_experiences pid name s7)
  /\ (forall name, In name (parseMultiValueField (r_location r)) ->
                   linked locations job_posting_locations pid name s7)
  /\ (r_employment r <> [] ->
      linked employment_types job_posting_employment_types pid
        (r_employment r) s7)
  /\ (forall name, In name sectorsArray ->
                   linked sectors job_posting_sectors pid name s7)
  /\ keeps_links s3 s7.
Proof.
  intros Hd3.
  pose proof (link_labels_only_dim experiences job_posting_experiences pid
                (parseMultiValueField (r_experience r)) s3) as O4.
  destruct (link_labels_linked experiences job_posting_experiences pid
              (parseMultiValueField (r_experience r)) s3 Hd3) as [H4 L4].
  set (s4 := link_labels experiences _ _ _ s3) in *.
  assert (Hd4 : wf_dims s4) by now apply O4.
  pose proof (link_labels_only_dim locations job_posting_locations pid
                (parseMultiValueField (r_location r)) s4) as O5.
  destruct (link_labels_linked locations job_posting_locations pid
              (parseMultiValueField (r_location r)) s4 Hd4) as [H5 L5].
  set (s5 := link_labels locations _ _ _ s4) in *.
  assert (Hd5 : wf_dims s5) by now apply O5.
  destruct (link_employment_type_linked pid (r_employment r) s5 Hd5)
    as (H6 & L6 & R6).
  destruct (link_employment_type_spec pid (r_employment r) s5 Hd5)
    as (_ & _ & _ & Hd6).
  set (s6 := link_employment_type _ _ s5) in *.
  pose proof (link_labels_only_dim sectors job_posting_sectors pid
                sectorsArray s6) as O7.
  destruct (link_labels_linked sectors job_posting_sectors pid
              sectorsArray s6 Hd6) as [H7 L7].
  set (s7 := link_labels sectors _ _ _ s6) in *.
  pose proof (only_dim_keeps_rows _ _ _ O5) as R5.
  pose proof (only_dim_keeps_rows _ _ _ O7) as R7.
  cbv zeta. fold s4 s5 s6 s7.
  split; [|split; [|split; [|split]]].
  - intros name Hn.
    apply (linked_kept _ _ _ _ s6 s7 R7 L7).
    apply (linked_kept _ _ _ _ s5 s6 R6 L6).
    apply (linked_kept _ _ _ _ s4 s5 R5 L5). now apply H4.
  - intros name Hn.
    apply (linked_kept _ _ _ _ s6 s7 R7 L7).
    apply (linked_kept _ _ _ _ s5 s6 R6 L6). now apply H5.
  - intro Hne. apply (linked_kept _ _ _ _ s6 s7 R7 L7). now apply H6.
  - exact H7.
  - eapply keeps_links_trans; [exact L4|].
    eapply keeps_links_trans; [exact L5|].
    eapply keeps_links_trans; [exact L6 | exact L7].
Qed.

(** The loop body on a record whose link hash a posting [p] has
    already: the association rows of the record are written for
    [p], and no junction row is lost. *)
Lemma insert_record_links (now : Z) (s : db) (r : record) (p : job_posting)
    (l : list job_posting) :
  wf s ->
  postings_hashed (Crypto.sha256_hex (r_link r)) s = p :: l ->
  let s' := fst (insert_record now s r) in
  let pid := job_posting_id p in
  (forall name, In name (parseMultiValueField (r_experience r)) ->
                linked experiences job_posting_experiences pid name s')
  /\ (forall name, In name (parseMultiValueField (r_location r)) ->
                   linked locations job_posting_locations pid name s')
  /\ (r_employment r <> [] ->
      linked employment_types job_posting_employment_types pid
        (r_employment r) s')
  /\ (forall name, In name (fst (parseSectorsAndModifiedDate (r_sector r))) ->
                   linked sectors job_posting_sectors pid name s')
  /\ keeps_links s s'.
Proof.
  intros [Hd [Ha Hp]] Eh s' pid. subst s' pid. unfold insert_record.
  destruct (resolve_spec companies (r_company r) s Hd)
    as (rc & Hres & Hrc & Hidc); [intros [H|H]; discriminate|].
  pose proof (resolve_only_dim companies (r_company r) s) as O1.
  rewrite Hres in Hrc, O1. rewrite Hres. cbn [fst] in Hrc, O1.
  set (s1 := with_table companies _ s) in *.
  rewrite (truthy_num_true _ Hidc). cbn [negb].
  assert (Hd1 : wf_dims s1) by (now apply O1).
  pose proof (resolve_only_dim educations (r_education r) s1) as O2.
  assert (L2 : forall j, links j (fst (resolve educations (r_education r) s1))
                         = links j s).
  { intro j. unfold resolve. cbn [fst]. now destruct (truthy_str (r_education r)). }
  destruct (resolve educations (r_education r) s1) as [s2 eid].
  cbn [fst snd] in O2, L2.
  assert (Hd2 : wf_dims s2) by (now apply O2).
  pose proof (insert_ignore_posting_spec now r (dim_id rc) eid s2)
    as (T3 & A3 & P3).
  assert (L3 : forall j,
             links j (insert_ignore_posting now (dim_id rc) (r_title r) (r_link r)
                        (Crypto.sha256_hex (r_link r)) eid (r_deadline r)
                        (snd (parseSectorsAndModifiedDate (r_sector r)))
                        (r_salary r) s2) = links j s).
  { intro j. rewrite <- L2. unfold insert_ignore_posting.
    now destruct (postings_hashed _ s2). }
  destruct (parseSectorsAndModifiedDate (r_sector r))
    as [sectorsArray lastModifiedDate] eqn:Ep.
  cbn [fst snd] in T3, A3, P3, L3 |- *.
  set (s3 := insert_ignore_posting _ _ _ _ _ _ _ _ _ s2) in *.
  destruct O1 as (A1 & _). destruct O2 as (A2 & _).
  assert (Hh : postings_hashed (Crypto.sha256_hex (r_link r)) s2
               = postings_hashed (Crypto.sha256_hex (r_link r)) s)
    by (unfold postings_hashed; now rewrite A2, A1).
  cbv zeta in P3. rewrite Hh, Eh in P3. destruct P3 as [P3 H3]. rewrite H3.
  assert (Hd3 : wf_dims s3) by (intro d; rewrite T3; apply Hd2).
  assert (Hin : In p (t_job_postings s)).
  { unfold postings_hashed in Eh.
    assert (H : In p (filter (fun p => str_eqb (link_hash p)
                                         (Crypto.sha256_hex (r_link r)))
                             (t_job_postings s)))
      by (rewrite Eh; now left).
    now apply filter_In in H. }
  rewrite truthy_num_true by (specialize (Hp p Hin); lia). cbn [negb fst].
  destruct (link_associations_linked (job_posting_id p) r sectorsArray s3 Hd3)
    as (H4 & H5 & H6 & H7 & L7).
  split; [exact H4|]. split; [exact H5|]. split; [exact H6|]. split; [exact H7|].
  intros j x Hx. apply L7. now rewrite L3.
Qed.

(** C2 (amended).  Two records with the same link, ingested into a
    well-formed store with no posting of that link hash, leave exactly
    one posting row with the hash.  Its title, link, hash, deadline,
    salary, last-modified date, company and education level are those
    of the first record.  Processing the second record changes no
    other posting row and, of this one, only the employment type
    reference, which it sets anew when the second record has an
    employment type.  The association rows of the second record are
    added: each of its experience levels, locations and sectors, and
    its employment type when it has one, is linked to the posting,
    and no junction row is lost. *)
Theorem insertData_same_link (now : Z) (s : db) (r1 r2 : record) :
  wf s ->
  r_link r2 = r_link r1 ->
  postings_hashed (Crypto.sha256_hex (r_link r1)) s = [] ->
  let h := Crypto.sha256_hex (r_link r1) in
  let s1 := insertData now [r1] s in
  let s2 := insertData now [r1; r2] s in
  exists p1,
    postings_hashed h s1 = [p1]
    /\ title p1 = r_title r1 /\ link p1 = r_link r1 /\ link_hash p1 = h
    /\ deadline p1 = r_deadline r1 /\ salary p1 = r_salary r1
    /\ last_modified_date p1 = snd (parseSectorsAndModifiedDate (r_sector r1))
    /\ Some (company_id p1) = id_of companies (r_company r1) s1
    /\ education_id p1 = id_of educations (r_education r1) s1
    /\ postings_hashed h s2 = [employment_update (r_employment r2) s2 p1]
    /\ t_job_postings s2
       = map (fun q => if job_posting_id q =? job_posting_id p1
                       then employment_update (r_employment r2) s2 q else q)
             (t_job_postings s1)
    /\ (forall name, In name (parseMultiValueField (r_experience r2)) ->
          linked experiences job_posting_experiences (job_posting_id p1) name s2)
    /\ (forall name, In name (parseMultiValueField (r_location r2)) ->
          linked locations job_posting_locations (job_posting_id p1) name s2)
    /\ (r_employment r2 <> [] ->
        linked employment_types job_posting_employment_types (job_posting_id p1)
          (r_employment r2) s2)
    /\ (forall name, In name (fst (parseSectorsAndModifiedDate (r_sector r2))) ->
          linked sectors job_posting_sectors (job_posting_id p1) name s2)
    /\ keeps_links s1 s2.
Proof.
  intros Hwf Hlink Hnone h s1 s2.
  change (postings_hashed h s = []) in Hnone.
  assert (E1 : s1 = fst (insert_record now s r1)) by reflexivity.
  assert (E2 : s2 = fst (insert_record now s1 r2)) by reflexivity.
  destruct (insert_record_spec now s r1 Hwf) as (Hwf1 & cid & Hcid & P1).
  rewrite <- E1 in Hwf1, Hcid, P1. fold h in P1. rewrite Hnone in P1.
  set (p0 := inserted_row now r1 (job_postings_auto s) cid
               (id_of educations (r_education r1) s1)) in *.
  set (p1 := employment_update (r_employment r1) s1 p0) in *.
  assert (Hh1 : postings_hashed h s1 = [p1]).
  { unfold postings_hashed in *. rewrite P1, filter_app, Hnone. simpl.
    unfold p1. rewrite employment_update_hash. unfold p0.
    cbn [link_hash inserted_row]. fold h. now rewrite str_eqb_refl. }
  destruct (insert_record_spec now s1 r2 Hwf1) as (_ & cid2 & _ & P2).
  rewrite <- E2, Hlink in P2. fold h in P2. rewrite Hh1 in P2.
  assert (Hfields : forall f : job_posting -> str,
            (forall v q, f (set_employment_type_id v q) = f q) -> f p1 = f p0).
  { intros f Hf. unfold p1, employment_update.
    destruct (truthy_str (r_employment r1)); [apply Hf | reflexivity]. }
  exists p1. split; [exact Hh1|].
  split; [now rewrite (Hfields title)|].
  split; [now rewrite (Hfields link)|].
  split; [now rewrite (Hfields link_hash)|].
  split; [now rewrite (Hfields deadline)|].
  split; [now rewrite (Hfields salary)|].
  split; [unfold p1, employment_update;
          now destruct (truthy_str (r_employment r1))|].
  split; [rewrite Hcid; unfold p1, employment_update;
          now destruct (truthy_str (r_employment r1))|].
  split; [unfold p1, employment_update;
          now destruct (truthy_str (r_employment r1))|].
  split; [|split; [exact P2|]].
  - unfold postings_hashed in *. rewrite P2.
    rewrite filter_map_update by apply employment_update_hash.
    rewrite Hh1. simpl. now rewrite Z.eqb_refl.
  - assert (Hh2 : postings_hashed (Crypto.sha256_hex (r_link r2)) s1 = [p1])
      by (rewrite Hlink; exact Hh1).
    pose proof (insert_record_links now s1 r2 p1 [] Hwf1 Hh2) as Hl.
    cbv zeta in Hl. rewrite <- E2 in Hl. exact Hl.
Qed.

(** C2, witness: the two sample records on the empty store. *)
Lemma insertData_same_link_witness :
  let h := Crypto.sha256_hex (r_link sample_record) in
  let s1 := insertData 0 [sample_record] DB.empty in
  let s2 := insertData 0 [sample_record; sample_again] DB.empty in
  exists p1,
    postings_hashed h s1 = [p1]
    /\ title p1 = r_title sample_record /\ link p1 = r_link sample_record
    /\ link_hash p1 = h
    /\ deadline p1 = r_deadline sample_record
    /\ salary p1 = r_salary sample_record
    /\ last_modified_date p1
       = snd (parseSectorsAndModifiedDate (r_sector sample_record))
    /\ Some (company_id p1) = id_of companies (r_company sample_record) s1
    /\ education_id p1 = id_of educations (r_education sample_record) s1
    /\ postings_hashed h s2 = [employment_update (r_employment sample_again) s2 p1]
    /\ t_job_postings s2
       = map (fun q => if job_posting_id q =? job_posting_id p1
                       then employment_update (r_employment sample_again) s2 q
                       else q)
             (t_job_postings s1)
    /\ (forall name, In name (parseMultiValueField (r_experience sample_again)) ->
          linked experiences job_posting_experiences (job_posting_id p1) name s2)
    /\ (forall name, In name (parseMultiValueField (r_location sample_again)) ->
          linked locations job_posting_locations (job_posting_id p1) name s2)
    /\ (r_employment sample_again <> [] ->
        linked employment_types job_posting_employment_types (job_posting_id p1)
          (r_employment sample_again) s2)
    /\ (forall name,
          In name (fst (parseSectorsAndModifiedDate (r_sector sample_again))) ->
          linked sectors job_posting_sectors (job_posting_id p1) name s2)
    /\ keeps_links s1 s2.
Proof.
  assert (Hnone : postings_hashed (Crypto.sha256_hex (r_link sample_record))
                    DB.empty = []) by (unfold postings_hashed; reflexivity).
  assert (Hlink : r_link sample_again = r_link sample_record) by reflexivity.
  pose proof (insertData_same_link 0 DB.empty sample_record sample_again
                wf_empty Hlink Hnone) as H.
  exact H.
Defined.

(** C2, counterexample: the second record is not a no-op on the
    posting row; its employment type replaces that of the first. *)
Lemma insertData_second_record_overwrites :
  map employment_type_id (t_job_postings (insertData 0 [sample_record] DB.empty))
  = [Some 1]
  /\ map employment_type_id
       (t_job_postings (insertData 0 [sample_record; sample_again] DB.empty))
     = [Some 2]
  /\ map title
       (t_job_postings (insertData 0 [sample_record; sample_again] DB.empty))
     = [r_title sample_record].
Proof. vm_compute. repeat split. Qed.

(* ================================================================= *)
(** ** Pagination of the listings *)

(** [ceil_div a 20] is the least number of pages of 20 that hold [a]
    items. *)
Lemma ceil_div_least (a k : Z) : 0 <= a -> (a <= 20 * k <-> ceil_div a 20 <= k).
Proof.
  intro Ha. unfold ceil_div.
  pose proof (Z.div_mod (a + 20 - 1) 20 ltac:(lia)) as Hd.
  pose proof (Z.mod_pos_bound (a + 20 - 1) 20 ltac:(lia)) as Hm.
  split; intro H; nia.
Qed.

(** C4 (amended).  The posting listing rejects a page below 1 as an
    invalid page (400).  The bookmark listing rejects a negative page
    and serves page 0 as page 1.  In both, with at least one matching
    item a page above ceil(total / 20) is rejected as an invalid page,
    and every page from 1 to ceil(total / 20) is served with the
    pagination block; with no matching item, every page from 1 on is
    answered "no results" (404), a not-found condition. *)
Theorem pagination_outcomes (s : db) :
  (forall req p, JobsAPI.page req = Some p ->
     let total := matching_total s req in
     (p <= 0 -> JobsAPI.list_jobs s req = invalid_page)
     /\ (1 <= p -> total = 0 ->
         JobsAPI.list_jobs s req = error "부합한 공고가 없습니다." 404)
     /\ (0 < total -> ceil_div total 20 < p ->
         JobsAPI.list_jobs s req = invalid_page)
     /\ (1 <= p <= ceil_div total 20 ->
         is_success (JobsAPI.list_jobs s req) = true
         /\ pagination_of (JobsAPI.list_jobs s req) = Some (page_block p total)))
  /\ (forall userId q,
        let page := BookmarksAPI.page_of q in
        let total := bookmark_total s userId in
        page <> 0
        /\ (forall t, q = Some t -> parseInt t = Some 0 -> page = 1)
        /\ (page < 0 -> BookmarksAPI.list_bookmarks s userId q = invalid_page)
        /\ (1 <= page -> total = 0 ->
            BookmarksAPI.list_bookmarks s userId q
            = error "북마크 된 공고가 없습니다." 404)
        /\ (0 < total -> ceil_div total 20 < page ->
            BookmarksAPI.list_bookmarks s userId q = invalid_page)
        /\ (1 <= page <= ceil_div total 20 ->
            is_success (BookmarksAPI.list_bookmarks s userId q) = true
            /\ pagination_of (BookmarksAPI.list_bookmarks s userId q)
               = Some (page_block page total)))
  /\ kind (@invalid_page unit) = Some Validation
  /\ kind (@error unit "부합한 공고가 없습니다." 404) = Some NotFound
  /\ kind (@error unit "북마크 된 공고가 없습니다." 404) = Some NotFound.
Proof.
  assert (Hz : forall total p, 1 <= p <= ceil_div total 20 -> total <> 0).
  { intros total p H E. subst total. change (ceil_div 0 20) with 0 in H. lia. }
  split; [|split; [|split; [|split]]]; try reflexivity.
  - intros req p Hp total. unfold JobsAPI.list_jobs. rewrite Hp.
    fold (matching_total s req). fold total.
    unfold JobsAPI.PAGE_SIZE. cbn [totalPages].
    split; [|split; [|split]].
    + intro H. now replace (p <? 1) with true by (symmetry; apply Z.ltb_lt; lia).
    + intros H E. rewrite E.
      now replace (p <? 1) with false by (symmetry; apply Z.ltb_ge; lia).
    + intros H1 H2. destruct (p <? 1) eqn:E1; [reflexivity|].
      replace (total =? 0) with false by (symmetry; apply Z.eqb_neq; lia).
      now replace (ceil_div total 20 <? p) with true
        by (symmetry; apply Z.ltb_lt; lia).
    + intro H. pose proof (Hz _ _ H).
      replace (p <? 1) with false by (symmetry; apply Z.ltb_ge; lia).
      replace (total =? 0) with false by (symmetry; apply Z.eqb_neq; lia).
      replace (ceil_div total 20 <? p) with false
        by (symmetry; apply Z.ltb_ge; lia).
      split; reflexivity.
  - intros userId q page total. unfold BookmarksAPI.list_bookmarks.
    fold page. fold (bookmark_total s userId). fold total.
    unfold BookmarksAPI.PAGE_SIZE. cbn [totalPages].
    split; [|split; [|split; [|split; [|split]]]].
    + unfold page, BookmarksAPI.page_of, truthy_num.
      destruct q as [t|]; [|discriminate].
      destruct (parseInt t) as [v|]; [|discriminate].
      destruct (Z.eqb_spec v 0); simpl; [discriminate | assumption].
    + intros t -> Ht. unfold page, BookmarksAPI.page_of. now rewrite Ht.
    + intro H. now replace (page <? 1) with true by (symmetry; apply Z.ltb_lt; lia).
    + intros H E. rewrite E.
      now replace (page <? 1) with false by (symmetry; apply Z.ltb_ge; lia).
    + intros H1 H2. destruct (page <? 1) eqn:E1; [reflexivity|].
      replace (total =? 0) with false by (symmetry; apply Z.eqb_neq; lia).
      now replace (ceil_div total 20 <? page) with true
        by (symmetry; apply Z.ltb_lt; lia).
    + intro H. pose proof (Hz _ _ H).
      replace (page <? 1) with false by (symmetry; apply Z.ltb_ge; lia).
      replace (total =? 0) with false by (symmetry; apply Z.eqb_neq; lia).
      replace (ceil_div total 20 <? page) with false
        by (symmetry; apply Z.ltb_ge; lia).
      split; reflexivity.
Qed.

(** C4, witness: pages 0 and 2 of a listing of one posting, page 3
    of an empty bookmark list, page -1 of a bookmark list. *)
Lemma pagination_outcomes_witness :
  JobsAPI.list_jobs sample_store (list_page 0) = invalid_page
  /\ JobsAPI.list_jobs sample_store (list_page 2) = invalid_page
  /\ BookmarksAPI.list_bookmarks sample_store 7 (Some (js "3"))
     = error "북마크 된 공고가 없습니다." 404
  /\ BookmarksAPI.list_bookmarks bookmarked_store 7 (Some (js "-1")) = invalid_page.
Proof.
  destruct (pagination_outcomes sample_store) as (Hj & Hb & _).
  destruct (pagination_outcomes bookmarked_store) as (_ & Hb' & _).
  destruct (Hj (list_page 0) 0 eq_refl) as (H0 & _).
  destruct (Hj (list_page 2) 2 eq_refl) as (_ & _ & H2 & _).
  destruct (Hb 7 (Some (js "3"))) as (_ & _ & _ & H3 & _).
  destruct (Hb' 7 (Some (js "-1"))) as (_ & _ & H1 & _).
  split; [|split; [|split]].
  - apply H0. discriminate.
  - apply H2; vm_compute; reflexivity.
  - apply H3; [vm_compute; discriminate | vm_compute; reflexivity].
  - apply H1. vm_compute. reflexivity.
Defined.

(** C4, counterexample: the bookmark listing serves page 0, as page
    1, and does not reject it. *)
Lemma list_bookmarks_page_zero :
  is_success (BookmarksAPI.list_bookmarks bookmarked_store 7 (Some (js "0"))) = true
  /\ pagination_of (BookmarksAPI.list_bookmarks bookmarked_store 7 (Some (js "0")))
     = Some (page_block 1 1).
Proof. vm_compute. split; reflexivity. Qed.

(* ================================================================= *)
(** ** ORDER BY and LIMIT *)

Section OrderBy.

Context {A : Type} (leb : A -> A -> bool).

Lemma insert_sorted_perm (x : A) (l : list A) :
  Permutation (x :: l) (insert_sorted leb x l).
Proof.
  induction l as [|y l IH]; simpl; [reflexivity|].
  destruct (leb x y); [reflexivity|].
  rewrite perm_swap. now constructor.
Qed.

Lemma order_by_perm (l : list A) : Permutation l (order_by leb l).
Proof.
  induction l as [|x l IH]; simpl; [constructor|].
  rewrite <- insert_sorted_perm. now constructor.
Qed.

Hypothesis leb_total : forall a b, leb a b = true \/ leb b a = true.

Lemma insert_sorted_sorted (x : A) (l : list A) :
  Sorted (fun a b => leb a b = true) l ->
  Sorted (fun a b => leb a b = true) (insert_sorted leb x l).
Proof.
  induction 1 as [|y l Hs IH Hr]; simpl; [repeat constructor|].
  destruct (leb x y) eqn:E.
  - constructor; [now constructor | now constructor].
  - constructor; [exact IH|].
    destruct (leb_total x y) as [H|H]; [congruence|].
    destruct l as [|z l]; simpl; [now constructor|].
    destruct (leb x z); constructor; [exact H | now inversion Hr].
Qed.

Lemma order_by_sorted (l : list A) :
  Sorted (fun a b => leb a b = true) (order_by leb l).
Proof.
  induction l as [|x l IH]; simpl; [constructor | now apply insert_sorted_sorted].
Qed.

End OrderBy.

Lemma StronglySorted_skipn {A} (R : A -> A -> Prop) (n : nat) (l : list A) :
  StronglySorted R l -> StronglySorted R (skipn n l).
Proof.
  revert l; induction n as [|n IH]; intros l H; [exact H|].
  destruct l as [|x l]; [exact H|]. simpl. apply IH. now inversion H.
Qed.

Lemma StronglySorted_firstn {A} (R : A -> A -> Prop) (n : nat) (l : list A) :
  StronglySorted R l -> StronglySorted R (firstn n l).
Proof.
  revert l; induction n as [|n IH]; intros l H; [constructor|].
  destruct l as [|x l]; [constructor|]. simpl. inversion H; subst.
  constructor; [now apply IH|].
  rewrite Forall_forall in *. intros y Hy. apply H3.
  rewrite <- (firstn_skipn n l). apply in_or_app. now left.
Qed.

Lemma descending_limit_offset {A} (f : A -> Z) (limit offset : Z) (l : list A) :
  descending (map f l) -> descending (map f (limit_offset limit offset l)).
Proof.
  unfold limit_offset, descending. intro H.
  rewrite <- firstn_map, <- skipn_map.
  now apply StronglySorted_firstn, StronglySorted_skipn.
Qed.

Lemma limit_offset_In {A} (limit offset : Z) (l : list A) (x : A) :
  In x (limit_offset limit offset l) -> In x l.
Proof.
  unfold limit_offset. intro H.
  rewrite <- (firstn_skipn (Z.to_nat offset) l). apply in_or_app. right.
  rewrite <- (firstn_skipn (Z.to_nat limit) (skipn (Z.to_nat offset) l)).
  apply in_or_app. now left.
Qed.

Lemma limit_offset_length {A} (limit offset : Z) (l : list A) :
  0 <= limit -> Z.of_nat (List.length (limit_offset limit offset l)) <= limit.
Proof.
  intro H. unfold limit_offset.
  pose proof (firstn_le_length (Z.to_nat limit) (skipn (Z.to_nat offset) l)). lia.
Qed.

(* ================================================================= *)
(** ** Recommendations *)

Section Recommendations.

Import RecommendationsAPI.











(** Whatever the store holds, the popular listing serves no page
    after the first. *)
Lemma popular_jobs_only_first_page (rand : Z -> Z) (s : db) (q : option str) :
  2 <= BookmarksAPI.page_of q -> is_success (popular_jobs rand s q) = false.
Proof.
  intro Hp. unfold popular_jobs.
  destruct (BookmarksAPI.page_of q <? 1); [reflexivity|].
  set (rows := limit_offset PAGE_SIZE _ _).
  pose proof (limit_offset_length PAGE_SIZE
                ((BookmarksAPI.page_of q - 1) * PAGE_SIZE)
                (popular_query rand s) ltac:(discriminate)) as Hlen.
  fold rows in Hlen.
  destruct (Z.of_nat (List.length rows) =? 0); [reflexivity|].
  cbn [totalPages]. unfold PAGE_SIZE in *.
  assert (H : ceil_div (Z.of_nat (List.length rows)) 20 <= 1)
    by (apply ceil_div_least; lia).
  replace (ceil_div (Z.of_nat (List.length rows)) 20 <? BookmarksAPI.page_of q)
    with true by (symmetry; apply Z.ltb_lt; lia).
  reflexivity.
Qed.

(** X2.  The popular listing holds viewed postings only, the most
    viewed first, however the ties are drawn. *)
Lemma popular_query_viewed_descending (rand : Z -> Z) (s : db) :
  Forall (fun p => 0 < views p) (popular_query rand s)
  /\ descending (map views (popular_query rand s)).
Proof.
  unfold popular_query. set (l := filter _ _). split.
  - apply Forall_forall. intros p Hp.
    apply (Permutation_in _ (Permutation_sym (order_by_perm _ _))) in Hp.
    apply filter_In in Hp as [_ Hp]. apply andb_true_iff in Hp as [_ Hp].
    now apply Z.ltb_lt.
  - assert (H : Sorted (fun a b => popular_order rand a b = true)
                       (order_by (popular_order rand) l)).
    { apply order_by_sorted. intros a b. unfold popular_order.
      rewrite !orb_true_iff, !andb_true_iff, !Z.ltb_lt, !Z.eqb_eq, !Z.leb_le. lia. }
    assert (Hviews : Sorted (fun a b => views a >= views b)
                            (order_by (popular_order rand) l)).
    { induction H as [|x r Hs IH Hr]; constructor; [exact IH|].
      destruct Hr as [|y r Hxy]; constructor.
      unfold popular_order in Hxy.
      rewrite orb_true_iff, andb_true_iff, Z.ltb_lt, Z.eqb_eq in Hxy. lia. }
    apply Sorted_StronglySorted in Hviews; [|intros a b c; lia].
    clear H. unfold descending.
    induction Hviews as [|x r Hs IH Hall]; simpl; constructor; [exact IH|].
    rewrite Forall_forall in *. intros n Hn.
    apply in_map_iff in Hn as (p & <- & Hp). now apply Hall.
Qed.

(** C8 (the code at the failing input).  With 25 viewed postings the
    popular listing rejects page 2 as an invalid page, and page 1
    reports one page of 20 items: the total is taken from the length
    of the fetched page. *)
Theorem popular_jobs_second_page_rejected :
  List.length (popular_query (fun _ => 0) (viewed_store 25)) = 25%nat
  /\ popular_jobs (fun _ => 0) (viewed_store 25) (Some (js "2")) = invalid_page
  /\ pagination_of (popular_jobs (fun _ => 0) (viewed_store 25) (Some (js "1")))
     = Some {| currentPage := 1; totalPages := 1; pageSize := 20;
               totalItems := 20 |}.
Proof. vm_compute. repeat split. Qed.

End Recommendations.

(* ================================================================= *)
(** ** The bookmark toggle *)

Section Bookmarks.

Import BookmarksAPI.

Lemma filter_filter_negb {A} (p : A -> bool) (l : list A) :
  filter p (filter (fun x => negb (p x)) l) = [].
Proof.
  induction l as [|x l IH]; simpl; [reflexivity|].
  destruct (p x) eqn:E; simpl; [exact IH | now rewrite E].
Qed.

Lemma filter_filter_comm {A} (p q : A -> bool) (l : list A) :
  filter p (filter q l) = filter q (filter p l).
Proof.
  induction l as [|x l IH]; simpl; [reflexivity|].
  destruct (p x) eqn:Ep, (q x) eqn:Eq; simpl; rewrite ?Ep, ?Eq, IH; reflexivity.
Qed.

Lemma toggle_absent (now : Z) (s : db) (u j : Z) :
  j <> 0 -> bookmarks_of u j s = [] ->
  exists s', toggle_bookmark now s u (Some j)
             = (s', success "북마크가 추가되었습니다." j None true)
    /\ bookmarks_of u j s'
       = [{| bm_user_id := u; bm_job_posting_id := j; bm_created_at := now |}]
    /\ t_bookmarks s'
       = t_bookmarks s
         ++ [{| bm_user_id := u; bm_job_posting_id := j; bm_created_at := now |}].
Proof.
  intros Hj Hnone. unfold toggle_bookmark, truthy_num.
  replace (j =? 0) with false by (symmetry; now apply Z.eqb_neq).
  simpl. unfold insert_bookmark. rewrite Hnone. eexists. split; [reflexivity|].
  split; [|reflexivity].
  unfold bookmarks_of in *. simpl. rewrite filter_app, Hnone. simpl.
  now rewrite !Z.eqb_refl.
Qed.

Lemma toggle_present (now : Z) (s : db) (u j : Z) :
  j <> 0 -> bookmarks_of u j s <> [] ->
  toggle_bookmark now s u (Some j)
  = (delete_bookmarks u j s, success "북마크가 제거되었습니다." j None false)
  /\ bookmarks_of u j (delete_bookmarks u j s) = [].
Proof.
  intros Hj Hsome. unfold toggle_bookmark, truthy_num.
  replace (j =? 0) with false by (symmetry; now apply Z.eqb_neq).
  simpl. destruct (bookmarks_of u j s) eqn:E; [now destruct Hsome|].
  split; [reflexivity|].
  unfold bookmarks_of, delete_bookmarks. simpl. apply filter_filter_negb.
Qed.

Lemma toggle_parity_from (nows : list Z) (u j : Z) :
  j <> 0 -> forall s,
  (bookmarks_of u j s = [] ->
   List.length (bookmarks_of u j (toggle_all nows s u j))
   = if Nat.odd (List.length nows) then 1%nat else 0%nat)
  /\ (bookmarks_of u j s <> [] -> nows <> [] ->
      List.length (bookmarks_of u j (toggle_all nows s u j))
      = if Nat.odd (List.length nows) then 0%nat else 1%nat).
Proof.
  intro Hj. induction nows as [|now nows IH]; intro s.
  - simpl. split; [now intros -> | now intros _ H].
  - change (List.length (now :: nows)) with (S (List.length nows)).
    rewrite Nat.odd_succ, <- Nat.negb_odd.
    change (toggle_all (now :: nows) s u j)
      with (toggle_all nows (fst (toggle_bookmark now s u (Some j))) u j).
    split.
    + intro H.
      destruct (toggle_absent now s u j Hj H) as (s' & -> & Hrow & _).
      cbn [fst]. destruct nows as [|now' nows'].
      * simpl. now rewrite Hrow.
      * destruct (IH s') as [_ IH']. rewrite IH'.
        -- now destruct (Nat.odd (List.length (now' :: nows'))).
        -- now rewrite Hrow.
        -- discriminate.
    + intros H _.
      destruct (toggle_present now s u j Hj H) as [-> Hgone]. cbn [fst].
      destruct (IH (delete_bookmarks u j s)) as [IH' _]. rewrite (IH' Hgone).
      now destruct (Nat.odd (List.length nows)).
Qed.

(** One toggle leaves the bookmarks of every other pair as they were. *)
Lemma toggle_frame (now : Z) (s : db) (u j : Z) (jo : option Z) (u' j' : Z) :
  (u', j') <> (u, j) -> jo = Some j \/ jo = None ->
  bookmarks_of u' j' (fst (toggle_bookmark now s u jo)) = bookmarks_of u' j' s.
Proof.
  intros Hne [-> | ->]; [|reflexivity].
  assert (Hb : (u =? u') && (j =? j') = false).
  { apply andb_false_iff.
    destruct (Z.eqb_spec u u'), (Z.eqb_spec j j'); auto. subst. now destruct Hne. }
  unfold toggle_bookmark. destruct (negb (truthy_num j)); [reflexivity|].
  destruct (bookmarks_of u j s) eqn:E.
  - unfold insert_bookmark. rewrite E. simpl. unfold bookmarks_of. simpl.
    rewrite filter_app. simpl. rewrite Hb. apply app_nil_r.
  - simpl. unfold bookmarks_of, delete_bookmarks. simpl.
    rewrite filter_filter_comm. clear E.
    induction (t_bookmarks s) as [|x xs IH]; simpl; [reflexivity|].
    destruct ((bm_user_id x =? u') && (bm_job_posting_id x =? j')) eqn:E'; simpl.
    + assert (Hx : (bm_user_id x =? u) && (bm_job_posting_id x =? j) = false).
      { apply andb_true_iff in E' as [E1 E2].
        apply Z.eqb_eq in E1, E2. rewrite E1, E2.
        now rewrite (Z.eqb_sym u' u), (Z.eqb_sym j' j). }
      rewrite Hx. simpl. now rewrite IH.
    + exact IH.
Qed.

(** C9.  For a posting id other than 0 and a pair (user, posting)
    without a bookmark, after the toggle was called an odd number of
    times the table holds exactly one row for the pair, after an even
    number of times none; the rows of every other pair stay as they
    were.  A row holds the user, the posting and the time only: being
    bookmarked is the presence of the row. *)
Theorem toggle_bookmark_parity (nows : list Z) (s : db) (userId jobPostingId : Z) :
  jobPostingId <> 0 ->
  bookmarks_of userId jobPostingId s = [] ->
  List.length (bookmarks_of userId jobPostingId
                 (toggle_all nows s userId jobPostingId))
  = (if Nat.odd (List.length nows) then 1%nat else 0%nat)
  /\ forall u' j', (u', j') <> (userId, jobPostingId) ->
       bookmarks_of u' j' (toggle_all nows s userId jobPostingId)
       = bookmarks_of u' j' s.
Proof.
  intros Hj Hnone. split.
  - now apply toggle_parity_from.
  - intros u' j' Hne. revert s Hnone.
    induction nows as [|now nows IH]; intros s Hnone; [reflexivity|].
    change (toggle_all (now :: nows) s userId jobPostingId)
      with (toggle_all nows
              (fst (toggle_bookmark now s userId (Some jobPostingId)))
              userId jobPostingId).
    clear Hnone.
    assert (G : forall s, bookmarks_of u' j' (toggle_all nows s userId jobPostingId)
                          = bookmarks_of u' j' s).
    { clear IH s. induction nows as [|n ns IHn]; intro s; [reflexivity|].
      change (toggle_all (n :: ns) s userId jobPostingId)
        with (toggle_all ns
                (fst (toggle_bookmark n s userId (Some jobPostingId)))
                userId jobPostingId).
      rewrite IHn. apply toggle_frame with (j := jobPostingId); auto. }
    rewrite G. apply toggle_frame with (j := jobPostingId); auto.
Qed.

(** C9, witness: three and two calls on the empty store. *)
Lemma toggle_bookmark_parity_witness :
  List.length (bookmarks_of 7 3 (toggle_all [10; 20; 30] DB.empty 7 3)) = 1%nat
  /\ List.length (bookmarks_of 7 3 (toggle_all [10; 20] DB.empty 7 3)) = 0%nat.
Proof.
  split.
  - exact (proj1 (toggle_bookmark_parity [10; 20; 30] DB.empty 7 3
                    ltac:(discriminate) eq_refl)).
  - exact (proj1 (toggle_bookmark_parity [10; 20] DB.empty 7 3
                    ltac:(discriminate) eq_refl)).
Defined.

End Bookmarks.

(* ================================================================= *)
(** ** Registration *)

Section Registration.

Import AuthAPI.

(** C10.  The address user@example.com matches the email pattern,
    and registration rejects it with the invalid-format answer, a
    validation error; every other address that matches the pattern
    passes the format check. *)
Theorem register_example_email_rejected :
  Regex.test emailRegex example_email = true
  /\ (forall s password name,
        truthy_str password = true -> truthy_str name = true ->
        register s {| email := Some example_email;
                      password := Some password; name := Some name |}
        = (s, invalid_email_format)
        /\ kind invalid_email_format = Some Validation)
  /\ (forall s email password name,
        Regex.test emailRegex email = true -> email <> example_email ->
        email_accepted email = true
        /\ snd (register s {| email := Some email;
                              password := password; name := name |})
           <> invalid_email_format).
Proof.
  split; [vm_compute; reflexivity|]. split.
  - intros s password name Hp Hn. split; [|reflexivity].
    unfold register. cbn [email AuthAPI.password AuthAPI.name].
    rewrite Hp, Hn.
    replace (truthy_str example_email) with true by reflexivity.
    cbn [negb orb].
    replace (Regex.test emailRegex example_email) with true
      by (vm_compute; reflexivity).
    now rewrite str_eqb_refl.
  - intros s email password name Hre Hne.
    assert (Heq : str_eqb email example_email = false) by now apply str_eqb_neq.
    split; [unfold email_accepted; now rewrite Hre, Heq|].
    unfold register. cbn [AuthAPI.email AuthAPI.password AuthAPI.name].
    destruct password as [password|]; [|discriminate].
    destruct name as [name|]; [|discriminate].
    rewrite Hre, Heq. cbn [negb orb].
    repeat match goal with
           | |- context [if ?b then _ else _] => destruct b
           | |- context [match ?l with [] => _ | _ :: _ => _ end] => destruct l
           end; cbn [snd]; discriminate.
Qed.

(** C10, witness: another address of the same domain is accepted by
    the format check; the example address is a validation error. *)
Lemma register_example_email_witness :
  email_accepted (js "someone@example.com") = true
  /\ kind (snd (register DB.empty
                  {| email := Some example_email; password := Some (js "pw1!");
                     name := Some (js "홍길동") |})) = Some Validation.
Proof.
  destruct register_example_email_rejected as (_ & H1 & H2). split.
  - apply (H2 DB.empty (js "someone@example.com") None None);
      [reflexivity | discriminate].
  - destruct (H1 DB.empty (js "pw1!") (js "홍길동") eq_refl eq_refl) as [-> H].
    exact H.
Defined.

End Registration.

(* ================================================================= *)
(** ** Ownership of a posting *)

(** Whatever [executeTransaction] does, the update handler never
    answers Forbidden: the two SELECT statements it queues for the
    existence and the ownership of the posting are never looked at. *)
Lemma updateJobPosting_never_forbidden
    (exec : list JobsAPI.query -> db -> option db) (s : db) (id userId : Z)
    (body : JobsAPI.update_request) :
  kind (snd (JobsAPI.updateJobPosting_with exec s id userId body)) <> Some Forbidden.
Proof.
  unfold JobsAPI.updateJobPosting_with.
  destruct (_ && _); [discriminate|].
  destruct (exec _ s); discriminate.
Qed.

(** X1.  The delete handler checks the owner: a caller who is not the
    owner of the posting gets Forbidden and the store stays as it is. *)
Lemma deleteJobPosting_forbidden (s : db) (id userId : Z) (job0 : job_posting)
    (rest : list job_posting) :
  find_posting id s = job0 :: rest -> user_id job0 <> Some userId ->
  JobsAPI.deleteJobPosting s (Some id) userId
  = (s, error "이 공고를 삭제할 권한이 없습니다." 403)
  /\ kind (snd (JobsAPI.deleteJobPosting s (Some id) userId)) = Some Forbidden.
Proof.
  intros Hfind Howner. unfold JobsAPI.deleteJobPosting. rewrite Hfind.
  assert (H : JobsAPI.differs (user_id job0) userId = true).
  { unfold JobsAPI.differs. destruct (user_id job0) as [u|]; [|reflexivity].
    apply negb_true_iff, Z.eqb_neq. congruence. }
  rewrite H. split; reflexivity.
Qed.

(** X1, witness: user 2 asks to delete posting 1 of user 1. *)
Lemma deleteJobPosting_forbidden_witness :
  JobsAPI.deleteJobPosting sample_store (Some 1) 2
  = (sample_store, error "이 공고를 삭제할 권한이 없습니다." 403).
Proof.
  destruct (find_posting 1 sample_store) as [|job0 rest] eqn:E;
    [vm_compute in E; discriminate|].
  assert (Ho : user_id job0 <> Some 2).
  { vm_compute in E. injection E as <- _. discriminate. }
  exact (proj1 (deleteJobPosting_forbidden sample_store 1 2 job0 rest E Ho)).
Defined.

(** C1 (the code at the failing input).  Posting 1 belongs to user 1;
    user 2 asks for a new title: the handler answers 200 and the
    title is changed. *)
Theorem updateJobPosting_by_stranger :
  map user_id (find_posting 1 sample_store) = [Some 1]
  /\ map title (find_posting 1 sample_store) = [js "백엔드 개발자"]
  /\ http_status
       (snd (JobsAPI.updateJobPosting (js "2024-12-01 09:00:00") sample_store 1 2
               (retitle (js "가로챈 공고")))) = 200
  /\ map title
       (find_posting 1
          (fst (JobsAPI.updateJobPosting (js "2024-12-01 09:00:00") sample_store 1 2
                  (retitle (js "가로챈 공고")))))
     = [js "가로챈 공고"].
Proof. vm_compute. repeat split. Qed.

(* ================================================================= *)
(** ** Lists *)

Lemma find_app_some {A} (f : A -> bool) (l l' : list A) (x : A) :
  find f l = Some x -> find f (l ++ l') = Some x.
Proof.
  induction l as [|a l IH]; [discriminate|]. cbn.
  destruct (f a); [auto | exact IH].
Qed.

Lemma map_ext_in_id {A} (f : A -> A) (l : list A) :
  (forall x, In x l -> f x = x) -> map f l = l.
Proof.
  intro H. induction l as [|a l IH]; [reflexivity|]. cbn.
  rewrite H by now left. f_equal. apply IH. intros x Hx. apply H. now right.
Qed.

Lemma firstn_incl {A} (n : nat) (l : list A) (x : A) :
  In x (firstn n l) -> In x l.
Proof. intro H. rewrite <- (firstn_skipn n l). apply in_or_app. now left. Qed.

Lemma flat_map_concat_map' {A B} (f : A -> list B) (l : list A) :
  flat_map f l = List.concat (map f l).
Proof. induction l as [|a l IH]; [reflexivity|]. cbn. now rewrite IH. Qed.

Lemma concat_map_map {A B} (f : A -> B) (ls : list (list A)) :
  List.concat (map (map f) ls) = map f (List.concat ls).
Proof.
  induction ls as [|l ls IH]; [reflexivity|]. cbn. now rewrite IH, map_app.
Qed.

Lemma StronglySorted_weaken {A} (R R' : A -> A -> Prop) (l : list A) :
  (forall a b, R a b -> R' a b) -> StronglySorted R l -> StronglySorted R' l.
Proof.
  intros H Hs. induction Hs as [|a l Hs IH Hall]; constructor; [exact IH|].
  eapply Forall_impl; [|exact Hall]. intros b. apply H.
Qed.

Lemma filter_none {A} (f : A -> bool) (l : list A) :
  (forall x, In x l -> f x = false) -> filter f l = [].
Proof.
  intro H. induction l as [|a l IH]; [reflexivity|]. cbn.
  rewrite H by now left. apply IH. intros x Hx. apply H. now right.
Qed.

(* ================================================================= *)
(** ** The ingestion loop: what every batch keeps *)

Lemma grows_refl (s : db) : grows s s.
Proof. intro d. exists []. now rewrite app_nil_r. Qed.

Lemma grows_trans (s1 s2 s3 : db) : grows s1 s2 -> grows s2 s3 -> grows s1 s3.
Proof.
  intros H12 H23 d. destruct (H12 d) as [e1 E1]. destruct (H23 d) as [e2 E2].
  exists (e1 ++ e2). now rewrite E2, E1, app_assoc.
Qed.

Lemma grows_same_dims (s s' : db) : db_dims s' = db_dims s -> grows s s'.
Proof. intros H d. exists []. unfold table. now rewrite H, app_nil_r. Qed.

Lemma insert_grows (d : dim) (name : str) (s : db) :
  grows s (with_table d (insert_ignore_dim name (table d s)) s).
Proof.
  intro d'. destruct (dim_eq_dec d d') as [<- | Hne].
  - rewrite table_with_table_same. unfold insert_ignore_dim.
    destruct (rows_named name (table d s)).
    + now exists [{| dim_id := dim_auto (table d s); dim_name := name |}].
    + exists []. cbn. now rewrite app_nil_r.
  - rewrite table_with_table_other by assumption. exists []. now rewrite app_nil_r.
Qed.

Lemma get_or_create_grows (d : dim) (name : str) (s : db) :
  grows s (fst (get_or_create d name s)).
Proof. apply insert_grows. Qed.

Lemma resolve_grows (d : dim) (name : str) (s : db) :
  grows s (fst (resolve d name s)).
Proof.
  unfold resolve. destruct d; try apply insert_grows.
  - cbn [fst]. destruct (truthy_str name); [apply insert_grows | apply grows_refl].
  - destruct (truthy_str name); [apply insert_grows | apply grows_refl].
Qed.

Lemma link_label_grows (d : dim) (j : junction) (pid : Z) (s : db) (name : str) :
  grows s (link_label d j pid s name).
Proof.
  unfold link_label. pose proof (get_or_create_grows d name s) as H.
  destruct (get_or_create d name s) as [s1 [v|]]; cbn [fst] in H; [|exact H].
  destruct (truthy_num v); [|exact H].
  apply (grows_trans _ s1); [exact H|]. now apply grows_same_dims.
Qed.

Lemma link_labels_grows (d : dim) (j : junction) (pid : Z) (names : list str)
    (s : db) :
  grows s (link_labels d j pid names s).
Proof.
  unfold link_labels. revert s.
  induction names as [|n l IH]; intro s; [apply grows_refl|].
  cbn [fold_left]. eapply grows_trans; [apply link_label_grows | apply IH].
Qed.

Lemma link_employment_type_grows (pid : Z) (name : str) (s : db) :
  grows s (link_employment_type pid name s).
Proof.
  unfold link_employment_type.
  pose proof (resolve_grows employment_types name s) as H.
  destruct (resolve employment_types name s) as [s1 [v|]]; cbn [fst] in H;
    [|exact H].
  destruct (truthy_num v); [|exact H].
  apply (grows_trans _ s1); [exact H|]. now apply grows_same_dims.
Qed.

Lemma insert_ignore_posting_grows (now cid : Z) (t l h : str) (eid : option Z)
    (dl : str) (lm : option str) (sal : str) (s : db) :
  grows s (insert_ignore_posting now cid t l h eid dl lm sal s).
Proof.
  apply grows_same_dims. unfold insert_ignore_posting.
  now destruct (postings_hashed h s).
Qed.

(** Whatever becomes of a record, it takes no row out of a dimension
    table. *)
Lemma insert_record_grows (now : Z) (s : db) (r : record) :
  grows s (fst (insert_record now s r)).
Proof.
  unfold insert_record.
  pose proof (resolve_grows companies (r_company r) s) as H1.
  destruct (resolve companies (r_company r) s) as [s1 [cid|]]; cbn [fst] in H1;
    [|exact H1].
  destruct (truthy_num cid); cbn [negb]; [|exact H1].
  pose proof (resolve_grows educations (r_education r) s1) as H2.
  destruct (resolve educations (r_education r) s1) as [s2 eid]. cbn [fst] in H2.
  destruct (parseSectorsAndModifiedDate (r_sector r)) as [sectorsArray lm].
  set (s3 := insert_ignore_posting _ _ _ _ _ _ _ _ _ s2).
  assert (H3 : grows s s3).
  { eapply grows_trans; [exact H1|]. eapply grows_trans; [exact H2|].
    apply insert_ignore_posting_grows. }
  destruct (postings_hashed _ s3) as [|p l]; [exact H3|].
  destruct (truthy_num (job_posting_id p)); cbn [negb fst]; [|exact H3].
  eapply grows_trans; [exact H3|].
  eapply grows_trans; [apply link_labels_grows|].
  eapply grows_trans; [apply link_labels_grows|].
  eapply grows_trans; [apply link_employment_type_grows|].
  apply link_labels_grows.
Qed.

Lemma insertData_grows (now : Z) (dataArray : list record) (s : db) :
  grows s (insertData now dataArray s).
Proof.
  unfold insertData. revert s.
  induction dataArray as [|r l IH]; intro s; [apply grows_refl|].
  cbn [fold_left]. eapply grows_trans; [apply insert_record_grows | apply IH].
Qed.

Lemma insertData_cons (now : Z) (r : record) (l : list record) (s : db) :
  insertData now (r :: l) s = insertData now l (fst (insert_record now s r)).
Proof. reflexivity. Qed.

(** On a well-formed store the loop body runs to its end. *)
Lemma insert_record_goes_through (now : Z) (s : db) (r : record) :
  wf s -> snd (insert_record now s r) = true.
Proof.
  intros [Hd [Ha Hp]]. unfold insert_record.
  destruct (resolve_spec companies (r_company r) s Hd)
    as (rc & Hres & Hrc & Hidc); [intros [H|H]; discriminate|].
  pose proof (resolve_only_dim companies (r_company r) s) as O1.
  rewrite Hres in Hrc, O1. rewrite Hres. cbn [fst] in Hrc, O1.
  set (s1 := with_table companies _ s) in *.
  rewrite (truthy_num_true _ Hidc). cbn [negb].
  assert (Hd1 : wf_dims s1) by (now apply O1).
  pose proof (resolve_only_dim educations (r_education r) s1) as O2.
  destruct (resolve educations (r_education r) s1) as [s2 eid].
  cbn [fst snd] in O2.
  pose proof (insert_ignore_posting_spec now r (dim_id rc) eid s2)
    as (T3 & A3 & P3).
  destruct (parseSectorsAndModifiedDate (r_sector r))
    as [sectorsArray lastModifiedDate] eqn:Ep.
  cbn [snd] in T3, A3, P3.
  set (s3 := insert_ignore_posting _ _ _ _ _ _ _ _ _ s2) in *.
  destruct O1 as (A1 & B1 & C1 & _ & _). destruct O2 as (A2 & B2 & C2 & _ & _).
  assert (Hposts2 : t_job_postings s2 = t_job_postings s) by congruence.
  assert (Hauto2 : job_postings_auto s2 = job_postings_auto s) by congruence.
  assert (Hh : postings_hashed (Crypto.sha256_hex (r_link r)) s2
               = postings_hashed (Crypto.sha256_hex (r_link r)) s)
    by (unfold postings_hashed; now rewrite Hposts2).
  rewrite Hh, Hauto2, Hposts2 in P3.
  destruct (postings_hashed (Crypto.sha256_hex (r_link r)) s) as [|p l] eqn:Eh.
  - destruct P3 as [P3 H3]. rewrite H3. cbn [job_posting_id inserted_row].
    rewrite truthy_num_true by lia. reflexivity.
  - destruct P3 as [P3 H3]. rewrite H3.
    assert (Hin : In p (t_job_postings s)).
    { unfold postings_hashed in Eh.
      assert (H : In p (filter (fun p => str_eqb (link_hash p)
                                           (Crypto.sha256_hex (r_link r)))
                               (t_job_postings s)))
        by (rewrite Eh; now left).
      now apply filter_In in H. }
    rewrite truthy_num_true by (specialize (Hp p Hin); lia). reflexivity.
Qed.

Lemma insert_record_wf (now : Z) (s : db) (r : record) :
  wf s -> wf (fst (insert_record now s r)).
Proof. intro H. apply (insert_record_spec now s r H). Qed.

(** X3.  Ingestion keeps the store well formed and drops no record:
    on a well-formed store the company id and the posting id the loop
    body reads back are always found, so neither of its two errors is
    thrown for any record of any batch, and the store is well formed
    afterwards. *)
Theorem insertData_wf (now : Z) (dataArray : list record) (s : db) :
  wf s ->
  wf (insertData now dataArray s)
  /\ all_went_through now dataArray s = true.
Proof.
  revert s. induction dataArray as [|r l IH]; intros s H.
  - split; [exact H | reflexivity].
  - rewrite insertData_cons. cbn [all_went_through].
    rewrite (insert_record_goes_through now s r H). cbn [andb].
    apply IH. now apply insert_record_wf.
Qed.

(** X3, witness: the sample record and its second scrape, ingested
    into the empty store. *)
Lemma insertData_wf_witness :
  wf (insertData 0 [sample_record; sample_again] DB.empty)
  /\ all_went_through 0 [sample_record; sample_again] DB.empty = true.
Proof. exact (insertData_wf 0 [sample_record; sample_again] DB.empty wf_empty). Defined.

Lemma employment_update_company (name : str) (s : db) (q : job_posting) :
  company_id (employment_update name s q) = company_id q.
Proof. unfold employment_update. now destruct (truthy_str name). Qed.

Lemma insert_record_unique_hashes (now : Z) (s : db) (r : record) :
  wf s -> unique_hashes s -> unique_hashes (fst (insert_record now s r)).
Proof.
  intros Hwf Hu h'.
  destruct (insert_record_spec now s r Hwf) as (_ & cid & _ & Hposts).
  cbv zeta in Hposts. unfold postings_hashed at 1.
  destruct (postings_hashed (Crypto.sha256_hex (r_link r)) s) as [|p l] eqn:Eh.
  - rewrite Hposts, filter_app, length_app. cbn [filter].
    rewrite employment_update_hash. cbn [link_hash inserted_row].
    destruct (str_eqb (Crypto.sha256_hex (r_link r)) h') eqn:E.
    + apply str_eqb_eq in E. subst h'. unfold postings_hashed in Eh.
      rewrite Eh. cbn. lia.
    + specialize (Hu h'). unfold postings_hashed in Hu. cbn. lia.
  - rewrite Hposts, filter_map_update by apply employment_update_hash.
    rewrite length_map. apply Hu.
Qed.

(** X4.  Ingestion never stores two postings with the same link
    hash, whatever links the batch repeats. *)
Theorem insertData_unique_hashes (now : Z) (dataArray : list record) (s : db) :
  wf s -> unique_hashes s -> unique_hashes (insertData now dataArray s).
Proof.
  revert s. induction dataArray as [|r l IH]; intros s Hwf Hu; [exact Hu|].
  rewrite insertData_cons. apply IH.
  - now apply insert_record_wf.
  - now apply insert_record_unique_hashes.
Qed.

Lemma unique_hashes_empty : unique_hashes DB.empty.
Proof. intro h. cbn. lia. Qed.

(** X4, witness: the same link ingested twice into the empty store. *)
Lemma insertData_unique_hashes_witness :
  unique_hashes (insertData 0 [sample_record; sample_again] DB.empty).
Proof.
  exact (insertData_unique_hashes 0 [sample_record; sample_again] DB.empty
           wf_empty unique_hashes_empty).
Defined.

Lemma has_company_grows (s s' : db) (p q : job_posting) :
  grows s s' -> company_id q = company_id p ->
  RecommendationsAPI.has_company s p = true ->
  RecommendationsAPI.has_company s' q = true.
Proof.
  intros Hg Hc. unfold RecommendationsAPI.has_company, company_of.
  destruct (Hg companies) as [extra ->]. rewrite Hc.
  destruct (find _ (dim_rows (table companies s))) as [c|] eqn:E; [|discriminate].
  now rewrite (find_app_some _ _ extra c E).
Qed.

Lemma has_company_of_id (name : str) (s : db) (p : job_posting) :
  id_of companies name s = Some (company_id p) ->
  RecommendationsAPI.has_company s p = true.
Proof.
  unfold id_of, first_id, RecommendationsAPI.has_company, company_of.
  destruct (rows_named name (table companies s)) as [|c l] eqn:E; [discriminate|].
  intros [= Hc].
  destruct (find _ _) eqn:F; [reflexivity|].
  assert (Hin : In c (dim_rows (table companies s))).
  { apply (rows_named_In name). rewrite E. now left. }
  apply (find_none _ _ F) in Hin. rewrite Hc, Z.eqb_refl in Hin. discriminate.
Qed.

Lemma insert_record_companies_present (now : Z) (s : db) (r : record) :
  wf s -> companies_present s ->
  companies_present (fst (insert_record now s r)).
Proof.
  intros Hwf Hc q Hq.
  pose proof (insert_record_grows now s r) as Hg.
  destruct (insert_record_spec now s r Hwf) as (_ & cid & Hcid & Hposts).
  cbv zeta in Hposts.
  destruct (postings_hashed (Crypto.sha256_hex (r_link r)) s) as [|p l] eqn:Eh.
  - rewrite Hposts in Hq. apply in_app_iff in Hq as [Hq | [<- | []]].
    + apply (has_company_grows s _ q q Hg eq_refl). now apply Hc.
    + apply (has_company_of_id (r_company r)).
      now rewrite employment_update_company.
  - rewrite Hposts in Hq. apply in_map_iff in Hq as (q0 & <- & Hq0).
    apply (has_company_grows s _ q0 _ Hg); [|now apply Hc].
    destruct (job_posting_id q0 =? job_posting_id p);
      [apply employment_update_company | reflexivity].
Qed.

(** X5.  Ingestion keeps every posting joined to a company: the
    company of a record is resolved before its posting is written, and
    no company row is removed. *)
Theorem insertData_companies_present (now : Z) (dataArray : list record)
    (s : db) :
  wf s -> companies_present s -> companies_present (insertData now dataArray s).
Proof.
  revert s. induction dataArray as [|r l IH]; intros s Hwf Hc; [exact Hc|].
  rewrite insertData_cons. apply IH.
  - now apply insert_record_wf.
  - now apply insert_record_companies_present.
Qed.

Lemma companies_present_empty : companies_present DB.empty.
Proof. intros p []. Qed.

(** X5, witness: two records ingested into the empty store. *)
Lemma insertData_companies_present_witness :
  companies_present (insertData 0 [sample_record; sample_again] DB.empty).
Proof.
  exact (insertData_companies_present 0 [sample_record; sample_again] DB.empty
           wf_empty companies_present_empty).
Defined.

(* ================================================================= *)
(** ** Pages of a listing *)

Lemma limit_offset_next {A} (i : nat) (l : list A) :
  limit_offset 20 (20 * Z.of_nat (S i)) l
  = limit_offset 20 (20 * Z.of_nat i) (skipn 20 l).
Proof.
  unfold limit_offset. f_equal.
  replace (Z.to_nat (20 * Z.of_nat (S i))) with (Z.to_nat (20 * Z.of_nat i) + 20)%nat
    by lia.
  now rewrite skipn_skipn.
Qed.

(** The pages of a list, one after the other, are the list. *)
Lemma limit_offset_pages {A} (n : nat) (l : list A) :
  (List.length l <= 20 * n)%nat ->
  List.concat (map (fun i => limit_offset 20 (20 * Z.of_nat i) l) (seq 0 n)) = l.
Proof.
  revert l. induction n as [|n IH]; intros l Hl.
  - destruct l; [reflexivity | cbn in Hl; lia].
  - cbn [seq map List.concat]. rewrite <- seq_shift, map_map.
    rewrite (map_ext _ (fun i => limit_offset 20 (20 * Z.of_nat i) (skipn 20 l)))
      by (intro i; apply limit_offset_next).
    rewrite IH by (rewrite length_skipn; lia).
    unfold limit_offset. cbn [Z.of_nat Z.mul Z.to_nat skipn].
    change (Z.to_nat 20) with 20%nat. apply firstn_skipn.
Qed.

Lemma ceil_div_pages (total : Z) :
  0 <= total -> total <= 20 * Z.of_nat (Z.to_nat (ceil_div total 20)).
Proof.
  intro H. assert (0 <= ceil_div total 20).
  { unfold ceil_div. apply Z.div_pos; lia. }
  rewrite Z2Nat.id by assumption. now apply ceil_div_least.
Qed.

Lemma in_pages (total p : Z) :
  In p (pages total) <-> 1 <= p <= ceil_div total 20.
Proof.
  unfold pages. rewrite in_map_iff. split.
  - intros (i & <- & Hi). apply in_seq in Hi. lia.
  - intro H. exists (Z.to_nat (p - 1)). split; [lia|]. apply in_seq. lia.
Qed.

(** The answer to a page in range. *)
Lemma list_jobs_in_range (s : db) (req : JobsAPI.list_request) (p : Z) :
  JobsAPI.page req = Some p ->
  1 <= p <= ceil_div (matching_total s req) 20 ->
  JobsAPI.list_jobs s req
  = success "공고 조회 성공"
      (map (JobsAPI.format_row req s)
         (limit_offset 20 ((p - 1) * 20)
            (order_by (JobsAPI.listing_order req)
               (filter (JobsAPI.matches req s) (t_job_postings s)))))
      (Some (page_block p (matching_total s req))) false.
Proof.
  intros Hp H. unfold JobsAPI.list_jobs. rewrite Hp.
  fold (matching_total s req). unfold JobsAPI.PAGE_SIZE. cbn [totalPages].
  assert (Hz : matching_total s req <> 0).
  { intro E. rewrite E in H. change (ceil_div 0 20) with 0 in H. lia. }
  replace (p <? 1) with false by (symmetry; apply Z.ltb_ge; lia).
  replace (matching_total s req =? 0) with false
    by (symmetry; apply Z.eqb_neq; lia).
  replace (ceil_div (matching_total s req) 20 <? p) with false
    by (symmetry; apply Z.ltb_ge; lia).
  reflexivity.
Qed.

(** X6.  The pages of the posting listing, from the first to the
    last, hold every matching posting exactly once, in the order of
    the query; without a sort parameter that is the newest first. *)
Theorem list_jobs_pages (s : db) (req : JobsAPI.list_request) :
  let matching := filter (JobsAPI.matches req s) (t_job_postings s) in
  let ordered := order_by (JobsAPI.listing_order req) matching in
  flat_map (fun p => served (JobsAPI.list_jobs s (on_page req p)))
           (pages (matching_total s req))
  = map (JobsAPI.format_row req s) ordered
  /\ Permutation ordered matching
  /\ (JobsAPI.sort req = None -> StronglySorted newest_first ordered).
Proof.
  intros matching ordered. split; [|split].
  - assert (Hpage : forall p, In p (pages (matching_total s req)) ->
              served (JobsAPI.list_jobs s (on_page req p))
              = map (JobsAPI.format_row req s)
                    (limit_offset 20 ((p - 1) * 20) ordered)).
    { intros p Hp. apply in_pages in Hp.
      rewrite (list_jobs_in_range s (on_page req p) p eq_refl Hp). reflexivity. }
    rewrite flat_map_concat_map'.
    rewrite (map_ext_in _ _ _ Hpage).
    unfold pages. rewrite map_map.
    rewrite (map_ext _ (fun i => map (JobsAPI.format_row req s)
                                   (limit_offset 20 (20 * Z.of_nat i) ordered)))
      by (intro i; do 2 f_equal; lia).
    rewrite <- (map_map (fun i => limit_offset 20 (20 * Z.of_nat i) ordered)
                        (map (JobsAPI.format_row req s))).
    rewrite concat_map_map. f_equal. apply limit_offset_pages.
    assert (Hlen : List.length ordered = List.length matching).
    { apply Permutation_length, Permutation_sym, order_by_perm. }
    assert (Ht : matching_total s req = Z.of_nat (List.length matching))
      by reflexivity.
    pose proof (ceil_div_pages (matching_total s req)) as H. lia.
  - apply Permutation_sym, order_by_perm.
  - intro Hs.
    assert (H : Sorted (fun a b => JobsAPI.listing_order req a b = true) ordered).
    { apply order_by_sorted. intros a b. unfold JobsAPI.listing_order.
      rewrite Hs, !orb_true_iff, !andb_true_iff, !Z.ltb_lt, !Z.eqb_eq, !Z.leb_le.
      lia. }
    apply Sorted_StronglySorted in H.
    + eapply StronglySorted_weaken; [|exact H].
      intros a b. unfold JobsAPI.listing_order, newest_first.
      rewrite Hs, orb_true_iff, andb_true_iff, Z.ltb_lt, Z.eqb_eq, Z.leb_le. auto.
    + intros a b c. unfold JobsAPI.listing_order.
      rewrite Hs, !orb_true_iff, !andb_true_iff, !Z.ltb_lt, !Z.eqb_eq, !Z.leb_le.
      lia.
Qed.

(** X6, witness: the unfiltered listing of the store with two
    postings. *)
Lemma list_jobs_pages_witness :
  flat_map (fun p => served (JobsAPI.list_jobs two_postings (on_page (list_page 1) p)))
           (pages (matching_total two_postings (list_page 1)))
  = map (JobsAPI.format_row (list_page 1) two_postings)
        (order_by (JobsAPI.listing_order (list_page 1))
           (filter (JobsAPI.matches (list_page 1) two_postings)
                   (t_job_postings two_postings)))
  /\ StronglySorted newest_first
       (order_by (JobsAPI.listing_order (list_page 1))
          (filter (JobsAPI.matches (list_page 1) two_postings)
                  (t_job_postings two_postings))).
Proof.
  destruct (list_jobs_pages two_postings (list_page 1)) as (H1 & _ & H3).
  split; [exact H1 | exact (H3 eq_refl)].
Defined.

(* ================================================================= *)
(** ** The search by sector *)

(** X7.  The outcomes of the search by sector: a page below 1 is
    rejected first, then a missing or empty keyword; with a keyword, no
    match is "no postings" (404), a page above the last is an invalid
    page, and every page from 1 to the last is served with its
    pagination block. *)
Theorem sector_jobs_outcomes (s : db) (keyword : option str) (page : option Z) :
  let p := match page with Some p => p | None => 1 end in
  (p <= 0 -> JobsAPI.sector_jobs s keyword page = invalid_page)
  /\ (1 <= p -> JobsAPI.truthy_opt_str keyword = false ->
      JobsAPI.sector_jobs s keyword page = error "키워드는 필수입니다." 400)
  /\ (forall k, keyword = Some k -> k <> [] ->
        let total := sector_total s k in
        (1 <= p -> total = 0 ->
         JobsAPI.sector_jobs s keyword page
         = error "해당 직무 관련 공고가 없습니다." 404)
        /\ (0 < total -> ceil_div total 20 < p ->
            JobsAPI.sector_jobs s keyword page = invalid_page)
        /\ (1 <= p <= ceil_div total 20 ->
            JobsAPI.sector_jobs s keyword page
            = success "직무 관련 공고 조회 성공"
                (map (JobsAPI.sector_row (contains_pattern k) s)
                   (limit_offset 20 ((p - 1) * 20)
                      (JobsAPI.sector_query (contains_pattern k) s)))
                (Some (page_block p total)) false)).
Proof.
  intro p. unfold JobsAPI.sector_jobs. fold p.
  split; [|split].
  - intro H. now replace (p <? 1) with true by (symmetry; apply Z.ltb_lt; lia).
  - intros H Hk. rewrite Hk.
    now replace (p <? 1) with false by (symmetry; apply Z.ltb_ge; lia).
  - intros k -> Hk.
    change (JobsAPI.truthy_opt_str (Some k)) with (truthy_str k).
    rewrite (truthy_str_true k Hk). cbn [negb].
    fold (sector_total s k). set (total := sector_total s k).
    unfold JobsAPI.PAGE_SIZE. cbn [totalPages].
    split; [|split].
    + intros H E. rewrite E.
      now replace (p <? 1) with false by (symmetry; apply Z.ltb_ge; lia).
    + intros H1 H2. destruct (p <? 1) eqn:E1; [reflexivity|].
      replace (total =? 0) with false by (symmetry; apply Z.eqb_neq; lia).
      now replace (ceil_div total 20 <? p) with true
        by (symmetry; apply Z.ltb_lt; lia).
    + intro H.
      assert (Hz : total <> 0).
      { intro E. rewrite E in H. change (ceil_div 0 20) with 0 in H. lia. }
      replace (p <? 1) with false by (symmetry; apply Z.ltb_ge; lia).
      replace (total =? 0) with false by (symmetry; apply Z.eqb_neq; lia).
      replace (ceil_div total 20 <? p) with false
        by (symmetry; apply Z.ltb_ge; lia).
      reflexivity.
Qed.




(** X7, witness: two postings with the sector 백엔드, none with 회계. *)
Lemma sector_jobs_outcomes_witness :
  is_success (JobsAPI.sector_jobs two_postings (Some (js "백엔드")) None) = true
  /\ JobsAPI.sector_jobs two_postings (Some (js "백엔드")) (Some 2) = invalid_page
  /\ JobsAPI.sector_jobs two_postings (Some (js "회계")) None
     = error "해당 직무 관련 공고가 없습니다." 404.
Proof.
  pose proof (sector_jobs_outcomes two_postings (Some (js "백엔드")) None) as H1.
  pose proof (sector_jobs_outcomes two_postings (Some (js "백엔드")) (Some 2)) as H2.
  pose proof (sector_jobs_outcomes two_postings (Some (js "회계")) None) as H3.
  cbv zeta in H1, H2, H3.
  destruct H1 as (_ & _ & H1). destruct H2 as (_ & _ & H2).
  destruct H3 as (_ & _ & H3).
  assert (Hn : js "백엔드" <> []) by discriminate.
  assert (Hn' : js "회계" <> []) by discriminate.
  assert (Ht : sector_total two_postings (js "백엔드") = 2)
    by (vm_compute; reflexivity).
  assert (Ht' : sector_total two_postings (js "회계") = 0)
    by (vm_compute; reflexivity).
  destruct (H1 _ eq_refl Hn) as (_ & _ & S1).
  destruct (H2 _ eq_refl Hn) as (_ & S2 & _).
  destruct (H3 _ eq_refl Hn') as (S3 & _).
  split; [|split].
  - rewrite S1; [reflexivity|]. rewrite Ht. vm_compute. split; discriminate.
  - apply S2; rewrite Ht; vm_compute; reflexivity.
  - apply S3; [lia | exact Ht'].
Defined.

(* ================================================================= *)
(** ** The detail of a posting *)

Section Detail.

Import JobsAPI.

Variable equals_text : Z -> str -> bool.

Lemma detail_rows_one (id : Z) (s : db) (p : job_posting) :
  find_posting id s = [p] -> RecommendationsAPI.has_company s p = true ->
  exists row, detail_rows id s = [row] /\ dr_posting row = p
              /\ dr_company_name row = company_name_of p s.
Proof.
  unfold detail_rows, RecommendationsAPI.has_company, company_name_of.
  intros -> H. cbn [flat_map]. destruct (company_of p s) as [c|]; [|discriminate].
  eexists. split; [reflexivity|]. split; reflexivity.
Qed.

Lemma split_rows_one (first : option str) :
  exists l, split_rows first [first] = Some l.
Proof.
  unfold split_rows. destruct first as [v|]; [|now exists []].
  destruct (truthy_opt_str (Some v)); [|now exists []].
  cbn [split_each]. eexists. reflexivity.
Qed.

Lemma find_posting_update (f : job_posting -> job_posting) (id id' : Z) (s : db) :
  (forall p, job_posting_id (f p) = job_posting_id p) ->
  find_posting id' (update_posting f id s)
  = map (fun p => if job_posting_id p =? id then f p else p) (find_posting id' s).
Proof.
  intro Hf. unfold find_posting, update_posting.
  cbn [t_job_postings with_job_postings].
  induction (t_job_postings s) as [|p l IH]; [reflexivity|].
  cbn [map filter].
  replace (job_posting_id (if job_posting_id p =? id then f p else p))
    with (job_posting_id p) by (destruct (_ =? id); [now rewrite Hf | reflexivity]).
  destruct (job_posting_id p =? id'); cbn [map]; now rewrite IH.
Qed.

Lemma find_posting_ids (id : Z) (s : db) (p : job_posting) :
  In p (find_posting id s) -> job_posting_id p = id.
Proof. intro H. apply filter_In in H as [_ H]. now apply Z.eqb_eq. Qed.

Lemma find_posting_add_view_other (id id' : Z) (s : db) :
  id' <> id ->
  find_posting id' (update_posting add_view id s) = find_posting id' s.
Proof.
  intro Hid. rewrite find_posting_update by reflexivity.
  apply map_ext_in_id. intros p Hp. rewrite (find_posting_ids _ _ _ Hp).
  destruct (id' =? id) eqn:E; [apply Z.eqb_eq in E; congruence | reflexivity].
Qed.

Lemma find_posting_add_view_same (id : Z) (s : db) (p : job_posting) :
  find_posting id s = [p] ->
  find_posting id (update_posting add_view id s) = [add_view p].
Proof.
  intro H. rewrite find_posting_update by reflexivity. rewrite H. cbn [map].
  rewrite (find_posting_ids id s p) by (rewrite H; now left).
  now rewrite Z.eqb_refl.
Qed.

(** X9.  Reading the detail of a posting that is not there answers
    404 and changes nothing; reading one that is there answers with
    its title, company, salary, link and deadline, and adds exactly one
    view to that posting and nothing else to the store. *)
Theorem job_detail_adds_one_view (rand : Z -> Z) (s : db) (id : Z) :
  (find_posting id s = [] ->
   job_detail equals_text rand s (Some id)
   = (s, error "해당 공고를 찾을 수 없습니다." 404))
  /\ (forall p,
        find_posting id s = [p] ->
        RecommendationsAPI.has_company s p = true ->
        let s' := fst (job_detail equals_text rand s (Some id)) in
        (exists data,
            snd (job_detail equals_text rand s (Some id))
            = success "공고 상세 조회 성공" data None false
            /\ dj_job_posting_id (detailJob data) = id
            /\ dj_title (detailJob data) = title p
            /\ dj_company_name (detailJob data) = company_name_of p s
            /\ dj_salary (detailJob data) = salary p
            /\ dj_link (detailJob data) = link p
            /\ dj_deadline (detailJob data) = deadline p)
        /\ find_posting id s' = [add_view p]
        /\ (forall id', id' <> id -> find_posting id' s' = find_posting id' s)
        /\ db_dims s' = db_dims s /\ db_junctions s' = db_junctions s
        /\ t_bookmarks s' = t_bookmarks s /\ t_users s' = t_users s).
Proof.
  split.
  - intro H. unfold job_detail, detail_rows. now rewrite H.
  - intros p Hp Hc s'. subst s'.
    destruct (detail_rows_one id s p Hp Hc) as (row & Hrow & Hpost & Hname).
    unfold job_detail. rewrite Hrow. cbn [map].
    destruct (split_rows_one (dr_locations row)) as [ll ->].
    destruct (split_rows_one (dr_sectors row)) as [sl ->].
    cbn [fst snd].
    split; [|split; [|split; [|repeat (split; [reflexivity|]); reflexivity]]].
    + eexists. split; [reflexivity|].
      cbn [detailJob dj_job_posting_id dj_title dj_company_name dj_salary
           dj_link dj_deadline].
      rewrite Hpost, Hname.
      rewrite (find_posting_ids id s p) by (rewrite Hp; now left).
      repeat split.
    + now apply find_posting_add_view_same.
    + intros id' Hid. now apply find_posting_add_view_other.
Qed.

Lemma has_company_same_dims (s s' : db) (p q : job_posting) :
  db_dims s' = db_dims s -> company_id q = company_id p ->
  RecommendationsAPI.has_company s' q = RecommendationsAPI.has_company s p.
Proof.
  intros Hd Hc. unfold RecommendationsAPI.has_company, company_of, table.
  now rewrite Hd, Hc.
Qed.

Lemma job_detail_step (rand : Z -> Z) (s : db) (id : Z) (p : job_posting) :
  find_posting id s = [p] -> RecommendationsAPI.has_company s p = true ->
  let s' := fst (job_detail equals_text rand s (Some id)) in
  find_posting id s' = [add_view p]
  /\ RecommendationsAPI.has_company s' (add_view p) = true.
Proof.
  intros Hp Hc s'. subst s'.
  destruct (detail_rows_one id s p Hp Hc) as (row & Hrow & _).
  unfold job_detail. rewrite Hrow. cbn [map].
  destruct (split_rows_one (dr_locations row)) as [ll ->].
  destruct (split_rows_one (dr_sectors row)) as [sl ->].
  cbn [fst]. split; [now apply find_posting_add_view_same|].
  rewrite <- Hc. now apply has_company_same_dims.
Qed.

Lemma read_all_views (rands : list (Z -> Z)) (s : db) (id : Z) (p : job_posting) :
  find_posting id s = [p] -> RecommendationsAPI.has_company s p = true ->
  exists p', find_posting id (read_all equals_text rands s id) = [p']
             /\ RecommendationsAPI.has_company
                  (read_all equals_text rands s id) p' = true
             /\ views p' = views p + Z.of_nat (List.length rands).
Proof.
  unfold read_all. revert s p.
  induction rands as [|rand l IH]; intros s p Hp Hc.
  - exists p. cbn. repeat split; auto. lia.
  - cbn [fold_left].
    destruct (job_detail_step rand s id p Hp Hc) as [Hp' Hc'].
    destruct (IH _ _ Hp' Hc') as (p' & H1 & H2 & H3).
    exists p'. repeat split; auto. rewrite H3. cbn [views add_view List.length]. lia.
Qed.

(** X10.  The detail view feeds the popular listing: after n reads
    of the detail of a posting its view count is n higher, and once it
    was read the posting is among those the popular listing selects. *)
Theorem read_all_counts_views (rands : list (Z -> Z)) (rand' : Z -> Z)
    (s : db) (id : Z) (p : job_posting) :
  find_posting id s = [p] ->
  RecommendationsAPI.has_company s p = true ->
  0 <= views p ->
  rands <> [] ->
  let s' := read_all equals_text rands s id in
  map views (find_posting id s') = [views p + Z.of_nat (List.length rands)]
  /\ exists p', In p' (RecommendationsAPI.popular_query rand' s')
                /\ job_posting_id p' = id.
Proof.
  intros Hp Hc Hv Hne s'. subst s'.
  destruct (read_all_views rands s id p Hp Hc) as (p' & H1 & H2 & H3).
  split; [rewrite H1; cbn; now rewrite H3|].
  exists p'.
  assert (Hin : In p' (find_posting id (read_all equals_text rands s id)))
    by (rewrite H1; now left).
  split; [|now apply (find_posting_ids _ _ _ Hin)].
  unfold RecommendationsAPI.popular_query.
  apply (Permutation_in _ (order_by_perm _ _)). apply filter_In.
  split; [now apply filter_In in Hin|].
  rewrite H2. unfold RecommendationsAPI.viewed. apply Z.ltb_lt.
  destruct rands; [congruence|]. cbn [List.length] in H3. lia.
Qed.

Lemma shares_sector_common (id : Z) (s : db) (p : job_posting) :
  shares_sector id s p = true <-> common_sector s (job_posting_id p) id.
Proof.
  unfold shares_sector, common_sector. rewrite existsb_exists. split.
  - intros ([a b] & Hin & H). cbn [fst snd] in H.
    apply andb_true_iff in H as [Ha H]. apply Z.eqb_eq in Ha. subst a.
    apply existsb_exists in H as ([c d] & Hin' & H). cbn [fst snd] in H.
    apply andb_true_iff in H as [Hc Hd]. apply Z.eqb_eq in Hc, Hd. subst c d.
    now exists b.
  - intros (b & H1 & H2). exists (job_posting_id p, b).
    split; [exact H1|]. cbn [fst snd]. rewrite Z.eqb_refl. cbn [andb].
    apply existsb_exists. exists (id, b). split; [exact H2|].
    cbn [fst snd]. now rewrite !Z.eqb_refl.
Qed.

Lemma related_query_sound (rand : Z -> Z) (companyName : str) (id : Z) (s : db)
    (p : job_posting) :
  In p (related_query equals_text rand companyName id s) ->
  In p (t_job_postings s) /\ job_posting_id p <> id
  /\ (equals_text (company_id p) companyName = true
      \/ common_sector s (job_posting_id p) id).
Proof.
  unfold related_query. intro H. apply firstn_incl in H.
  apply (Permutation_in _ (Permutation_sym (order_by_perm _ _))) in H.
  apply filter_In in H as [Hin H]. split; [exact Hin|].
  destruct (company_of p s); [|discriminate].
  unfold related_where in H. apply andb_true_iff in H as [H Hid].
  split.
  - intro E. rewrite E, Z.eqb_refl in Hid. discriminate.
  - apply orb_true_iff in H as [H | H]; [now left | right].
    now apply shares_sector_common.
Qed.

Lemma related_query_complete (rand : Z -> Z) (companyName : str) (id : Z) (s : db)
    (p : job_posting) :
  related_query equals_text rand companyName id s = [] ->
  In p (t_job_postings s) -> RecommendationsAPI.has_company s p = true ->
  job_posting_id p <> id ->
  equals_text (company_id p) companyName = false
  /\ ~ common_sector s (job_posting_id p) id.
Proof.
  unfold related_query. intros H Hin Hc Hid.
  set (l := filter _ _) in H.
  assert (Hl : l = []).
  { destruct (order_by _ l) as [|x r] eqn:E; [|discriminate].
    apply Permutation_nil. rewrite <- E. apply Permutation_sym, order_by_perm. }
  assert (Hp : ~ In p l) by (rewrite Hl; intros []).
  unfold l in Hp. rewrite filter_In in Hp.
  unfold RecommendationsAPI.has_company in Hc.
  destruct (company_of p s); [|discriminate].
  unfold related_where in Hp.
  assert (Hne : negb (job_posting_id p =? id) = true).
  { apply negb_true_iff, Z.eqb_neq, Hid. }
  rewrite Hne, andb_true_r in Hp.
  destruct (equals_text (company_id p) companyName) eqn:E1;
    [exfalso; apply Hp; auto|].
  split; [reflexivity|]. intro Hcs. apply shares_sector_common in Hcs.
  apply Hp. split; [exact Hin|]. now rewrite Hcs.
Qed.

Lemma related_row_same (s s' : db) (p : job_posting) :
  db_dims s' = db_dims s -> db_junctions s' = db_junctions s ->
  related_row s' p = related_row s p.
Proof.
  intros Hd Hj. unfold related_row, company_name_of, company_of, joined, table, links.
  now rewrite Hd, Hj.
Qed.

Lemma in_update_other (f : job_posting -> job_posting) (id : Z) (s : db)
    (p : job_posting) :
  (forall q, job_posting_id (f q) = job_posting_id q) ->
  job_posting_id p <> id ->
  (In p (t_job_postings (update_posting f id s)) <-> In p (t_job_postings s)).
Proof.
  intros Hf Hid. unfold update_posting. cbn [t_job_postings with_job_postings].
  rewrite in_map_iff. split.
  - intros (q & Hq & Hin). destruct (job_posting_id q =? id) eqn:E.
    + apply Z.eqb_eq in E. subst p. rewrite Hf in Hid. congruence.
    + now subst q.
  - intro Hin. exists p. split; [|exact Hin].
    apply Z.eqb_neq in Hid. now rewrite Hid.
Qed.

(** X11.  The related postings of a detail answer: when the list is
    there it is not empty, holds at most five postings, never the
    posting itself, and each has a company id the store compares equal
    to the company name of the posting, or a sector in common with it;
    when the answer says there is none, no other posting qualifies. *)
Theorem job_detail_related (rand : Z -> Z) (s s' : db) (id : Z)
    (message : string) (data : detail_data) (pg : option pagination)
    (is201 : bool) :
  job_detail equals_text rand s (Some id) = (s', success message data pg is201) ->
  match relatedJobsResult data with
  | related_jobs jobs =>
    jobs <> [] /\ (List.length jobs <= 5)%nat
    /\ Forall (fun r =>
                 rj_job_posting_id r <> id
                 /\ exists p, In p (t_job_postings s) /\ r = related_row s p
                              /\ (equals_text (company_id p)
                                    (dj_company_name (detailJob data)) = true
                                  \/ common_sector s (job_posting_id p) id)) jobs
  | no_related_jobs _ =>
    forall p, In p (t_job_postings s) ->
              RecommendationsAPI.has_company s p = true ->
              job_posting_id p <> id ->
              equals_text (company_id p) (dj_company_name (detailJob data)) = false
              /\ ~ common_sector s (job_posting_id p) id
  end.
Proof.
  unfold job_detail. destruct (detail_rows id s) as [|job0 rest]; [discriminate|].
  destruct (split_rows _ _) as [ll|]; [|discriminate].
  destruct (split_rows _ _) as [sl|]; [|discriminate].
  set (s1 := update_posting add_view id s).
  assert (Hd : db_dims s1 = db_dims s) by reflexivity.
  assert (Hj : db_junctions s1 = db_junctions s) by reflexivity.
  assert (Hcs : forall a b, common_sector s1 a b <-> common_sector s a b)
    by (intros a b; unfold common_sector, links; now rewrite Hj).
  destruct (related_query equals_text rand (dr_company_name job0) id s1)
    as [|x r] eqn:E; intros [= <- <- <- <- <-]; cbn [relatedJobsResult detailJob
                                                        dj_company_name].
  - intros p Hin Hc Hid.
    assert (Hin1 : In p (t_job_postings s1)) by now apply in_update_other.
    assert (Hc1 : RecommendationsAPI.has_company s1 p = true)
      by (rewrite <- Hc; now apply has_company_same_dims).
    destruct (related_query_complete rand (dr_company_name job0) id s1 p E
                Hin1 Hc1 Hid) as [H1 H2].
    split; [exact H1|]. now rewrite <- Hcs.
  - change (related_row s1 x :: map (related_row s1) r)
      with (map (related_row s1) (x :: r)).
    split; [discriminate|]. split.
    + rewrite length_map, <- E. unfold related_query. apply firstn_le_length.
    + apply Forall_forall. intros rj Hrj. apply in_map_iff in Hrj as (p & <- & Hp).
      rewrite <- E in Hp. apply related_query_sound in Hp as (Hin & Hid & Hrel).
      split; [exact Hid|]. exists p. split; [|split].
      * now apply (in_update_other add_view id s p).
      * now apply related_row_same.
      * destruct Hrel as [H | H]; [now left | right; now apply Hcs].
Qed.

End Detail.

(** X9, witness: the detail of posting 1 of the sample store, read
    once. *)
Lemma job_detail_adds_one_view_witness :
  exists data,
    snd (JobsAPI.job_detail never_equal (fun i => i) sample_store (Some 1))
    = success "공고 상세 조회 성공" data None false
    /\ JobsAPI.dj_title (JobsAPI.detailJob data) = js "백엔드 개발자"
    /\ map views
         (find_posting 1
            (fst (JobsAPI.job_detail never_equal (fun i => i) sample_store (Some 1))))
       = [1].
Proof.
  assert (E : exists p, find_posting 1 sample_store = [p]
                        /\ title p = js "백엔드 개발자" /\ views p = 0
                        /\ RecommendationsAPI.has_company sample_store p = true).
  { eexists. split; [vm_compute; reflexivity|].
    split; [vm_compute; reflexivity|]. split; vm_compute; reflexivity. }
  destruct E as (p & E & Ht & Hv & Hc).
  destruct (proj2 (job_detail_adds_one_view never_equal (fun i => i) sample_store 1)
              p E Hc) as ((data & Hdata & _ & Htitle & _) & Hfind & _).
  exists data. split; [exact Hdata|]. split; [congruence|].
  rewrite Hfind. cbn [map views JobsAPI.add_view]. now rewrite Hv.
Defined.

(** X10, witness: three reads of posting 1 of the sample store. *)
Lemma read_all_counts_views_witness :
  map views
    (find_posting 1
       (read_all never_equal [fun i => i; fun i => i; fun i => i] sample_store 1))
  = [3]
  /\ exists p', In p' (RecommendationsAPI.popular_query
                         (fun i => i)
                         (read_all never_equal [fun i => i; fun i => i; fun i => i]
                            sample_store 1))
                /\ job_posting_id p' = 1.
Proof.
  assert (E : exists p, find_posting 1 sample_store = [p] /\ views p = 0
                        /\ RecommendationsAPI.has_company sample_store p = true).
  { eexists. split; [vm_compute; reflexivity|]. split; vm_compute; reflexivity. }
  destruct E as (p & E & Hv & Hc).
  pose proof (read_all_counts_views never_equal
                [fun i => i; fun i => i; fun i => i] (fun i => i)
                sample_store 1 p E Hc) as H.
  rewrite Hv in H. apply H; [lia | discriminate].
Defined.

(** X11, witness: posting 2 shares the sector 백엔드 with posting 1. *)
Lemma job_detail_related_witness :
  exists s' message data pg is201 jobs,
    JobsAPI.job_detail never_equal (fun i => i) two_postings (Some 1)
    = (s', success message data pg is201)
    /\ JobsAPI.relatedJobsResult data = JobsAPI.related_jobs jobs
    /\ jobs <> []
    /\ Forall (fun r => JobsAPI.rj_job_posting_id r <> 1) jobs.
Proof.
  assert (E : exists s' message data pg is201 jobs,
             JobsAPI.job_detail never_equal (fun i => i) two_postings (Some 1)
             = (s', success message data pg is201)
             /\ JobsAPI.relatedJobsResult data = JobsAPI.related_jobs jobs).
  { do 6 eexists. split; vm_compute; reflexivity. }
  destruct E as (s' & message & data & pg & is201 & jobs & E & Er).
  pose proof (job_detail_related never_equal (fun i => i) two_postings s' 1
                message data pg is201 E) as H.
  rewrite Er in H. destruct H as (Hne & _ & H).
  exists s', message, data, pg, is201, jobs.
  split; [exact E|]. split; [exact Er|]. split; [exact Hne|].
  eapply Forall_impl; [|exact H]. intros r [Hr _]. exact Hr.
Defined.

(* ================================================================= *)
(** ** Updating, deleting and creating a posting *)

Section Changes.

Import JobsAPI.

Lemma keeps_identity_refl (p : job_posting) : keeps_identity p p.
Proof. now repeat split. Qed.

Lemma same_texts_refl (p : job_posting) : same_texts p p.
Proof. now repeat split. Qed.

Lemma rest_kept_refl (id : Z) (s : db) : rest_kept id s s.
Proof. unfold rest_kept. auto 8 using grows_refl. Qed.

Lemma rest_kept_links (id : Z) (s s' : db) :
  job_postings_auto s' = job_postings_auto s ->
  (forall j, delete_links_of id (links j s') = delete_links_of id (links j s)) ->
  t_bookmarks s' = t_bookmarks s -> t_users s' = t_users s ->
  users_auto s' = users_auto s -> grows s s' -> rest_kept id s s'.
Proof. unfold rest_kept. auto 8. Qed.

Lemma rest_kept_trans (id : Z) (s1 s2 s3 : db) :
  rest_kept id s1 s2 -> rest_kept id s2 s3 -> rest_kept id s1 s3.
Proof.
  intros (A1 & L1 & B1 & U1 & V1 & G1) (A2 & L2 & B2 & U2 & V2 & G2).
  split; [congruence|]. split; [intro j; now rewrite L2, L1|].
  split; [congruence|]. split; [congruence|]. split; [congruence|].
  eapply grows_trans; eassumption.
Qed.

Lemma update_row_same (id : Z) (l : list job_posting) :
  map (update_row id (fun p => p)) l = l.
Proof. unfold update_row. apply map_if_same. Qed.

Lemma update_row_compose (id : Z) (f g : job_posting -> job_posting)
    (l : list job_posting) :
  (forall p, job_posting_id (f p) = job_posting_id p) ->
  map (update_row id g) (map (update_row id f) l)
  = map (update_row id (fun p => g (f p))) l.
Proof.
  intro Hf. rewrite map_map. apply map_ext. intro p. unfold update_row.
  destruct (job_posting_id p =? id) eqn:E.
  - now rewrite Hf, E.
  - now rewrite E.
Qed.

Lemma changes_only_refl (id : Z) (s : db) : changes_only id s s.
Proof.
  split; [|apply rest_kept_refl]. exists (fun p => p).
  split; [intro p; apply keeps_identity_refl | now rewrite update_row_same].
Qed.

Lemma delete_links_of_idem (id : Z) (l : list (Z * Z)) :
  delete_links_of id (delete_links_of id l) = delete_links_of id l.
Proof.
  unfold delete_links_of. induction l as [|x l IH]; simpl; [reflexivity|].
  destruct (negb (fst x =? id)) eqn:E; simpl; [rewrite E|]; congruence.
Qed.

Lemma delete_links_of_app (id : Z) (l l' : list (Z * Z)) :
  delete_links_of id (l ++ l') = delete_links_of id l ++ delete_links_of id l'.
Proof. apply filter_app. Qed.

Lemma upsert_dim_table (name : str) (t : dim_table) :
  fst (upsert_dim name t) = insert_ignore_dim name t.
Proof.
  unfold upsert_dim, insert_ignore_dim. now destruct (rows_named name t).
Qed.

(** A change of the row alone. *)
Lemma update_posting_effect (now : str) (q : query) (id : Z)
    (f : job_posting -> job_posting) (s : db) :
  (forall p, keeps_identity p (f p) /\ same_texts (f p) (text_effect now q p)) ->
  exists g,
    (forall p, keeps_identity p (g p) /\ same_texts (g p) (text_effect now q p))
    /\ t_job_postings (update_posting f id s)
       = map (update_row id g) (t_job_postings s)
    /\ rest_kept id s (update_posting f id s).
Proof.
  intro H. exists f. split; [exact H|]. split; [reflexivity|].
  apply rest_kept_links; auto. now apply grows_same_dims.
Qed.

(** A change of the other tables alone. *)
Lemma other_tables_effect (now : str) (q : query) (id : Z) (s s' : db) :
  (forall p, text_effect now q p = p) ->
  t_job_postings s' = t_job_postings s ->
  rest_kept id s s' ->
  exists f,
    (forall p, keeps_identity p (f p) /\ same_texts (f p) (text_effect now q p))
    /\ t_job_postings s' = map (update_row id f) (t_job_postings s)
    /\ rest_kept id s s'.
Proof.
  intros Hq Hp Hr. exists (fun p => p). split; [|split].
  - intro p. rewrite Hq. split; [apply keeps_identity_refl | apply same_texts_refl].
  - now rewrite update_row_same.
  - exact Hr.
Qed.

Lemma run_query_effect (now : str) (id : Z) (q : query) (c c' : conn) :
  targets id q -> run_query now q c = Some c' ->
  exists f,
    (forall p, keeps_identity p (f p) /\ same_texts (f p) (text_effect now q p))
    /\ t_job_postings (store c') = map (update_row id f) (t_job_postings (store c))
    /\ rest_kept id (store c) (store c').
Proof.
  intros Ht H. destruct q as [i | i u | d name | rc i | v i | v i | v i | v i
                             | j i | j i | i]; cbn [targets] in Ht; subst;
    cbn [run_query] in H.
  - injection H as <-. apply other_tables_effect; auto using rest_kept_refl.
  - injection H as <-. apply other_tables_effect; auto using rest_kept_refl.
  - destruct (upsert_dim name (table d (store c))) as [t lid] eqn:E.
    injection H as <-. cbn [store].
    apply other_tables_effect; [reflexivity | reflexivity |].
    apply rest_kept_links; auto.
    replace t with (fst (upsert_dim name (table d (store c)))) by now rewrite E.
    rewrite upsert_dim_table. apply insert_grows.
  - destruct rc; injection H as <-; cbn [store]; apply update_posting_effect;
      intro p; now repeat split.
  - injection H as <-. cbn [store]. apply update_posting_effect.
    intro p; now repeat split.
  - injection H as <-. cbn [store]. apply update_posting_effect.
    intro p; now repeat split.
  - injection H as <-. cbn [store]. apply update_posting_effect.
    intro p; now repeat split.
  - injection H as <-. cbn [store]. apply update_posting_effect.
    intro p; now repeat split.
  - injection H as <-. cbn [store].
    apply other_tables_effect; [reflexivity | reflexivity |].
    apply rest_kept_links; auto; [|now apply grows_same_dims].
    intro j'. destruct (junction_eq_dec j j') as [<- | Hne].
    + rewrite links_with_links_same. apply delete_links_of_idem.
    + now rewrite links_with_links_other.
  - destruct (has_link _ _); [discriminate|]. injection H as <-. cbn [store].
    apply other_tables_effect; [reflexivity | reflexivity |].
    apply rest_kept_links; auto; [|now apply grows_same_dims].
    intro j'. destruct (junction_eq_dec j j') as [<- | Hne].
    + rewrite links_with_links_same, delete_links_of_app.
      unfold delete_links_of at 2. cbn [filter fst].
      rewrite Z.eqb_refl. cbn [negb]. apply app_nil_r.
    + now rewrite links_with_links_other.
  - injection H as <-. cbn [store]. apply update_posting_effect.
    intro p; now repeat split.
Qed.

Lemma text_effect_same_texts (now : str) (q : query) (a b : job_posting) :
  same_texts a b -> same_texts (text_effect now q a) (text_effect now q b).
Proof.
  intros (H1 & H2 & H3 & H4 & H5). destruct q; cbn; repeat split; assumption.
Qed.

Lemma texts_after_same_texts (now : str) (qs : list query) (a b : job_posting) :
  same_texts a b -> same_texts (texts_after now qs a) (texts_after now qs b).
Proof.
  revert a b. induction qs as [|q r IH]; intros a b H; [exact H|].
  apply IH. now apply text_effect_same_texts.
Qed.

Lemma same_texts_trans (a b c : job_posting) :
  same_texts a b -> same_texts b c -> same_texts a c.
Proof.
  intros (A1 & A2 & A3 & A4 & A5) (B1 & B2 & B3 & B4 & B5).
  repeat split; congruence.
Qed.

Lemma keeps_identity_trans (a b c : job_posting) :
  keeps_identity a b -> keeps_identity b c -> keeps_identity a c.
Proof.
  intros (A1 & A2 & A3 & A4 & A5) (B1 & B2 & B3 & B4 & B5).
  repeat split; congruence.
Qed.

Lemma run_queries_effect (now : str) (id : Z) (qs : list query) (c c' : conn) :
  Forall (targets id) qs -> run_queries now qs c = Some c' ->
  exists f,
    (forall p, keeps_identity p (f p) /\ same_texts (f p) (texts_after now qs p))
    /\ t_job_postings (store c') = map (update_row id f) (t_job_postings (store c))
    /\ rest_kept id (store c) (store c').
Proof.
  revert c. induction qs as [|q r IH]; intros c Ht H.
  - injection H as <-. exists (fun p => p). split; [|split].
    + intro p. split; [apply keeps_identity_refl | apply same_texts_refl].
    + now rewrite update_row_same.
    + apply rest_kept_refl.
  - cbn [run_queries] in H. destruct (run_query now q c) as [c1|] eqn:E1;
      [|discriminate].
    destruct (run_query_effect now id q c c1 (Forall_inv Ht) E1)
      as (f1 & H1 & P1 & R1).
    destruct (IH c1 (Forall_inv_tail Ht) H) as (f2 & H2 & P2 & R2).
    exists (fun p => f2 (f1 p)). split; [|split].
    + intro p. split.
      * eapply keeps_identity_trans; [apply H1 | apply H2].
      * eapply same_texts_trans; [apply H2|].
        cbn [texts_after fold_left]. apply texts_after_same_texts, H1.
    + rewrite P2, P1. apply update_row_compose. intro p. apply H1.
    + eapply rest_kept_trans; eassumption.
Qed.

Lemma when_truthy_targets (id : Z) (o : option str) (f : str -> list query) :
  (forall v, Forall (targets id) (f v)) -> Forall (targets id) (when_truthy o f).
Proof.
  intro H. unfold when_truthy. destruct o as [v|]; [|constructor].
  destruct (truthy_str v); [apply H | constructor].
Qed.

Lemma link_queries_targets (id : Z) (d : dim) (j : junction) (l : list str) :
  Forall (targets id)
    (flat_map (fun name => [Upsert d name; InsertLinkToLastInsertId j id]) l).
Proof.
  induction l as [|x l IH]; cbn; repeat constructor. exact IH.
Qed.

Lemma update_queries_targets (id userId : Z) (body : update_request) :
  Forall (targets id) (update_queries id userId body).
Proof.
  unfold update_queries.
  repeat (apply Forall_app; split);
    try (apply when_truthy_targets; intro v; now repeat constructor);
    try now repeat constructor.
  - unfold when_given. destruct (locationNames body); constructor;
      [reflexivity | apply link_queries_targets].
  - unfold when_given. destruct (sectorNames body); constructor;
      [reflexivity | apply link_queries_targets].
Qed.

Lemma texts_after_app (now : str) (qs qs' : list query) (p : job_posting) :
  texts_after now (qs ++ qs') p = texts_after now qs' (texts_after now qs p).
Proof. apply fold_left_app. Qed.

Lemma texts_after_neutral (now : str) (qs : list query) (p : job_posting) :
  Forall (fun q => forall p, text_effect now q p = p) qs ->
  texts_after now qs p = p.
Proof.
  induction 1 as [|q r Hq _ IH]; [reflexivity|].
  cbn [texts_after fold_left]. rewrite Hq. exact IH.
Qed.

Lemma when_truthy_neutral (now : str) (o : option str) (f : str -> list query)
    (p : job_posting) :
  (forall v, Forall (fun q => forall p, text_effect now q p = p) (f v)) ->
  texts_after now (when_truthy o f) p = p.
Proof.
  intro H. apply texts_after_neutral. unfold when_truthy.
  destruct o as [v|]; [|constructor].
  destruct (truthy_str v); [apply H | constructor].
Qed.

Lemma when_given_neutral (now : str) (o : option (list str)) (d : dim)
    (j : junction) (id : Z) (p : job_posting) :
  texts_after now
    (when_given o
       (fun l => DeleteLinks j id
                 :: flat_map (fun name => [Upsert d name;
                                           InsertLinkToLastInsertId j id]) l)) p
  = p.
Proof.
  apply texts_after_neutral. unfold when_given.
  destruct o as [l|]; constructor; [reflexivity|].
  induction l as [|x l IH]; cbn; repeat constructor. exact IH.
Qed.

Lemma update_queries_texts (now : str) (id userId : Z) (body : update_request)
    (p : job_posting) :
  let p' := texts_after now (update_queries id userId body) p in
  title p' = given_or (u_title body) (title p)
  /\ link p' = given_or (u_link body) (link p)
  /\ deadline p' = given_or (u_deadline body) (deadline p)
  /\ salary p' = given_or (u_salary body) (salary p)
  /\ last_modified_date p' = Some now.
Proof.
  unfold update_queries. cbv zeta.
  rewrite !texts_after_app.
  rewrite !when_given_neutral.
  rewrite (texts_after_neutral now [SelectPosting id; SelectOwnedPosting id userId])
    by (repeat constructor).
  rewrite (when_truthy_neutral now (companyName body))
    by (intro v; repeat constructor).
  rewrite (when_truthy_neutral now (educationLevel body))
    by (intro v; repeat constructor).
  rewrite (when_truthy_neutral now (employmentType body))
    by (intro v; repeat constructor).
  unfold when_truthy, given_or.
  destruct (u_title body) as [v1|]; [destruct (truthy_str v1)|];
    (destruct (u_link body) as [v2|]; [destruct (truthy_str v2)|]);
    (destruct (u_deadline body) as [v3|]; [destruct (truthy_str v3)|]);
    (destruct (u_salary body) as [v4|]; [destruct (truthy_str v4)|]);
    cbn; repeat split; reflexivity.
Qed.

Lemma executeTransaction_effect (now : str) (id : Z) (qs : list query)
    (s s' : db) :
  Forall (targets id) qs -> executeTransaction now qs s = Some s' ->
  exists f,
    (forall p, keeps_identity p (f p) /\ same_texts (f p) (texts_after now qs p))
    /\ t_job_postings s' = map (update_row id f) (t_job_postings s)
    /\ rest_kept id s s'.
Proof.
  intros Ht H. unfold executeTransaction in H.
  destruct (run_queries now qs _) as [c'|] eqn:E; [|discriminate].
  injection H as <-.
  exact (run_queries_effect now id qs _ c' Ht E).
Qed.

(** X12.  Whatever the outcome, an update of a posting leaves its
    id, owner, link hash, view count and creation time as they were
    (the link hash also when the link is replaced), changes no other
    posting, no junction row of another posting, no bookmark and no
    user, and removes no label from the dimension tables. *)
Theorem updateJobPosting_frame (now : str) (s : db) (id userId : Z)
    (body : update_request) :
  changes_only id s (fst (updateJobPosting now s id userId body)).
Proof.
  unfold updateJobPosting, updateJobPosting_with.
  destruct (_ && _); [apply changes_only_refl|].
  destruct (executeTransaction now _ s) as [s'|] eqn:E; [|apply changes_only_refl].
  destruct (executeTransaction_effect now id _ s s'
              (update_queries_targets id userId body) E) as (f & Hf & Hp & Hr).
  split; [|exact Hr]. exists f. split; [intro p; apply Hf | exact Hp].
Qed.

(** X13.  A successful update sets the title, link, deadline and
    salary that the request gives as non-empty text, keeps the others,
    and stamps the modification time on the rows of the posting. *)
Theorem updateJobPosting_sets (now : str) (s s' : db) (id userId : Z)
    (body : update_request) (message : string) (rows : list updated_job)
    (pg : option pagination) (is201 : bool) :
  updateJobPosting now s id userId body = (s', success message rows pg is201) ->
  exists f,
    t_job_postings s' = map (update_row id f) (t_job_postings s)
    /\ forall p,
         title (f p) = given_or (u_title body) (title p)
         /\ link (f p) = given_or (u_link body) (link p)
         /\ deadline (f p) = given_or (u_deadline body) (deadline p)
         /\ salary (f p) = given_or (u_salary body) (salary p)
         /\ last_modified_date (f p) = Some now
         /\ link_hash (f p) = link_hash p.
Proof.
  unfold updateJobPosting, updateJobPosting_with.
  destruct (_ && _); [discriminate|].
  destruct (executeTransaction now _ s) as [s1|] eqn:E; [|discriminate].
  intros [= -> _ _ _ _].
  destruct (executeTransaction_effect now id _ s s'
              (update_queries_targets id userId body) E) as (f & Hf & Hp & Hr).
  exists f. split; [exact Hp|]. intro p.
  destruct (Hf p) as [(_ & _ & Hh & _) (T1 & T2 & T3 & T4 & T5)].
  destruct (update_queries_texts now id userId body p) as (U1 & U2 & U3 & U4 & U5).
  repeat split; congruence.
Qed.

(** X14.  The owner deletes a posting: the answer is a success with
    the id, the posting is gone and the other postings stay, and both
    a second delete and the detail view answer 404 afterwards. *)
Theorem deleteJobPosting_by_owner (s : db) (id userId : Z) (p : job_posting)
    (r : list job_posting) :
  find_posting id s = p :: r -> user_id p = Some userId ->
  let s' := fst (deleteJobPosting s (Some id) userId) in
  snd (deleteJobPosting s (Some id) userId)
  = success "공고가 성공적으로 삭제되었습니다." id None false
  /\ t_job_postings s'
     = filter (fun q => negb (job_posting_id q =? id)) (t_job_postings s)
  /\ deleteJobPosting s' (Some id) userId
     = (s', error "삭제하려는 공고가 존재하지 않습니다." 404)
  /\ (forall equals_text rand,
        job_detail equals_text rand s' (Some id)
        = (s', error "해당 공고를 찾을 수 없습니다." 404)).
Proof.
  intros Hf Hu. cbv zeta.
  assert (E : deleteJobPosting s (Some id) userId
              = (delete_posting id s,
                 success "공고가 성공적으로 삭제되었습니다." id None false)).
  { unfold deleteJobPosting. rewrite Hf. unfold differs.
    now rewrite Hu, Z.eqb_refl. }
  rewrite E. cbn [fst snd].
  assert (Hp : t_job_postings (delete_posting id s)
               = filter (fun q => negb (job_posting_id q =? id)) (t_job_postings s))
    by reflexivity.
  assert (Hnone : find_posting id (delete_posting id s) = []).
  { unfold find_posting. rewrite Hp. apply filter_none.
    intros q Hq. apply filter_In in Hq as [_ Hq].
    now apply negb_true_iff in Hq. }
  split; [reflexivity|]. split; [exact Hp|]. split.
  - unfold deleteJobPosting. now rewrite Hnone.
  - intros equals_text rand. unfold job_detail, detail_rows. now rewrite Hnone.
Qed.

Lemma create_transaction_spec (now userId : Z)
    (companyName title link educationLevel deadline employmentType salary : str)
    (s s1 : db) (jobPostingId : Z) :
  wf s ->
  create_transaction now userId companyName title link educationLevel deadline
    employmentType salary s = Some (s1, jobPostingId) ->
  jobPostingId = job_postings_auto s
  /\ exists e,
       t_job_postings s1
       = t_job_postings s
         ++ [created_row now jobPostingId userId (dim_id e) title link
               (Crypto.sha256_hex link) deadline salary]
       /\ In e (dim_rows (table employment_types s1))
       /\ dim_name e = employmentType.
Proof.
  intros [Hd _]. unfold create_transaction.
  set (s1' := with_table companies _ s).
  set (s2' := with_table educations _ s1').
  assert (Ht : table employment_types s2' = table employment_types s)
    by reflexivity.
  destruct (upsert_dim_spec employmentType (table employment_types s2'))
    as (e & He & Hn).
  { rewrite Ht. apply Hd. }
  rewrite He.
  destruct (postings_hashed _ _); [|discriminate].
  intros [= <- <-]. split; [reflexivity|]. exists e. split; [reflexivity|].
  change (table employment_types
            (with_job_postings _ _
               (with_table employment_types
                  (insert_ignore_dim employmentType (table employment_types s2'))
                  s2')))
    with (insert_ignore_dim employmentType (table employment_types s2')).
  apply (rows_named_In employmentType
           (insert_ignore_dim employmentType (table employment_types s2')) e).
  rewrite Hn. now left.
Qed.

Lemma link_each_keeps (now : str) (d : dim) (j : junction) (id : Z)
    (names : list str) (s s' : db) (ok : bool) :
  d <> employment_types ->
  link_each (executeTransaction now) d j id names s = (s', ok) ->
  t_job_postings s' = t_job_postings s
  /\ table employment_types s' = table employment_types s.
Proof.
  intro Hd. revert s. induction names as [|name r IH]; intros s H.
  - now injection H as <- _.
  - cbn [link_each] in H.
    destruct (executeTransaction now _ s) as [s1|] eqn:E;
      [|now injection H as <- _].
    destruct (IH s1 H) as [Hp Ht]. rewrite Hp, Ht.
    unfold executeTransaction in E. cbn [run_queries run_query store] in E.
    destruct (upsert_dim name (table d s)) as [t lid].
    cbn [store last_insert_id] in E.
    destruct (has_link _ _); [discriminate|]. injection E as <-.
    split; [reflexivity|].
    change (table employment_types (with_table d t s)
            = table employment_types s).
    now apply table_with_table_other.
Qed.

(** X15.  The row of a posting created through the API: it is
    appended with the id the answer names, the caller as owner, no
    views, the title, link and deadline of the request, the hash of
    the link and the salary or its default; its company, education and
    employment type references all hold one and the same id, that of
    the employment type of the request, the value of LAST_INSERT_ID()
    when the row is inserted. *)
Theorem create_job_row (now : Z) (s s' : db) (userId : Z) (body : update_request)
    (message : string) (jobPostingId : Z) (pg : option pagination)
    (is201 : bool) :
  wf s ->
  create_job now s userId body = (s', success message jobPostingId pg is201) ->
  exists p e,
    t_job_postings s' = t_job_postings s ++ [p]
    /\ find_posting jobPostingId s' = [p]
    /\ user_id p = Some userId /\ views p = 0
    /\ Some (title p) = u_title body
    /\ Some (link p) = u_link body
    /\ Some (deadline p) = u_deadline body
    /\ link_hash p = Crypto.sha256_hex (link p)
    /\ salary p = salary_or_default (u_salary body)
    /\ In e (dim_rows (table employment_types s'))
    /\ Some (dim_name e) = employmentType body
    /\ company_id p = dim_id e
    /\ education_id p = Some (dim_id e)
    /\ employment_type_id p = Some (dim_id e).
Proof.
  intros Hwf. unfold create_job, create_job_with.
  destruct (companyName body) as [cn|]; [|discriminate].
  destruct (u_title body) as [t|]; [|discriminate].
  destruct (u_link body) as [l|]; [|discriminate].
  destruct (educationLevel body) as [el|]; [|discriminate].
  destruct (u_deadline body) as [dl|]; [|discriminate].
  destruct (locationNames body) as [ln|]; [|discriminate].
  destruct (sectorNames body) as [sn|]; [|discriminate].
  destruct (employmentType body) as [et|]; [|discriminate].
  destruct (_ || _); [discriminate|].
  destruct (create_transaction _ _ _ _ _ _ _ _ _ s) as [[s1 jid]|] eqn:E;
    [|discriminate].
  destruct (negb (truthy_num jid)); [discriminate|].
  destruct (link_each _ locations _ jid ln s1) as [s2 ok2] eqn:E2.
  destruct (negb ok2); [discriminate|].
  destruct (link_each _ sectors _ jid sn s2) as [s3 ok3] eqn:E3.
  destruct (negb ok3); [discriminate|].
  intros [= <- _ <- _ _].
  destruct (create_transaction_spec _ _ _ _ _ _ _ _ _ _ _ _ Hwf E)
    as (Hid & e & Hp & He & Hn).
  destruct (link_each_keeps _ locations _ _ _ _ _ _ ltac:(discriminate) E2) as [P2 T2].
  destruct (link_each_keeps _ sectors _ _ _ _ _ _ ltac:(discriminate) E3) as [P3 T3].
  exists (created_row now jid userId (dim_id e) t l (Crypto.sha256_hex l) dl
            (salary_or_default (u_salary body))), e.
  split; [now rewrite P3, P2, Hp|]. split.
  - unfold find_posting. rewrite P3, P2, Hp, filter_app.
    rewrite filter_none.
    + cbn. now rewrite Z.eqb_refl.
    + intros q Hq. apply Z.eqb_neq. destruct Hwf as [_ [_ Hw]].
      specialize (Hw q Hq). lia.
  - rewrite T3, T2. subst et. unfold created_row.
    cbn [user_id views title link deadline link_hash salary company_id
         education_id employment_type_id].
    repeat (split; [reflexivity || exact He|]). reflexivity.
Qed.

End Changes.

(** X13, witness: posting 1 of the store with two postings gets a new
    title. *)
Lemma updateJobPosting_sets_witness :
  exists s' message rows pg is201 f,
    JobsAPI.updateJobPosting (js "2025-01-01") two_postings 1 7
      (retitle (js "Senior engineer"))
    = (s', success message rows pg is201)
    /\ t_job_postings s' = map (update_row 1 f) (t_job_postings two_postings)
    /\ forall p, title (f p) = js "Senior engineer"
                 /\ link (f p) = link p
                 /\ link_hash (f p) = link_hash p.
Proof.
  assert (E : exists s' message rows pg is201,
             JobsAPI.updateJobPosting (js "2025-01-01") two_postings 1 7
               (retitle (js "Senior engineer"))
             = (s', success message rows pg is201)).
  { do 5 eexists. vm_compute. reflexivity. }
  destruct E as (s' & message & rows & pg & is201 & E).
  destruct (updateJobPosting_sets _ _ _ _ _ _ _ _ _ _ E) as (f & Hf & H).
  exists s', message, rows, pg, is201, f.
  split; [exact E|]. split; [exact Hf|]. intro p.
  destruct (H p) as (H1 & H2 & _ & _ & _ & H6).
  split; [exact H1|]. split; [exact H2 | exact H6].
Defined.

(** X14, witness: user 7 deletes the posting they created, twice. *)
Lemma deleteJobPosting_by_owner_witness :
  snd (JobsAPI.deleteJobPosting one_created (Some 1) 7)
  = success "공고가 성공적으로 삭제되었습니다." 1 None false
  /\ JobsAPI.deleteJobPosting
       (fst (JobsAPI.deleteJobPosting one_created (Some 1) 7)) (Some 1) 7
     = (fst (JobsAPI.deleteJobPosting one_created (Some 1) 7),
        error "삭제하려는 공고가 존재하지 않습니다." 404).
Proof.
  assert (E : exists p r, find_posting 1 one_created = p :: r
                          /\ user_id p = Some 7).
  { do 2 eexists. split; vm_compute; reflexivity. }
  destruct E as (p & r & E & Hu).
  destruct (deleteJobPosting_by_owner one_created 1 7 p r E Hu)
    as (H1 & _ & H3 & _).
  split; [exact H1 | exact H3].
Defined.

(** X15, witness: a posting created in the empty store. *)
Lemma create_job_row_witness :
  exists s' message pg is201 p e,
    JobsAPI.create_job 5 DB.empty 7 new_posting
    = (s', success message 1 pg is201)
    /\ find_posting 1 s' = [p]
    /\ Some (title p) = JobsAPI.u_title new_posting
    /\ Some (dim_name e) = JobsAPI.employmentType new_posting
    /\ company_id p = dim_id e
    /\ education_id p = Some (dim_id e)
    /\ employment_type_id p = Some (dim_id e).
Proof.
  assert (E : exists s' message pg is201,
             JobsAPI.create_job 5 DB.empty 7 new_posting
             = (s', success message 1 pg is201)).
  { do 4 eexists. vm_compute. reflexivity. }
  destruct E as (s' & message & pg & is201 & E).
  destruct (create_job_row 5 DB.empty s' 7 new_posting message 1 pg is201
              wf_empty E)
    as (p & e & _ & Hf & _ & _ & Ht & _ & _ & _ & _ & _ & He & H1 & H2 & H3).
  exists s', message, pg, is201, p, e.
  split; [exact E|]. split; [exact Hf|]. split; [exact Ht|].
  split; [exact He|]. split; [exact H1|]. split; [exact H2 | exact H3].
Defined.

(* ================================================================= *)
(** ** Applications *)

Section Applications.

Import ApplicationsAPI.

Lemma applications_of_update (f : application -> application) (id userId j : Z)
    (t : applications) :
  (forall a, app_user_id (f a) = app_user_id a
             /\ app_job_posting_id (f a) = app_job_posting_id a) ->
  applications_of userId j (update_application f id t)
  = map (fun a => if application_id a =? id then f a else a)
        (applications_of userId j t).
Proof.
  intro Hf. unfold applications_of, update_application. cbn [app_rows].
  induction (app_rows t) as [|a l IH]; [reflexivity|].
  cbn [map filter].
  assert (E : forall b, (app_user_id (if application_id a =? id then f a else a) =? b)
                        = (app_user_id a =? b)).
  { intro b. destruct (_ =? id); [now rewrite (proj1 (Hf a)) | reflexivity]. }
  assert (E' : forall b,
             (app_job_posting_id (if application_id a =? id then f a else a) =? b)
             = (app_job_posting_id a =? b)).
  { intro b. destruct (_ =? id); [now rewrite (proj2 (Hf a)) | reflexivity]. }
  rewrite E, E'.
  destruct ((app_user_id a =? userId) && (app_job_posting_id a =? j));
    cbn [map]; now rewrite IH.
Qed.

Lemma set_status_keeps (v : str) (u : application -> option Z) (a : application) :
  app_user_id (set_status v (u a) a) = app_user_id a
  /\ app_job_posting_id (set_status v (u a) a) = app_job_posting_id a.
Proof. split; reflexivity. Qed.

(** What [apply] does to the table. *)
Lemma apply_rows (now : Z) (t : applications) (userId j : Z) :
  j <> 0 ->
  fst (apply now t userId (Some j))
  = match applications_of userId j t with
    | existing :: _ =>
      if str_eqb (status existing) cancelled
      then update_application (fun a => set_status applying (Some now) a)
             (application_id existing) t
      else t
    | [] =>
      {| app_rows :=
           app_rows t
           ++ [{| application_id := app_auto t; app_user_id := userId;
                  app_job_posting_id := j; status := applying;
                  app_created_at := now; app_updated_at := None |}];
         app_auto := app_auto t + 1 |}
    end.
Proof.
  intro Hj. unfold apply. rewrite (truthy_num_true j Hj). cbn [negb].
  destruct (applications_of userId j t) as [|a l]; [reflexivity|].
  now destruct (str_eqb (status a) cancelled).
Qed.

Lemma apply_one_each (now : Z) (t : applications) (userId : Z)
    (jobPostingId : option Z) :
  one_application_each t ->
  one_application_each (fst (apply now t userId jobPostingId)).
Proof.
  intros H u j. destruct jobPostingId as [j0|]; [|apply H].
  destruct (Z.eq_dec j0 0) as [-> | Hj]; [apply H|].
  rewrite (apply_rows now t userId j0 Hj).
  destruct (applications_of userId j0 t) as [|a l] eqn:E.
  - unfold applications_of at 1. cbn [app_rows].
    rewrite filter_app, length_app. cbn [filter app_user_id app_job_posting_id].
    destruct ((userId =? u) && (j0 =? j)) eqn:E1.
    + apply andb_true_iff in E1 as [Eu Ej]. apply Z.eqb_eq in Eu, Ej. subst u j.
      unfold applications_of in E. rewrite E. cbn. lia.
    + specialize (H u j). unfold applications_of in H. cbn [List.length]. lia.
  - destruct (str_eqb (status a) cancelled); [|apply H].
    rewrite applications_of_update by (intro b; split; reflexivity).
    rewrite length_map. apply H.
Qed.

Lemma deleteApplication_rows (t : applications) (id userId : Z) :
  fst (deleteApplication t id userId)
  = match own_application id userId t with
    | [] => t
    | a :: _ =>
      if str_eqb (status a) applying
      then update_application (fun b => set_status cancelled (app_updated_at b) b)
             id t
      else t
    end.
Proof.
  unfold deleteApplication. destruct (own_application id userId t) as [|a l];
    [reflexivity|].
  now destruct (str_eqb (status a) applying).
Qed.

Lemma deleteApplication_one_each (t : applications) (id userId : Z) :
  one_application_each t ->
  one_application_each (fst (deleteApplication t id userId)).
Proof.
  intros H u j. rewrite deleteApplication_rows.
  destruct (own_application id userId t) as [|a l]; [apply H|].
  destruct (str_eqb (status a) applying); [|apply H].
  rewrite applications_of_update by (intro b; split; reflexivity).
  rewrite length_map. apply H.
Qed.

(** X16.  No user ever has two applications to one posting: applying
    and cancelling keep that, and applying again to a posting with an
    application that is not cancelled is refused (400) with nothing
    changed. *)
Theorem applications_one_each (now : Z) (t : applications) (userId id : Z)
    (jobPostingId : option Z) :
  one_application_each t ->
  one_application_each (fst (apply now t userId jobPostingId))
  /\ one_application_each (fst (deleteApplication t id userId))
  /\ (forall j a, jobPostingId = Some j -> j <> 0 ->
        applications_of userId j t = [a] -> status a <> cancelled ->
        apply now t userId jobPostingId
        = (t, error "이미 지원한 공고입니다." 400)).
Proof.
  intro H. split; [now apply apply_one_each|].
  split; [now apply deleteApplication_one_each|].
  intros j a -> Hj Ha Hs. unfold apply.
  rewrite (truthy_num_true j Hj), Ha. cbn [negb].
  apply str_eqb_neq in Hs. now rewrite Hs.
Qed.

Lemma own_application_new (t : applications) (userId n : Z) (a : application) :
  wf_applications t ->
  application_id a = app_auto t -> app_user_id a = userId ->
  own_application (app_auto t) userId
    {| app_rows := app_rows t ++ [a]; app_auto := n |}
  = [a].
Proof.
  intros Hwf Hid Hu. unfold own_application. cbn [app_rows].
  rewrite filter_app. cbn [filter]. rewrite Hid, Hu, !Z.eqb_refl. cbn [andb].
  rewrite filter_none; [reflexivity|]. intros b Hb.
  specialize (Hwf b Hb).
  replace (application_id b =? app_auto t) with false
    by (symmetry; apply Z.eqb_neq; lia).
  reflexivity.
Qed.

Lemma map_update_new (f : application -> application) (t : applications)
    (a : application) :
  wf_applications t -> application_id a = app_auto t ->
  map (fun b => if application_id b =? app_auto t then f b else b)
      (app_rows t ++ [a])
  = app_rows t ++ [f a].
Proof.
  intros Hwf Ha. rewrite map_app. cbn [map]. rewrite Ha, Z.eqb_refl. f_equal.
  apply map_ext_in_id. intros b Hb. specialize (Hwf b Hb).
  replace (application_id b =? app_auto t) with false
    by (symmetry; apply Z.eqb_neq; lia).
  reflexivity.
Qed.

(** X17.  Applying, cancelling and applying again: the first
    application is created (201) with a new id, the cancellation
    succeeds, and the second application revives the same row (200)
    instead of adding one; the table ends with that one row more,
    applied at the first time and updated at the second. *)
Theorem application_reactivation (now1 now2 : Z) (t : applications)
    (userId j : Z) :
  wf_applications t ->
  j <> 0 ->
  applications_of userId j t = [] ->
  let id := app_auto t in
  let t1 := fst (apply now1 t userId (Some j)) in
  let t2 := fst (deleteApplication t1 id userId) in
  let t3 := fst (apply now2 t2 userId (Some j)) in
  snd (apply now1 t userId (Some j))
  = success "지원이 완료되었습니다."
      {| applicationId := id; ap_jobPostingId := j; ap_status := applying |}
      None true
  /\ snd (deleteApplication t1 id userId)
     = success "지원이 취소되었습니다." id None false
  /\ snd (apply now2 t2 userId (Some j))
     = success "취소된 지원이 다시 활성화되었습니다."
         {| applicationId := id; ap_jobPostingId := j; ap_status := applying |}
         None false
  /\ app_rows t3
     = app_rows t
       ++ [{| application_id := id; app_user_id := userId;
              app_job_posting_id := j; status := applying;
              app_created_at := now1; app_updated_at := Some now2 |}]
  /\ app_auto t3 = app_auto t + 1.
Proof.
  intros Hwf Hj Hnone id t1 t2 t3. subst id.
  set (a1 := {| application_id := app_auto t; app_user_id := userId;
                app_job_posting_id := j; status := applying;
                app_created_at := now1; app_updated_at := None |}).
  set (a2 := set_status cancelled None a1).
  assert (E1 : apply now1 t userId (Some j)
               = ({| app_rows := app_rows t ++ [a1]; app_auto := app_auto t + 1 |},
                  success "지원이 완료되었습니다."
                    {| applicationId := app_auto t; ap_jobPostingId := j;
                       ap_status := applying |} None true)).
  { unfold apply. rewrite (truthy_num_true j Hj), Hnone. reflexivity. }
  assert (Ht1 : t1 = {| app_rows := app_rows t ++ [a1];
                        app_auto := app_auto t + 1 |})
    by (unfold t1; now rewrite E1).
  assert (E2 : deleteApplication t1 (app_auto t) userId
               = ({| app_rows := app_rows t ++ [a2]; app_auto := app_auto t + 1 |},
                  success "지원이 취소되었습니다." (app_auto t) None false)).
  { unfold deleteApplication. rewrite Ht1.
    rewrite (own_application_new t userId _ a1 Hwf eq_refl eq_refl).
    change (str_eqb (status a1) applying) with true. cbn [negb].
    unfold update_application. cbn [app_rows app_auto].
    rewrite (map_update_new _ t a1 Hwf eq_refl). reflexivity. }
  assert (Ht2 : t2 = {| app_rows := app_rows t ++ [a2];
                        app_auto := app_auto t + 1 |})
    by (unfold t2; now rewrite E2).
  assert (Hof : applications_of userId j t2 = [a2]).
  { rewrite Ht2. unfold applications_of in *. cbn [app_rows].
    rewrite filter_app, Hnone. cbn [filter app a2 a1 set_status app_user_id
                                    app_job_posting_id].
    now rewrite !Z.eqb_refl. }
  assert (E3 : apply now2 t2 userId (Some j)
               = ({| app_rows := app_rows t ++ [set_status applying (Some now2) a2];
                     app_auto := app_auto t + 1 |},
                  success "취소된 지원이 다시 활성화되었습니다."
                    {| applicationId := app_auto t; ap_jobPostingId := j;
                       ap_status := applying |} None false)).
  { unfold apply. rewrite (truthy_num_true j Hj), Hof. cbn [negb].
    change (str_eqb (status a2) cancelled) with true. cbv iota.
    rewrite Ht2. unfold update_application. cbn [app_rows app_auto].
    change (application_id a2) with (app_auto t).
    rewrite (map_update_new _ t a2 Hwf eq_refl). reflexivity. }
  rewrite E1, E2. unfold t3. rewrite E3. cbn [fst snd app_rows app_auto].
  repeat split.
Qed.

(** X18.  Cancelling an application: an id that is not an
    application of the caller is not found (404), an application of
    the caller that is not in the applying status is refused (400),
    both with nothing changed; a success means the application was the
    caller's and applying, and it alone is set to cancelled, no row
    being removed. *)
Theorem deleteApplication_guard (t : applications) (id userId : Z) :
  let t' := fst (deleteApplication t id userId) in
  let r := snd (deleteApplication t id userId) in
  ((forall a, In a (app_rows t) -> application_id a = id ->
              app_user_id a <> userId) ->
   t' = t /\ r = error "해당 지원 내역을 찾을 수 없습니다." 404)
  /\ (forall a rest, own_application id userId t = a :: rest ->
        status a <> applying ->
        t' = t /\ r = error "지원 중 상태가 아닙니다." 400)
  /\ (is_success r = true ->
      exists a, In a (app_rows t) /\ application_id a = id
                /\ app_user_id a = userId /\ status a = applying
                /\ app_rows t'
                   = map (fun b => if application_id b =? id
                                   then set_status cancelled (app_updated_at b) b
                                   else b) (app_rows t)).
Proof.
  intros t' r. subst t' r. unfold deleteApplication. split; [|split].
  - intro H. unfold own_application. rewrite filter_none; [now split|].
    intros a Ha. destruct (application_id a =? id) eqn:E; [|reflexivity].
    apply Z.eqb_eq in E. specialize (H a Ha E). cbn [andb].
    now apply Z.eqb_neq.
  - intros a rest -> Hs. apply str_eqb_neq in Hs. rewrite Hs. now split.
  - destruct (own_application id userId t) as [|a rest] eqn:E; [discriminate|].
    destruct (str_eqb (status a) applying) eqn:Es; [|discriminate].
    intros _. exists a.
    assert (Ha : In a (own_application id userId t)) by (rewrite E; now left).
    apply filter_In in Ha as [Hin Ha]. apply andb_true_iff in Ha as [H1 H2].
    apply Z.eqb_eq in H1, H2. apply str_eqb_eq in Es.
    repeat split; auto.
Qed.

Lemma known_status_cases (v : str) :
  known_status v = true <->
  v = applying \/ v = cancelled \/ v = hired \/ v = rejected.
Proof.
  unfold known_status. cbn [existsb].
  rewrite orb_false_r, !orb_true_iff, !str_eqb_eq. tauto.
Qed.

(** X19.  The list of one's applications: a success holds at least
    one row and counts them, every row is an application of the
    caller, in the status asked for when a status is given (one of the
    four known ones), and the rows are ordered by the time of the
    application, newest first unless sortByDate is given and is not
    desc. *)
Theorem list_applications_answer (s : db) (t : applications) (userId : Z)
    (status_filter sortByDate : option str) (message : string)
    (data : application_list) (pg : option pagination) (is201 : bool) :
  list_applications s t userId status_filter sortByDate
  = success message data pg is201 ->
  totalCount data = Z.of_nat (List.length (applications_listed data))
  /\ 0 < totalCount data
  /\ Forall (fun row =>
               exists a, In a (app_rows t) /\ app_user_id a = userId
                         /\ ar_application_id row = application_id a
                         /\ ar_status row = status a
                         /\ ar_created_at row = app_created_at a
                         /\ (forall v, status_filter = Some v -> v <> [] ->
                               status a = v
                               /\ (v = applying \/ v = cancelled
                                   \/ v = hired \/ v = rejected)))
            (applications_listed data)
  /\ (if descending_order sortByDate
      then descending (map ar_created_at (applications_listed data))
      else ascending (map ar_created_at (applications_listed data))).
Proof.
  unfold list_applications.
  set (filtering := match status_filter with
                    | Some v => if truthy_str v then Some v else None
                    | None => None
                    end).
  destruct (match filtering with
            | Some v => negb (known_status v)
            | None => false
            end) eqn:Ek; [discriminate|].
  set (wanted := filter _ (app_rows t)).
  set (rows := flat_map (application_rows s) wanted).
  set (leb := fun a b : application_row => _).
  destruct (_ =? 0) eqn:Ez; [discriminate|].
  intros [= _ <- _ _]. cbn [totalCount applications_listed].
  apply Z.eqb_neq in Ez.
  split; [reflexivity|]. split; [lia|]. split.
  - apply Forall_forall. intros row Hrow.
    apply (Permutation_in _ (Permutation_sym (order_by_perm leb rows))) in Hrow.
    unfold rows in Hrow. apply in_flat_map in Hrow as (a & Ha & Hrow).
    unfold wanted in Ha. apply filter_In in Ha as [Hin Ha].
    apply andb_true_iff in Ha as [Hu Hs]. apply Z.eqb_eq in Hu.
    exists a. split; [exact Hin|]. split; [exact Hu|].
    unfold application_rows in Hrow.
    apply in_flat_map in Hrow as (u & _ & Hrow).
    apply in_flat_map in Hrow as (p & _ & Hrow).
    destruct (company_of p s); [|destruct Hrow].
    destruct Hrow as [<- | []]. cbn [ar_application_id ar_status ar_created_at].
    repeat (split; [reflexivity|]).
    intros v -> Hv. unfold filtering in Hs, Ek.
    rewrite (truthy_str_true v Hv) in Hs, Ek.
    apply str_eqb_eq in Hs. split; [exact Hs|].
    apply known_status_cases. now apply negb_false_iff in Ek.
  - assert (Hsorted : Sorted (fun a b => leb a b = true) (order_by leb rows)).
    { apply order_by_sorted. intros a b. unfold leb.
      destruct (descending_order sortByDate); rewrite !Z.leb_le; lia. }
    apply Sorted_StronglySorted in Hsorted.
    + unfold descending, ascending.
      remember (order_by leb rows) as ordered eqn:Eo. clear Eo Ez.
      destruct (descending_order sortByDate).
      * induction Hsorted as [|x l Hs IH Hall]; cbn [map]; constructor;
          [exact IH|].
        rewrite Forall_forall in *. intros n Hn.
        apply in_map_iff in Hn as (y & <- & Hy). specialize (Hall y Hy).
        unfold leb in Hall. apply Z.leb_le in Hall. lia.
      * induction Hsorted as [|x l Hs IH Hall]; cbn [map]; constructor;
          [exact IH|].
        rewrite Forall_forall in *. intros n Hn.
        apply in_map_iff in Hn as (y & <- & Hy). specialize (Hall y Hy).
        unfold leb in Hall. apply Z.leb_le in Hall. lia.
    + intros a b c. unfold leb.
      destruct (descending_order sortByDate); rewrite !Z.leb_le; lia.
Qed.

End Applications.

Lemma wf_no_applications : wf_applications no_applications.
Proof. intros a []. Qed.

(** X17, witness: user 7 and posting 1 on the empty table. *)
Lemma application_reactivation_witness :
  snd (ApplicationsAPI.apply 30
         (fst (ApplicationsAPI.deleteApplication
                 (fst (ApplicationsAPI.apply 10 no_applications 7 (Some 1))) 1 7))
         7 (Some 1))
  = success "취소된 지원이 다시 활성화되었습니다."
      {| ApplicationsAPI.applicationId := 1;
         ApplicationsAPI.ap_jobPostingId := 1;
         ApplicationsAPI.ap_status := ApplicationsAPI.applying |} None false.
Proof.
  apply (application_reactivation 10 30 no_applications 7 1 wf_no_applications);
    [discriminate | reflexivity].
Defined.

Lemma one_each_no_applications : one_application_each no_applications.
Proof. intros u j. cbn. lia. Qed.

(** X16, witness: user 7 applies, and a cancellation is asked for, on
    the empty table. *)
Lemma applications_one_each_witness :
  one_application_each
    (fst (ApplicationsAPI.apply 10 no_applications 7 (Some 1)))
  /\ one_application_each
       (fst (ApplicationsAPI.deleteApplication no_applications 1 7)).
Proof.
  destruct (applications_one_each 10 no_applications 7 1 (Some 1)
              one_each_no_applications) as (H1 & H2 & _).
  split; [exact H1 | exact H2].
Defined.

(** X18, witness: user 8 asks to cancel application 1 of user 7. *)
Lemma deleteApplication_guard_witness :
  fst (ApplicationsAPI.deleteApplication sample_applications 1 8)
  = sample_applications
  /\ snd (ApplicationsAPI.deleteApplication sample_applications 1 8)
     = error "해당 지원 내역을 찾을 수 없습니다." 404.
Proof.
  apply (deleteApplication_guard sample_applications 1 8).
  intros a Ha Hid. vm_compute in Ha.
  destruct Ha as [<- | [<- | []]]; discriminate.
Defined.

(** X19, witness: the cancelled applications of the member. *)
Lemma list_applications_answer_witness :
  exists message data pg is201,
    ApplicationsAPI.list_applications one_member member_applications 1
      (Some ApplicationsAPI.cancelled) None
    = success message data pg is201
    /\ ApplicationsAPI.totalCount data = 1
    /\ Forall (fun row => ApplicationsAPI.ar_status row = ApplicationsAPI.cancelled)
              (ApplicationsAPI.applications_listed data).
Proof.
  assert (E : exists message data pg is201,
             ApplicationsAPI.list_applications one_member member_applications 1
               (Some ApplicationsAPI.cancelled) None
             = success message data pg is201
             /\ ApplicationsAPI.totalCount data = 1).
  { do 4 eexists. split; [vm_compute; reflexivity | reflexivity]. }
  destruct E as (message & data & pg & is201 & E & L).
  exists message, data, pg, is201. split; [exact E|]. split; [exact L|].
  destruct (list_applications_answer _ _ _ _ _ _ _ _ _ E) as (_ & _ & H & _).
  eapply Forall_impl; [|exact H].
  intros row (a & _ & _ & _ & Hs & _ & Hv).
  rewrite Hs. apply (Hv _ eq_refl). discriminate.
Defined.

(* ================================================================= *)
(** ** Recommendations by preference *)

Section Preference.

Import RecommendationsAPI.

Lemma bookmarked_or_applied_liked (s : db) (apps : ApplicationsAPI.applications)
    (userId j : Z) :
  bookmarked_or_applied s apps userId j = true <-> liked s apps userId j.
Proof.
  unfold bookmarked_or_applied, liked.
  rewrite orb_true_iff, !existsb_exists. split.
  - intros [(b & Hb & H) | (a & Ha & H)]; apply andb_true_iff in H as [H1 H2];
      apply Z.eqb_eq in H1, H2; [left; now exists b | right; now exists a].
  - intros [(b & Hb & H1 & H2) | (a & Ha & H1 & H2)];
      [left; exists b | right; exists a]; (split; [assumption|]);
      now rewrite H1, H2, !Z.eqb_refl.
Qed.

Lemma applied_has_applied (apps : ApplicationsAPI.applications) (userId j : Z) :
  applied apps userId j = true <-> has_applied apps userId j.
Proof.
  unfold applied, has_applied. rewrite existsb_exists. split.
  - intros (a & Ha & H). apply andb_true_iff in H as [H1 H2].
    apply Z.eqb_eq in H1, H2. now exists a.
  - intros (a & Ha & H1 & H2). exists a. split; [assumption|].
    now rewrite H1, H2, !Z.eqb_refl.
Qed.

Lemma user_sectors_liked (s : db) (apps : ApplicationsAPI.applications)
    (userId sectorId : Z) :
  In sectorId (user_sectors s apps userId) ->
  exists j, In (j, sectorId) (links job_posting_sectors s)
            /\ liked s apps userId j.
Proof.
  unfold user_sectors. rewrite nodup_In, in_map_iff.
  intros ([j sid] & <- & H). apply filter_In in H as [Hin H].
  apply andb_true_iff in H as [_ H]. cbn [fst snd] in *.
  exists j. split; [exact Hin | now apply bookmarked_or_applied_liked].
Qed.

(** X21.  The recommendations by preference: a user without
    bookmarks and applications is answered 422; a page served holds at
    most 20 rows, each a stored posting the user has not applied to
    that has a sector in common with a posting the user bookmarked or
    applied to. *)
Theorem recommendations_answer (s : db) (apps : ApplicationsAPI.applications)
    (userId : Z) (q : option str) :
  (1 <= BookmarksAPI.page_of q ->
   (forall j, ~ liked s apps userId j) ->
   recommendations s apps userId q = error "북마크 및 지원란이 비어있습니다." 422)
  /\ (forall message rows pg is201,
        recommendations s apps userId q = success message rows pg is201 ->
        (List.length rows <= 20)%nat
        /\ Forall
             (fun row =>
                exists p, In p (t_job_postings s)
                          /\ row = recommended_row_of s (user_sectors s apps userId) p
                          /\ ~ has_applied apps userId (job_posting_id p)
                          /\ exists sectorId j,
                               In (job_posting_id p, sectorId)
                                  (links job_posting_sectors s)
                               /\ In (j, sectorId) (links job_posting_sectors s)
                               /\ liked s apps userId j)
             rows).
Proof.
  split.
  - intros Hp Hnone. unfold recommendations.
    replace (BookmarksAPI.page_of q <? 1) with false
      by (symmetry; apply Z.ltb_ge; lia).
    replace (user_sectors s apps userId) with (@nil Z); [reflexivity|].
    symmetry. unfold user_sectors. rewrite filter_none; [reflexivity|].
    intros js _. apply andb_false_iff. right.
    destruct (bookmarked_or_applied s apps userId (fst js)) eqn:E; [|reflexivity].
    apply bookmarked_or_applied_liked in E. now apply Hnone in E.
  - intros message rows pg is201. unfold recommendations.
    destruct (_ <? 1); [discriminate|].
    destruct (user_sectors s apps userId) as [|sid0 sids] eqn:Eu; [discriminate|].
    rewrite <- Eu. clear sid0 sids Eu.
    destruct (_ =? 0); [discriminate|].
    destruct (_ || _); [discriminate|].
    intros [= _ <- _ _]. split.
    + rewrite length_map. unfold limit_offset, PAGE_SIZE.
      change (Z.to_nat 20) with 20%nat. apply firstn_le_length.
    + apply Forall_forall. intros row Hrow.
      apply in_map_iff in Hrow as (p & <- & Hp).
      apply limit_offset_In in Hp. unfold recommended_query in Hp.
      apply filter_In in Hp as [Hin Hp].
      apply andb_true_iff in Hp as [Hp _]. apply andb_true_iff in Hp as [_ Hp].
      unfold recommended_where in Hp. apply andb_true_iff in Hp as [Hsec Happ].
      exists p. split; [exact Hin|]. split; [reflexivity|]. split.
      * intro H. apply applied_has_applied in H. rewrite H in Happ. discriminate.
      * apply existsb_exists in Hsec as ([j sid] & Hjs & H).
        cbn [fst snd] in H. apply andb_true_iff in H as [Hj Hsid].
        apply Z.eqb_eq in Hj. subst j.
        apply existsb_exists in Hsid as (sid' & Hsid' & E).
        apply Z.eqb_eq in E. subst sid'.
        destruct (user_sectors_liked s apps userId sid Hsid') as (j & Hj & Hl).
        now exists sid, j.
Qed.

(** X22.  The pages of the listing by pay: when no posting
    qualifies every request is answered as an invalid page (400), there
    being no "no results" answer; a page below 1 or above the last is
    an invalid page, and every page from 1 to the last is served with
    its pagination block. *)
Theorem getPayJobs_outcomes (s : db) (q : option str) :
  let page := BookmarksAPI.page_of q in
  let total := pay_total s in
  (total = 0 -> getPayJobs s q = invalid_page)
  /\ (ceil_div total 20 < page -> getPayJobs s q = invalid_page)
  /\ (page < 1 -> getPayJobs s q = invalid_page)
  /\ (1 <= page <= ceil_div total 20 ->
      getPayJobs s q
      = success "급여 순 공고 조회 성공"
          (map (format_row s) (limit_offset 20 ((page - 1) * 20) (pay_query s)))
          (Some (page_block page total)) false).
Proof.
  intros page total. unfold getPayJobs. fold page. fold (pay_total s). fold total.
  unfold PAGE_SIZE. cbn [totalPages].
  split; [|split; [|split]].
  - intros ->. change (ceil_div 0 20) with 0.
    destruct (page <? 1) eqn:E; [reflexivity|].
    apply Z.ltb_ge in E.
    now replace (0 <? page) with true by (symmetry; apply Z.ltb_lt; lia).
  - intro H. destruct (page <? 1); [reflexivity|].
    now replace (ceil_div total 20 <? page) with true
      by (symmetry; apply Z.ltb_lt; lia).
  - intro H. now replace (page <? 1) with true by (symmetry; apply Z.ltb_lt; lia).
  - intro H.
    replace (page <? 1) with false by (symmetry; apply Z.ltb_ge; lia).
    replace (ceil_div total 20 <? page) with false
      by (symmetry; apply Z.ltb_ge; lia).
    reflexivity.
Qed.

End Preference.

(* ================================================================= *)
(** ** The bookmarks of a user *)

(** X20.  The page of bookmarks served holds at most 20 rows, each a
    bookmark of the caller on a stored posting, the latest bookmark
    first. *)
Theorem list_bookmarks_rows (s : db) (userId : Z) (q : option str)
    (message : string) (rows : list BookmarksAPI.bookmark_row)
    (pg : option pagination) (is201 : bool) :
  BookmarksAPI.list_bookmarks s userId q = success message rows pg is201 ->
  (List.length rows <= 20)%nat
  /\ descending (map BookmarksAPI.br_created_at rows)
  /\ Forall
       (fun row =>
          exists b p, In b (t_bookmarks s) /\ bm_user_id b = userId
                      /\ In p (t_job_postings s)
                      /\ job_posting_id p = bm_job_posting_id b
                      /\ BookmarksAPI.br_job_posting_id row = job_posting_id p
                      /\ BookmarksAPI.br_title row = title p
                      /\ BookmarksAPI.br_created_at row = bm_created_at b)
       rows.
Proof.
  unfold BookmarksAPI.list_bookmarks.
  destruct (_ <? 1); [discriminate|].
  destruct (_ =? 0); [discriminate|].
  destruct (_ || _); [discriminate|].
  intros [= _ <- _ _].
  set (mine := filter _ (t_bookmarks s)).
  set (leb := fun a b : BookmarksAPI.bookmark_row => _).
  split; [|split].
  - unfold limit_offset, BookmarksAPI.PAGE_SIZE.
    change (Z.to_nat 20) with 20%nat. apply firstn_le_length.
  - apply descending_limit_offset.
    assert (H : Sorted (fun a b => leb a b = true)
                  (order_by leb (flat_map (BookmarksAPI.bookmark_rows s) mine))).
    { apply order_by_sorted. intros a b. unfold leb. rewrite !Z.leb_le. lia. }
    apply Sorted_StronglySorted in H.
    + unfold descending.
      induction H as [|x l Hs IH Hall]; cbn [map]; constructor; [exact IH|].
      rewrite Forall_forall in *. intros n Hn.
      apply in_map_iff in Hn as (y & <- & Hy). specialize (Hall y Hy).
      unfold leb in Hall. apply Z.leb_le in Hall. lia.
    + intros a b c. unfold leb. rewrite !Z.leb_le. lia.
  - apply Forall_forall. intros row Hrow. apply limit_offset_In in Hrow.
    apply (Permutation_in _ (Permutation_sym (order_by_perm leb _))) in Hrow.
    apply in_flat_map in Hrow as (b & Hb & Hrow).
    unfold mine in Hb. apply filter_In in Hb as [Hb Hu]. apply Z.eqb_eq in Hu.
    unfold BookmarksAPI.bookmark_rows in Hrow.
    apply in_flat_map in Hrow as (p & Hp & Hrow).
    apply filter_In in Hp as [Hp Hid]. apply Z.eqb_eq in Hid.
    destruct (company_of p s); [|destruct Hrow].
    destruct Hrow as [<- | []]. exists b, p. repeat split; auto.
Qed.

(** X21, witness: user 7 bookmarked posting 1 of the store with two
    postings. *)
Lemma recommendations_answer_witness :
  exists message rows pg is201,
    RecommendationsAPI.recommendations two_postings_bookmarked no_applications
      7 None
    = success message rows pg is201
    /\ List.length rows = 2%nat
    /\ Forall
         (fun row =>
            exists p,
              In p (t_job_postings two_postings_bookmarked)
              /\ row = RecommendationsAPI.recommended_row_of two_postings_bookmarked
                         (RecommendationsAPI.user_sectors two_postings_bookmarked
                            no_applications 7) p
              /\ ~ has_applied no_applications 7 (job_posting_id p)
              /\ exists sectorId j,
                   In (job_posting_id p, sectorId)
                      (links job_posting_sectors two_postings_bookmarked)
                   /\ In (j, sectorId)
                         (links job_posting_sectors two_postings_bookmarked)
                   /\ liked two_postings_bookmarked no_applications 7 j)
         rows.
Proof.
  assert (E : exists message rows pg is201,
             RecommendationsAPI.recommendations two_postings_bookmarked
               no_applications 7 None
             = success message rows pg is201
             /\ List.length rows = 2%nat).
  { do 4 eexists. split; [vm_compute; reflexivity | reflexivity]. }
  destruct E as (message & rows & pg & is201 & E & L).
  exists message, rows, pg, is201. split; [exact E|]. split; [exact L|].
  exact (proj2 (proj2 (recommendations_answer two_postings_bookmarked
                         no_applications 7 None) message rows pg is201 E)).
Defined.

(** X20, witness: the bookmark of user 7 on posting 1. *)
Lemma list_bookmarks_rows_witness :
  exists message rows pg is201,
    BookmarksAPI.list_bookmarks two_postings_bookmarked 7 None
    = success message rows pg is201
    /\ List.length rows = 1%nat
    /\ descending (map BookmarksAPI.br_created_at rows)
    /\ Forall (fun row => exists b, In b (t_bookmarks two_postings_bookmarked)
                                    /\ bm_user_id b = 7
                                    /\ BookmarksAPI.br_job_posting_id row
                                       = bm_job_posting_id b) rows.
Proof.
  assert (E : exists message rows pg is201,
             BookmarksAPI.list_bookmarks two_postings_bookmarked 7 None
             = success message rows pg is201
             /\ List.length rows = 1%nat).
  { do 4 eexists. split; [vm_compute; reflexivity | reflexivity]. }
  destruct E as (message & rows & pg & is201 & E & L).
  exists message, rows, pg, is201. split; [exact E|]. split; [exact L|].
  destruct (list_bookmarks_rows _ _ _ _ _ _ _ E) as (_ & Hd & H).
  split; [exact Hd|]. eapply Forall_impl; [|exact H].
  intros row (b & p & Hb & Hu & _ & Hid & H1 & _).
  exists b. split; [exact Hb|]. split; [exact Hu|]. rewrite H1. exact Hid.
Defined.

(** X22, witness: the empty store and the sample store. *)
Lemma getPayJobs_outcomes_witness :
  RecommendationsAPI.getPayJobs DB.empty None = invalid_page
  /\ is_success (RecommendationsAPI.getPayJobs sample_store None) = true.
Proof.
  pose proof (getPayJobs_outcomes DB.empty None) as H1.
  pose proof (getPayJobs_outcomes sample_store None) as H2.
  cbv zeta in H1, H2.
  destruct H1 as (H1 & _). destruct H2 as (_ & _ & _ & H2).
  split.
  - apply H1. reflexivity.
  - rewrite H2; [reflexivity|]. vm_compute. split; discriminate.
Defined.

(* ================================================================= *)
(** ** Regular expressions: the test by derivatives is the language *)

Section RegexCorrect.

Import Regex.

Lemma nullable_denotes (r : re) : nullable r = true <-> denotes r [].
Proof.
  induction r as [| |p|a IHa b IHb|a IHa b IHb|a IHa]; cbn [nullable].
  - split; [discriminate | intro H; inversion H].
  - split; [constructor | reflexivity].
  - split; [discriminate | intro H; inversion H].
  - rewrite andb_true_iff, IHa, IHb. split.
    + intros [Ha Hb]. exact (denotes_cat a b [] [] Ha Hb).
    + intro H. inversion H as [| |a' b' s1 s2 H1 H2 E1 E2| | | |]. subst.
      apply app_eq_nil in E2 as [-> ->]. now split.
  - rewrite orb_true_iff, IHa, IHb. split.
    + intros [H | H]; [now apply denotes_alt_l | now apply denotes_alt_r].
    + intro H. inversion H; subst; auto.
  - split; [constructor | reflexivity].
Qed.

Lemma denotes_star_cons_inv (a : re) (c : N) (s : str) :
  denotes (Star a) (c :: s) ->
  exists s1 s2, s = s1 ++ s2 /\ denotes a (c :: s1) /\ denotes (Star a) s2.
Proof.
  intro H. remember (Star a) as r eqn:Er. remember (c :: s) as t eqn:Et.
  revert Er Et.
  induction H as [| | | | | |a' s1 s2 H1 _ H2 IH2]; try discriminate.
  intros [= ->] Et. destruct s1 as [|x s1].
  - cbn in Et. now apply IH2.
  - cbn in Et. injection Et as -> <-. now exists s1, s2.
Qed.

Lemma deriv_denotes (r : re) (c : N) (s : str) :
  denotes (deriv c r) s <-> denotes r (c :: s).
Proof.
  revert s. induction r as [| |p|a IHa b IHb|a IHa b IHb|a IHa]; intro s;
    cbn [deriv].
  - split; intro H; inversion H.
  - split; intro H; inversion H.
  - destruct (p c) eqn:E; split; intro H; inversion H; subst.
    + now constructor.
    + constructor.
    + congruence.
  - split.
    + intro H.
      assert (Hcat : denotes (Cat (deriv c a) b) s -> denotes (Cat a b) (c :: s)).
      { intro H'. inversion H' as [| |a' b' s1 s2 H1 H2 E1 E2| | | |]. subst.
        apply IHa in H1. exact (denotes_cat a b (c :: s1) s2 H1 H2). }
      destruct (nullable a) eqn:En.
      * inversion H as [| | |a' b' s' H'|a' b' s' H'| |]; subst.
        -- now apply Hcat.
        -- apply IHb in H'. apply nullable_denotes in En.
           exact (denotes_cat a b [] (c :: s) En H').
      * now apply Hcat.
    + intro H. inversion H as [| |a' b' s1 s2 H1 H2 E1 E2| | | |]. subst.
      destruct s1 as [|x s1].
      * cbn in E2. subst s2. apply nullable_denotes in H1. rewrite H1.
        apply denotes_alt_r. now apply IHb.
      * cbn in E2. injection E2 as -> <-. apply IHa in H1.
        pose proof (denotes_cat (deriv c a) b s1 s2 H1 H2) as Hc.
        destruct (nullable a); [now apply denotes_alt_l | exact Hc].
  - split; intro H; inversion H; subst.
    + apply denotes_alt_l. now apply IHa.
    + apply denotes_alt_r. now apply IHb.
    + apply denotes_alt_l. now apply IHa.
    + apply denotes_alt_r. now apply IHb.
  - split.
    + intro H. inversion H as [| |a' b' s1 s2 H1 H2 E1 E2| | | |]. subst.
      apply IHa in H1. exact (denotes_star_cons a (c :: s1) s2 H1 H2).
    + intro H. apply denotes_star_cons_inv in H as (s1 & s2 & -> & H1 & H2).
      apply IHa in H1. now constructor.
Qed.

(** [/^r$/.test(s)] tells whether [s] is in the language of [r]. *)
Lemma test_denotes (r : re) (s : str) : test r s = true <-> denotes r s.
Proof.
  unfold test. revert r. induction s as [|c s IH]; intro r; cbn [fold_left].
  - apply nullable_denotes.
  - rewrite IH. apply deriv_denotes.
Qed.

Lemma denotes_star_class (p : N -> bool) (s : str) :
  denotes (Star (Class p)) s <-> Forall (fun c => p c = true) s.
Proof.
  split.
  - intro H. remember (Star (Class p)) as r eqn:Er. revert Er.
    induction H as [| | | | | |a s1 s2 H1 _ H2 IH2]; try discriminate.
    + constructor.
    + intros [= ->]. inversion H1; subst. constructor; auto.
  - induction 1 as [|c l Hc Hl IH]; [constructor|].
    change (c :: l) with ([c] ++ l). constructor; [now constructor | exact IH].
Qed.

Lemma denotes_plus_class (p : N -> bool) (s : str) :
  denotes (Plus (Class p)) s <-> some_of p s.
Proof.
  unfold Plus, some_of. split.
  - intro H. inversion H as [| |a b s1 s2 H1 H2 E1 E2| | | |]. subst.
    inversion H1; subst. apply denotes_star_class in H2.
    split; [discriminate | now constructor].
  - intros [Hne H]. destruct H as [|c l Hc Hl]; [congruence|].
    change (c :: l) with ([c] ++ l).
    constructor; [now constructor | now apply denotes_star_class].
Qed.

Lemma denotes_one (c : N) (s : str) :
  denotes (Class (fun x => (x =? c)%N)) s <-> s = [c].
Proof.
  split.
  - intro H. inversion H; subst. f_equal. now apply N.eqb_eq.
  - intros ->. constructor. apply N.eqb_refl.
Qed.

End RegexCorrect.

(** What [emailRegex] accepts. *)
Lemma emailRegex_shape (email : str) :
  Regex.test AuthAPI.emailRegex email = true <-> email_shape email.
Proof.
  rewrite test_denotes. unfold AuthAPI.emailRegex, email_shape. split.
  - intro H.
    inversion H as [| |a1 b1 local r1 Hl H1 E1 E2| | | |]. subst. clear H.
    inversion H1 as [| |a2 b2 at1 r2 Ha H2 E1 E2| | | |]. subst. clear H1.
    inversion H2 as [| |a3 b3 domain r3 Hd H3 E1 E2| | | |]. subst. clear H2.
    inversion H3 as [| |a4 b4 dot1 tld Hdot Ht E1 E2| | | |]. subst. clear H3.
    apply denotes_plus_class in Hl, Hd, Ht.
    apply denotes_one in Ha, Hdot. subst.
    exists local, domain, tld. auto.
  - intros (local & domain & tld & -> & Hl & Hd & Ht).
    apply denotes_plus_class in Hl, Hd, Ht.
    repeat (constructor; try assumption); apply N.eqb_refl.
Qed.

(* ================================================================= *)
(** ** The stored password *)

Section Passwords.

Import AuthAPI.

Lemma base64_char_inj (x y : Z) :
  0 <= x < 64 -> 0 <= y < 64 -> base64_char x = base64_char y -> x = y.
Proof.
  unfold base64_char. intros Hx Hy.
  destruct (Z.ltb_spec x 26), (Z.ltb_spec x 52), (Z.ltb_spec x 62),
    (Z.eqb_spec x 62), (Z.ltb_spec y 26), (Z.ltb_spec y 52),
    (Z.ltb_spec y 62), (Z.eqb_spec y 62); lia.
Qed.

Lemma base64_char_not_pad (x : Z) : 0 <= x -> base64_char x <> equals_sign.
Proof.
  unfold base64_char, equals_sign. intros Hx.
  destruct (Z.ltb_spec x 26), (Z.ltb_spec x 52), (Z.ltb_spec x 62),
    (Z.eqb_spec x 62); lia.
Qed.

Ltac div_lia := Z.div_mod_to_equations; lia.

Ltac base64_pad :=
  match goal with
  | H : base64_char ?x = equals_sign |- _ =>
    exfalso; apply (base64_char_not_pad x); [div_lia | exact H]
  | H : equals_sign = base64_char ?x |- _ =>
    exfalso; apply (base64_char_not_pad x); [div_lia | symmetry; exact H]
  end.

Ltac base64_eq :=
  repeat match goal with
         | H : base64_char ?x = base64_char ?y |- _ =>
           let E := fresh "E" in
           assert (E : x = y) by (apply base64_char_inj; [div_lia | div_lia | exact H]);
           clear H
         end.

(** The encoding loses nothing: two lists of bytes with the same
    base64 text are the same. *)
Lemma base64_bytes_inj (l l' : list Z) :
  byte_list l -> byte_list l' -> base64_bytes l = base64_bytes l' -> l = l'.
Proof.
  remember (List.length l) as n eqn:En.
  assert (Hn : (List.length l <= n)%nat) by lia. clear En.
  revert l l' Hn. induction n as [|n IH]; intros l l' Hn Hl Hl' H.
  - destruct l; [|cbn in Hn; lia].
    destruct l' as [|a' [|b' [|c' r']]]; [reflexivity|discriminate..].
  - destruct l as [|a [|b [|c r]]]; destruct l' as [|a' [|b' [|c' r']]];
      try reflexivity; try discriminate;
      unfold byte_list in Hl, Hl';
      repeat match goal with
             | H : Forall _ (_ :: _) |- _ => inversion H; subst; clear H
             end;
      cbn [base64_bytes app] in H; injection H; clear H; intros;
      try base64_pad; base64_eq.
    + f_equal. div_lia.
    + f_equal; [div_lia | f_equal; div_lia].
    + assert (r = r') as ->.
      { apply IH; [cbn in Hn; lia | assumption..]. }
      f_equal; [div_lia | f_equal; [div_lia | f_equal; div_lia]].
Qed.

Lemma utf8_of_code_point_head (cp : N) :
  (128 <= cp)%N ->
  exists b rest, utf8_of_code_point cp = b :: rest /\ (128 <= b)%N.
Proof.
  intro H. unfold utf8_of_code_point.
  replace (cp <? 128)%N with false by (symmetry; apply N.ltb_ge; lia).
  destruct (cp <? 2048)%N; [|destruct (cp <? 65536)%N];
    eexists; eexists; (split; [reflexivity | lia]).
Qed.

Lemma surrogate_large (c : N) :
  is_high_surrogate c = true \/ is_low_surrogate c = true -> (128 <= c)%N.
Proof.
  unfold is_high_surrogate, is_low_surrogate.
  rewrite !andb_true_iff, !N.leb_le. lia.
Qed.

Lemma utf8_of_code_point_ascii (c : N) :
  (c < 128)%N -> utf8_of_code_point c = [c].
Proof.
  intro H. unfold utf8_of_code_point. now apply N.ltb_lt in H as ->.
Qed.

Lemma not_surrogate (c : N) :
  (c < 128)%N -> is_high_surrogate c = false /\ is_low_surrogate c = false.
Proof.
  intro H. unfold is_high_surrogate, is_low_surrogate.
  replace (55296 <=? c)%N with false by (symmetry; apply N.leb_gt; lia).
  replace (56320 <=? c)%N with false by (symmetry; apply N.leb_gt; lia).
  split; reflexivity.
Qed.

Lemma utf8_encode_ascii (s : str) : ascii_text s -> utf8_encode s = s.
Proof.
  induction 1 as [|c r Hc Hr IH]; [reflexivity|].
  cbn [utf8_encode]. destruct (not_surrogate c Hc) as [-> ->].
  rewrite (utf8_of_code_point_ascii c Hc). cbn. now rewrite IH.
Qed.

(** A text whose encoding holds bytes below 128 only is that
    encoding. *)
Lemma utf8_encode_ascii_inv (s' s : str) :
  ascii_text s -> utf8_encode s' = s -> s' = s.
Proof.
  revert s. induction s' as [|c r IH]; intros s Hs H; [now cbn in H|].
  assert (Hhead : forall cp rest,
             (128 <= cp)%N -> utf8_of_code_point cp ++ rest <> s).
  { intros cp rest Hcp E.
    destruct (utf8_of_code_point_head cp Hcp) as (b & t & Eb & Hb).
    rewrite Eb in E. unfold ascii_text in Hs. rewrite <- E in Hs.
    cbn [app] in Hs. apply Forall_inv in Hs. lia. }
  cbn [utf8_encode] in H.
  destruct (is_high_surrogate c) eqn:Eh.
  - exfalso. destruct r as [|d r'].
    + apply (Hhead 65533%N []); [lia | now rewrite app_nil_r].
    + destruct (is_low_surrogate d).
      * eapply Hhead; [|exact H]. rewrite <- N.add_assoc.
        apply N.le_trans with 65536%N; [lia | apply N.le_add_r].
      * eapply Hhead; [|exact H]. lia.
  - destruct (is_low_surrogate c) eqn:El.
    + exfalso. eapply Hhead; [|exact H]. lia.
    + destruct (N.ltb_spec c 128) as [Hc | Hc].
      * rewrite (utf8_of_code_point_ascii c Hc) in H. cbn in H.
        unfold ascii_text in Hs. rewrite <- H in Hs. rewrite <- H. f_equal.
        apply IH; [exact (Forall_inv_tail Hs) | reflexivity].
      * exfalso. eapply Hhead; [|exact H]. exact Hc.
Qed.

Lemma land_63 (x : N) : (N.land x 63 < 64)%N.
Proof.
  change 63%N with (N.ones 6). rewrite N.land_ones.
  change (2 ^ 6)%N with 64%N. now apply N.mod_lt.
Qed.

Lemma shiftr_lt (x k q : N) : (x < 2 ^ k * q)%N -> (N.shiftr x k < q)%N.
Proof.
  intro H. rewrite N.shiftr_div_pow2.
  apply N.Div0.div_lt_upper_bound. exact H.
Qed.

Lemma utf8_of_code_point_bytes (cp : N) :
  (cp < 1114112)%N -> Forall (fun b => (b < 256)%N) (utf8_of_code_point cp).
Proof.
  intro H. unfold utf8_of_code_point.
  destruct (N.ltb_spec cp 128); [|destruct (N.ltb_spec cp 2048);
                                   [|destruct (N.ltb_spec cp 65536)]].
  - repeat constructor. lia.
  - pose proof (shiftr_lt cp 6 32 ltac:(cbn; lia)).
    pose proof (land_63 cp). repeat constructor; lia.
  - pose proof (shiftr_lt cp 12 16 ltac:(cbn; lia)).
    pose proof (land_63 (N.shiftr cp 6)). pose proof (land_63 cp).
    repeat constructor; lia.
  - pose proof (shiftr_lt cp 18 5 ltac:(cbn; lia)).
    pose proof (land_63 (N.shiftr cp 12)).
    pose proof (land_63 (N.shiftr cp 6)). pose proof (land_63 cp).
    repeat constructor; lia.
Qed.

Lemma surrogate_pair_bound (c d : N) :
  is_high_surrogate c = true -> is_low_surrogate d = true ->
  (65536 + N.shiftl (c - 55296) 10 + (d - 56320) < 1114112)%N.
Proof.
  unfold is_high_surrogate, is_low_surrogate.
  rewrite !andb_true_iff, !N.leb_le, !N.ltb_lt. intros [H1 H2] [H3 H4].
  rewrite N.shiftl_mul_pow2. change (2 ^ 10)%N with 1024%N. lia.
Qed.

Lemma utf8_encode_bytes (s : str) :
  code_units s -> Forall (fun b => (b < 256)%N) (utf8_encode s).
Proof.
  remember (List.length s) as n eqn:En.
  assert (Hn : (List.length s <= n)%nat) by lia. clear En.
  revert s Hn. induction n as [|n IH]; intros s Hn Hs.
  - destruct s; [constructor | cbn in Hn; lia].
  - destruct s as [|c r]; [constructor|].
    unfold code_units in Hs. pose proof (Forall_inv Hs) as Hc.
    pose proof (Forall_inv_tail Hs) as Hr. cbn beta in Hc.
    assert (Hfffd : Forall (fun b => (b < 256)%N) (utf8_of_code_point 65533))
      by (apply utf8_of_code_point_bytes; lia).
    assert (IHr : Forall (fun b => (b < 256)%N) (utf8_encode r)).
    { apply IH; [cbn in Hn; lia | exact Hr]. }
    cbn [utf8_encode]. destruct (is_high_surrogate c) eqn:Eh.
    + destruct r as [|d r']; [exact Hfffd|].
      destruct (is_low_surrogate d) eqn:El.
      * apply Forall_app. split.
        -- apply utf8_of_code_point_bytes. now apply surrogate_pair_bound.
        -- apply IH; [cbn in Hn; lia | exact (Forall_inv_tail Hr)].
      * apply Forall_app. now split.
    + destruct (is_low_surrogate c); apply Forall_app; split; auto.
      apply utf8_of_code_point_bytes. lia.
Qed.

(** Whoever knows a text that encodes to the stored password knows
    the password. *)
Lemma base64_inj (password password' : str) :
  ascii_text password -> code_units password' ->
  base64 password' = base64 password -> password' = password.
Proof.
  intros Ha Hc H. unfold base64 in H.
  assert (Hb : forall s, code_units s -> byte_list (map Z.of_N (utf8_encode s))).
  { intros s Hs. unfold byte_list. apply Forall_map.
    eapply Forall_impl; [|apply (utf8_encode_bytes s Hs)]. cbn. lia. }
  assert (Hca : code_units password).
  { eapply Forall_impl; [|exact Ha]. cbn. lia. }
  apply base64_bytes_inj in H; [|now apply Hb..].
  assert (E : utf8_encode password' = utf8_encode password).
  { revert H. generalize (utf8_encode password'), (utf8_encode password).
    induction l as [|x l IH]; intros [|y l'] H; try discriminate; [reflexivity|].
    cbn in H. injection H as Hx Hl. f_equal; [lia | now apply IH]. }
  rewrite (utf8_encode_ascii password Ha) in E.
  now apply utf8_encode_ascii_inv.
Qed.

Lemma password_ascii (password : str) :
  some_of password_char password -> ascii_text password.
Proof.
  intros [_ H]. eapply Forall_impl; [|exact H]. intro c.
  unfold password_char, is_alnum, at_sign.
  rewrite !orb_true_iff, !andb_true_iff, !N.leb_le, !N.eqb_eq. lia.
Qed.

End Passwords.

(* ================================================================= *)
(** ** Accounts *)

Section Accounts.

Import AuthAPI.

Lemma some_of_truthy (p : N -> bool) (s : str) : some_of p s -> truthy_str s = true.
Proof. intros [H _]. now apply truthy_str_true. Qed.

Lemma email_shape_truthy (email : str) : email_shape email -> truthy_str email = true.
Proof.
  intros (l & d & t & -> & [Hl _] & _). apply truthy_str_true.
  destruct l; [congruence | discriminate].
Qed.

Lemma test_name (name : str) : Regex.test nameRegex name = true <-> some_of name_char name.
Proof. rewrite test_denotes. apply denotes_plus_class. Qed.

Lemma test_password (password : str) :
  Regex.test passwordRegex password = true <-> some_of password_char password.
Proof. rewrite test_denotes. apply denotes_plus_class. Qed.

Lemma register_succeeds (s : db) (email password name : str) :
  email_shape email -> email <> example_email ->
  some_of name_char name -> some_of password_char password ->
  users_with_email email s = [] ->
  register s (register_with email password name)
  = (with_users (t_users s ++ [registered_user s email password name])
       (users_auto s + 1) s,
     success "회원 가입 성공" email None true).
Proof.
  intros He Hx Hn Hp Hu. unfold register, register_with.
  cbn [AuthAPI.email AuthAPI.password AuthAPI.name].
  rewrite (email_shape_truthy email He), (some_of_truthy _ _ Hn),
    (some_of_truthy _ _ Hp). cbn [negb orb].
  apply emailRegex_shape in He. rewrite He.
  apply str_eqb_neq in Hx. rewrite Hx. cbn [negb orb].
  apply test_name in Hn. rewrite Hn.
  apply test_password in Hp. rewrite Hp. cbn [negb].
  now rewrite Hu.
Qed.

Lemma register_success_inv (s : db) (req : register_request) :
  is_success (snd (register s req)) = true ->
  exists email password name,
    req = register_with email password name
    /\ email_shape email /\ email <> example_email
    /\ some_of name_char name /\ some_of password_char password
    /\ users_with_email email s = [].
Proof.
  unfold register. destruct req as [[email|] [password|] [name|]];
    cbn [AuthAPI.email AuthAPI.password AuthAPI.name]; try discriminate.
  destruct (_ || _ || _); [discriminate|].
  destruct (Regex.test emailRegex email) eqn:He; [|discriminate].
  destruct (str_eqb email example_email) eqn:Hx; [discriminate|].
  cbn [negb orb].
  destruct (Regex.test nameRegex name) eqn:Hn; [|discriminate].
  destruct (Regex.test passwordRegex password) eqn:Hp; [|discriminate].
  cbn [negb].
  destruct (users_with_email email s) eqn:Hu; [|discriminate].
  intros _. exists email, password, name.
  split; [reflexivity|]. split; [now apply emailRegex_shape|].
  split; [now apply str_eqb_neq|]. split; [now apply test_name|].
  split; [now apply test_password | exact Hu].
Qed.

(** X23.  What a registration must be: it succeeds exactly when the
    email has the shape local@domain.tld (no part empty, none holding
    white space or an at sign) and is not the example address, the
    name is a non-empty text of letters, digits and Hangul syllables,
    the password a non-empty text of letters, digits, exclamation
    marks and at signs, and no user has the email; the user is then
    appended with the next id. *)
Theorem register_accepts (s : db) (req : register_request) :
  (forall email password name,
      req = register_with email password name ->
      email_shape email -> email <> example_email ->
      some_of name_char name -> some_of password_char password ->
      users_with_email email s = [] ->
      register s req
      = (with_users (t_users s ++ [registered_user s email password name])
           (users_auto s + 1) s,
         success "회원 가입 성공" email None true))
  /\ (is_success (snd (register s req)) = true ->
      exists email password name,
        req = register_with email password name
        /\ email_shape email /\ email <> example_email
        /\ some_of name_char name /\ some_of password_char password
        /\ users_with_email email s = []).
Proof.
  split.
  - intros email password name ->. apply register_succeeds.
  - apply register_success_inv.
Qed.

Variable sign : secret -> Z -> str -> str.

Lemma users_with_email_new (s : db) (email password name : str) :
  users_with_email email s = [] ->
  users_with_email email
    (with_users (t_users s ++ [registered_user s email password name])
       (users_auto s + 1) s)
  = [registered_user s email password name].
Proof.
  intro H. unfold users_with_email in *. cbn [t_users with_users].
  rewrite filter_app, H. cbn [filter app usr_email registered_user].
  now rewrite str_eqb_refl.
Qed.

(** X24.  After a successful registration, logging in with the same
    email and password succeeds, records the login and hands out the
    two tokens of the new user; with any other password the login
    fails and nothing is recorded. *)
Theorem register_then_login (now : Z) (s : db) (history : login_history)
    (email password name : str) :
  is_success (snd (register s (register_with email password name))) = true ->
  let s' := fst (register s (register_with email password name)) in
  login sign now s' history (login_with email password)
  = (history ++ [(users_auto s, now)],
     success "로그인 성공"
       {| accessToken := sign SECRET_KEY (users_auto s) (js "1h");
          refreshToken := sign REFRESH_SECRET_KEY (users_auto s) (js "7d") |}
       None false)
  /\ forall password',
       code_units password' -> password' <> password ->
       fst (login sign now s' history (login_with email password')) = history
       /\ is_success (snd (login sign now s' history (login_with email password')))
          = false.
Proof.
  intros Hok s'. subst s'.
  destruct (register_success_inv s _ Hok)
    as (e & p & n & [= <- <- <-] & He & Hx & Hn & Hp & Hu).
  rewrite (register_succeeds s email password name He Hx Hn Hp Hu).
  cbn [fst]. unfold login, login_with. cbn [l_email l_password].
  rewrite (users_with_email_new s email password name Hu).
  rewrite (email_shape_truthy email He). cbn [negb orb].
  cbn [usr_password usr_id registered_user]. split.
  - rewrite (some_of_truthy _ _ Hp), str_eqb_refl. reflexivity.
  - intros password' Hc Hne.
    destruct (truthy_str password'); cbn [negb]; [|split; reflexivity].
    destruct (str_eqb (base64 password) (base64 password')) eqn:E;
      [|split; reflexivity].
    apply str_eqb_eq in E. symmetry in E.
    apply base64_inj in E; [congruence | now apply password_ascii | exact Hc].
Qed.

Variable verify : secret -> str -> option Z.

Lemma filter_map_le {A} (P Q : A -> bool) (f : A -> A) (l : list A) :
  (forall u, In u l -> P (f u) = true -> Q u = true) ->
  (List.length (filter P (map f l)) <= List.length (filter Q l))%nat.
Proof.
  induction l as [|a l IH]; intro H; [cbn; lia|].
  cbn [map filter].
  assert (IH' : (List.length (filter P (map f l)) <= List.length (filter Q l))%nat).
  { apply IH. intros u Hu. apply H. now right. }
  destruct (P (f a)) eqn:E.
  - rewrite (H a (or_introl eq_refl) E). cbn. lia.
  - destruct (Q a); cbn; lia.
Qed.

Lemma filter_filter_le {A} (P Q : A -> bool) (l : list A) :
  (List.length (filter P (filter Q l)) <= List.length (filter P l))%nat.
Proof.
  induction l as [|a l IH]; [cbn; lia|]. cbn [filter].
  destruct (Q a), (P a) eqn:E; cbn [filter List.length]; rewrite ?E;
    cbn [List.length]; lia.
Qed.

Lemma NoDup_count {A} (g : A -> Z) (v : Z) (l : list A) :
  NoDup (map g l) -> (List.length (filter (fun u => Z.eqb (g u) v) l) <= 1)%nat.
Proof.
  induction l as [|a l IH]; intro H; [cbn; lia|].
  cbn [map] in H. inversion H as [|x m Hnotin Hnd]; subst.
  cbn [filter]. destruct (Z.eqb_spec (g a) v) as [E | E]; [|now apply IH].
  rewrite filter_none; [cbn; lia|].
  intros u Hu. apply Z.eqb_neq. intro Eu. apply Hnotin.
  rewrite E, <- Eu. now apply in_map.
Qed.

Lemma NoDup_map_filter {A} (g : A -> Z) (P : A -> bool) (l : list A) :
  NoDup (map g l) -> NoDup (map g (filter P l)).
Proof.
  induction l as [|a l IH]; intro H; [constructor|].
  cbn [map] in H. inversion H as [|x m Hnotin Hnd]; subst.
  cbn [filter]. destruct (P a); [|now apply IH].
  cbn [map]. constructor; [|now apply IH].
  intro Hin. apply Hnotin. apply in_map_iff in Hin as (u & Eu & Hu).
  apply filter_In in Hu as [Hu _]. rewrite <- Eu. now apply in_map.
Qed.

Lemma register_failure (s : db) (req : register_request) :
  is_success (snd (register s req)) = false -> fst (register s req) = s.
Proof.
  unfold register. destruct req as [[e|] [p|] [n|]];
    cbn [AuthAPI.email AuthAPI.password AuthAPI.name]; try reflexivity.
  destruct (_ || _ || _); [reflexivity|].
  destruct (_ || _); [reflexivity|].
  destruct (negb _); [reflexivity|].
  destruct (negb _); [reflexivity|].
  destruct (users_with_email e s); [discriminate | reflexivity].
Qed.

Lemma register_wf_users (s : db) (req : register_request) :
  wf_users s -> wf_users (fst (register s req)).
Proof.
  intros (Hauto & Hid & Hnd & He).
  destruct (is_success (snd (register s req))) eqn:Eok;
    [|rewrite (register_failure s req Eok);
      exact (conj Hauto (conj Hid (conj Hnd He)))].
  destruct (register_success_inv s req Eok)
    as (e & p & n & -> & Hs & Hx & Hn & Hp & Hu).
  rewrite (register_succeeds s e p n Hs Hx Hn Hp Hu).
  cbn [fst]. unfold wf_users. cbn [t_users users_auto with_users].
  split; [lia|]. split; [|split].
  - intros u. rewrite in_app_iff.
    intros [Hin | [<- | []]]; [specialize (Hid u Hin); lia|].
    cbn [usr_id registered_user]. lia.
  - rewrite map_app. cbn [map usr_id registered_user].
    apply NoDup_app; [exact Hnd | repeat constructor; intros [] |].
    intros x Hx1 [<- | []]. apply in_map_iff in Hx1 as (u & Eu & Hin).
    specialize (Hid u Hin). lia.
  - intro e'. unfold users_with_email in *. cbn [t_users with_users].
    rewrite filter_app, length_app. cbn [filter usr_email registered_user].
    destruct (str_eqb e e') eqn:E.
    + apply str_eqb_eq in E. subst e'. rewrite Hu. cbn. lia.
    + specialize (He e'). cbn. lia.
Qed.

Lemma update_user_wf (password name email : option str) (userId : Z) (s : db) :
  wf_users s ->
  (forall e, email = Some e -> users_with_email e s = []) ->
  wf_users (update_user password name email userId s).
Proof.
  intros (Hauto & Hid & Hnd & He) Hfree. unfold wf_users, update_user.
  cbn [t_users users_auto with_users].
  set (f := fun u : user => if usr_id u =? userId then _ else u).
  assert (Hf : forall u, usr_id (f u) = usr_id u).
  { intro u. unfold f. now destruct (usr_id u =? userId). }
  split; [exact Hauto|]. split; [|split].
  - intros u Hu. apply in_map_iff in Hu as (u0 & <- & Hin).
    rewrite Hf. now apply Hid.
  - rewrite map_map, (map_ext _ usr_id Hf). exact Hnd.
  - intro e'. unfold users_with_email in *. cbn [t_users with_users].
    destruct email as [e|].
    + destruct (str_eqb e e') eqn:E.
      * apply str_eqb_eq in E. subst e'.
        apply Nat.le_trans
          with (List.length (filter (fun u => usr_id u =? userId) (t_users s))).
        -- apply filter_map_le. intros u Hin Hu. unfold f in Hu.
           destruct (usr_id u =? userId); [reflexivity|].
           exfalso. specialize (Hfree e eq_refl).
           assert (Hin' : In u (filter (fun u => str_eqb (usr_email u) e)
                                  (t_users s)))
             by (apply filter_In; now split).
           rewrite Hfree in Hin'. destruct Hin'.
        -- now apply NoDup_count.
      * apply Nat.le_trans
          with (List.length (filter (fun u => str_eqb (usr_email u) e')
                               (t_users s))); [|apply He].
        apply filter_map_le. intros u Hin Hu. unfold f in Hu.
        destruct (usr_id u =? userId); [|exact Hu].
        cbn [usr_email coalesce] in Hu. congruence.
    + apply Nat.le_trans
        with (List.length (filter (fun u => str_eqb (usr_email u) e')
                             (t_users s))); [|apply He].
      apply filter_map_le. intros u Hin Hu. unfold f in Hu.
      now destruct (usr_id u =? userId).
Qed.

Lemma modify_wf_users (s : db) (authorization : option str)
    (req : register_request) :
  wf_users s -> wf_users (fst (modify verify s authorization req)).
Proof.
  intro Hwf. unfold modify.
  destruct (when_truthy (bearer_token authorization)) as [token|]; [|exact Hwf].
  destruct (verify SECRET_KEY token) as [userId|]; [|exact Hwf].
  destruct (when_truthy (email req)) as [e|] eqn:Ee.
  - destruct (users_with_email e s) eqn:Eu; [|exact Hwf].
    destruct (negb _); [exact Hwf|].
    destruct (match when_truthy (name req) with Some _ => _ | None => _ end);
      [exact Hwf|].
    destruct (match when_truthy (password req) with Some _ => _ | None => _ end);
      [exact Hwf|].
    cbn [fst]. apply update_user_wf; [exact Hwf|]. now intros e0 [= <-].
  - destruct (match when_truthy (name req) with Some _ => _ | None => _ end);
      [exact Hwf|].
    destruct (match when_truthy (password req) with Some _ => _ | None => _ end);
      [exact Hwf|].
    cbn [fst]. apply update_user_wf; [exact Hwf | discriminate].
Qed.

Lemma delete_account_wf_users (s : db) (authorization : option str) :
  wf_users s -> wf_users (fst (delete_account verify s authorization)).
Proof.
  intro Hwf. unfold delete_account.
  destruct (when_truthy (bearer_token authorization)) as [token|]; [|exact Hwf].
  destruct (verify SECRET_KEY token) as [userId|]; [|exact Hwf].
  destruct (filter _ (t_users s)) as [|u0 l0]; [exact Hwf|]. cbn [fst].
  destruct Hwf as (Hauto & Hid & Hnd & He).
  unfold wf_users. cbn [t_users users_auto with_users].
  split; [exact Hauto|]. split; [|split].
  - intros u Hu. apply filter_In in Hu as [Hu _]. now apply Hid.
  - now apply NoDup_map_filter.
  - intro e. unfold users_with_email in *. cbn [t_users with_users].
    eapply Nat.le_trans; [apply filter_filter_le | apply He].
Qed.

(** X25.  Registration, modification and deletion of accounts keep
    the user table well formed: ids below the counter, no two users
    with one id, no two users with one email. *)
Theorem accounts_stay_well_formed (s : db) (authorization : option str)
    (req : register_request) :
  wf_users s ->
  wf_users (fst (register s req))
  /\ wf_users (fst (modify verify s authorization req))
  /\ wf_users (fst (delete_account verify s authorization)).
Proof.
  intro H. split; [now apply register_wf_users|].
  split; [now apply modify_wf_users | now apply delete_account_wf_users].
Qed.

Lemma filter_negb_none {A} (P : A -> bool) (l : list A) :
  filter P l = [] -> filter (fun x => negb (P x)) l = l.
Proof.
  induction l as [|a l IH]; [reflexivity|]. cbn [filter].
  destruct (P a); [discriminate|]. intro H. cbn [negb]. now rewrite IH.
Qed.

Lemma filter_negb_same {A} (P : A -> bool) (l : list A) :
  filter P (filter (fun x => negb (P x)) l) = [].
Proof.
  apply filter_none. intros x Hx. apply filter_In in Hx as [_ Hx].
  now apply negb_true_iff.
Qed.

Lemma delete_account_users (s : db) (authorization : option str) (token : str)
    (userId : Z) :
  when_truthy (bearer_token authorization) = Some token ->
  verify SECRET_KEY token = Some userId ->
  t_users (fst (delete_account verify s authorization))
  = filter (fun u => negb (usr_id u =? userId)) (t_users s).
Proof.
  intros Ht Hv. unfold delete_account. rewrite Ht, Hv.
  destruct (filter (fun u => usr_id u =? userId) (t_users s)) as [|u l] eqn:E;
    [|reflexivity].
  cbn [fst]. symmetry. now apply filter_negb_none.
Qed.

(** X26.  A deleted account is gone: the user table loses exactly
    the user of the token, and afterwards the profile and a second
    deletion with the same token answer 404 and nobody can log in with
    the email of the deleted user. *)
Theorem delete_account_then_gone (now : Z) (s : db) (history : login_history)
    (authorization : option str) (token : str) (userId : Z) :
  wf_users s ->
  when_truthy (bearer_token authorization) = Some token ->
  verify SECRET_KEY token = Some userId ->
  let s' := fst (delete_account verify s authorization) in
  (forall u, In u (t_users s') <-> In u (t_users s) /\ usr_id u <> userId)
  /\ profile verify s' authorization = error "사용자를 찾을 수 없습니다." 404
  /\ snd (delete_account verify s' authorization)
     = error "해당 사용자를 찾을 수 없습니다." 404
  /\ (forall u password,
        In u (t_users s) -> usr_id u = userId ->
        is_success
          (snd (login sign now s' history (login_with (usr_email u) password)))
        = false).
Proof.
  intros Hwf Ht Hv s'.
  pose proof (delete_account_users s authorization token userId Ht Hv) as Es.
  fold s' in Es.
  assert (Hnone : filter (fun u => usr_id u =? userId) (t_users s') = []).
  { rewrite Es. apply (filter_negb_same (fun u => usr_id u =? userId)). }
  split; [|split; [|split]].
  - intro u. rewrite Es, filter_In, negb_true_iff, Z.eqb_neq. reflexivity.
  - unfold profile. now rewrite Ht, Hv, Hnone.
  - unfold delete_account. now rewrite Ht, Hv, Hnone.
  - intros u password Hin Hid.
    assert (Hu : users_with_email (usr_email u) s' = []).
    { unfold users_with_email. rewrite Es. apply filter_none.
      intros v Hv'. apply filter_In in Hv' as [Hv1 Hv2].
      apply negb_true_iff, Z.eqb_neq in Hv2.
      destruct (str_eqb (usr_email v) (usr_email u)) eqn:E; [|reflexivity].
      exfalso. apply str_eqb_eq in E.
      destruct Hwf as (_ & _ & _ & He). specialize (He (usr_email u)).
      unfold users_with_email in He.
      assert (Hu1 : In u (filter (fun w => str_eqb (usr_email w) (usr_email u))
                            (t_users s)))
        by (apply filter_In; split; [exact Hin | apply str_eqb_refl]).
      assert (Hv3 : In v (filter (fun w => str_eqb (usr_email w) (usr_email u))
                            (t_users s)))
        by (apply filter_In; split; [exact Hv1 | now apply str_eqb_eq]).
      destruct (filter _ (t_users s)) as [|x [|y l]]; cbn in He; try lia.
      - destruct Hu1.
      - destruct Hu1 as [<- | []]. destruct Hv3 as [<- | []]. congruence. }
    unfold login, login_with. cbn [l_email l_password]. rewrite Hu.
    now destruct (_ || _).
Qed.

End Accounts.

(** X23, witness: the registration of the sample member. *)
Lemma register_accepts_witness :
  AuthAPI.register two_postings sample_registration
  = (with_users
       (t_users two_postings
        ++ [registered_user two_postings (js "kim@example.org") (js "pass1234!")
              (js "김철수")])
       (users_auto two_postings + 1) two_postings,
     success "회원 가입 성공" (js "kim@example.org") None true).
Proof.
  apply (proj1 (register_accepts two_postings sample_registration)
           (js "kim@example.org") (js "pass1234!") (js "김철수") eq_refl).
  - apply emailRegex_shape. vm_compute. reflexivity.
  - discriminate.
  - apply test_name. vm_compute. reflexivity.
  - apply test_password. vm_compute. reflexivity.
  - vm_compute. reflexivity.
Defined.

(** X24, witness: the sample member logs in, then mistypes the
    password. *)
Lemma register_then_login_witness :
  is_success
    (snd (AuthAPI.login sample_sign 5 one_member []
            (login_with (js "kim@example.org") (js "pass1234!")))) = true
  /\ is_success
       (snd (AuthAPI.login sample_sign 5 one_member []
               (login_with (js "kim@example.org") (js "pass1234")))) = false.
Proof.
  assert (Hok : is_success
                  (snd (AuthAPI.register two_postings
                          (register_with (js "kim@example.org") (js "pass1234!")
                             (js "김철수")))) = true)
    by (vm_compute; reflexivity).
  destruct (register_then_login sample_sign 5 two_postings []
              (js "kim@example.org") (js "pass1234!") (js "김철수") Hok)
    as [H1 H2].
  split.
  - unfold one_member, sample_registration. fold (register_with (js "kim@example.org") (js "pass1234!") (js "김철수")).
    rewrite H1. reflexivity.
  - apply H2.
    + unfold code_units. apply Forall_forall. intros c Hc. vm_compute in Hc.
      repeat destruct Hc as [<- | Hc]; try reflexivity. destruct Hc.
    + discriminate.
Defined.

Lemma wf_users_two_postings : wf_users two_postings.
Proof.
  unfold wf_users.
  assert (E : t_users two_postings = []) by (vm_compute; reflexivity).
  assert (Ea : users_auto two_postings = 1) by (vm_compute; reflexivity).
  unfold AuthAPI.users_with_email. rewrite E, Ea.
  split; [lia|]. split; [intros u []|]. split; [constructor|].
  intro e. cbn. lia.
Qed.

(** X25, witness: the registration of the sample member. *)
Lemma accounts_stay_well_formed_witness :
  wf_users one_member.
Proof.
  exact (proj1 (accounts_stay_well_formed sample_verify two_postings None
                  sample_registration wf_users_two_postings)).
Defined.

Lemma wf_users_one_member : wf_users one_member.
Proof.
  exact (register_wf_users two_postings sample_registration wf_users_two_postings).
Qed.

(** X26, witness: the sample member deletes the account. *)
Lemma delete_account_then_gone_witness :
  AuthAPI.profile sample_verify
    (fst (AuthAPI.delete_account sample_verify one_member (Some (js "Bearer a1"))))
    (Some (js "Bearer a1"))
  = error "사용자를 찾을 수 없습니다." 404.
Proof.
  assert (Ht : AuthAPI.when_truthy (AuthAPI.bearer_token (Some (js "Bearer a1")))
               = Some (js "a1")) by (vm_compute; reflexivity).
  assert (Hv : sample_verify AuthAPI.SECRET_KEY (js "a1") = Some 1)
    by (vm_compute; reflexivity).
  exact (proj1 (proj2 (delete_account_then_gone sample_sign sample_verify 0
                         one_member [] (Some (js "Bearer a1")) (js "a1") 1
                         wf_users_one_member Ht Hv))).
Defined.

(* ================================================================= *)
(** ** A change of password *)

Section NewPassword.

Import AuthAPI.

Variable sign : secret -> Z -> str -> str.
Variable verify : secret -> str -> option Z.

Lemma base64_bytes_nil (l : list Z) : base64_bytes l = [] -> l = [].
Proof. destruct l as [|a [|b [|c r]]]; [reflexivity | discriminate..]. Qed.

Lemma base64_truthy (password : str) :
  some_of password_char password -> truthy_str (base64 password) = true.
Proof.
  intro H. apply truthy_str_true. unfold base64.
  rewrite (utf8_encode_ascii password (password_ascii password H)).
  intro E. apply base64_bytes_nil in E. destruct H as [Hne _].
  destruct password; [now apply Hne | discriminate].
Qed.

Lemma filter_only {A} (P : A -> bool) (l : list A) (x : A) :
  In x l -> P x = true -> (List.length (filter P l) <= 1)%nat ->
  filter P l = [x].
Proof.
  intros Hin Hp Hlen.
  assert (Hx : In x (filter P l)) by (apply filter_In; now split).
  destruct (filter P l) as [|a [|b r]]; [destruct Hx | | cbn in Hlen; lia].
  destruct Hx as [-> | []]. reflexivity.
Qed.

Lemma filter_map_same {A} (P : A -> bool) (f : A -> A) (l : list A) :
  (forall x, P (f x) = P x) -> filter P (map f l) = map f (filter P l).
Proof.
  intro H. induction l as [|a l IH]; [reflexivity|].
  cbn [map filter]. rewrite H. destruct (P a); cbn [map]; now rewrite IH.
Qed.

Lemma users_with_email_new_password (s : db) (u : user) (password : str) :
  wf_users s -> In u (t_users s) ->
  users_with_email (usr_email u)
    (update_user (Some (base64 password)) None None (usr_id u) s)
  = [with_password password u].
Proof.
  intros (_ & _ & _ & He) Hin. unfold users_with_email, update_user.
  cbn [t_users with_users].
  rewrite filter_map_same.
  - specialize (He (usr_email u)). unfold users_with_email in He.
    rewrite (filter_only _ (t_users s) u Hin (str_eqb_refl _) He).
    cbn [map]. now rewrite Z.eqb_refl.
  - intro x. destruct (usr_id x =? usr_id u); reflexivity.
Qed.

(** X27.  A change of password: a user whose token is valid sends a
    new password of letters, digits, exclamation marks and at signs;
    the answer reports the password as asterisks only, logging in with
    the email and the new password succeeds, with any other password
    (the old one too) it fails and records nothing, and the other
    users stay as they were. *)
Theorem modify_password_then_login (now : Z) (s : db) (history : login_history)
    (authorization : option str) (token : str) (u : user) (password' : str) :
  wf_users s ->
  In u (t_users s) ->
  usr_email u <> [] ->
  when_truthy (bearer_token authorization) = Some token ->
  verify SECRET_KEY token = Some (usr_id u) ->
  some_of password_char password' ->
  let s' := fst (modify verify s authorization (new_password password')) in
  snd (modify verify s authorization (new_password password'))
  = success "회원 정보 수정 성공"
      {| ch_email := None; ch_name := None;
         ch_password := Some (mask password') |} None false
  /\ login sign now s' history (login_with (usr_email u) password')
     = (history ++ [(usr_id u, now)],
        success "로그인 성공"
          {| accessToken := sign SECRET_KEY (usr_id u) (js "1h");
             refreshToken := sign REFRESH_SECRET_KEY (usr_id u) (js "7d") |}
          None false)
  /\ (forall other,
        code_units other -> other <> password' ->
        fst (login sign now s' history (login_with (usr_email u) other)) = history
        /\ is_success
             (snd (login sign now s' history (login_with (usr_email u) other)))
           = false)
  /\ (forall v, In v (t_users s) -> usr_id v <> usr_id u -> In v (t_users s')).
Proof.
  intros Hwf Hin Hmail Ht Hv Hp.
  assert (Hm : modify verify s authorization (new_password password')
               = (update_user (Some (base64 password')) None None (usr_id u) s,
                  success "회원 정보 수정 성공"
                    {| ch_email := None; ch_name := None;
                       ch_password := Some (mask password') |} None false)).
  { assert (W : when_truthy (Some password') = Some password')
      by (unfold when_truthy; now rewrite (some_of_truthy _ _ Hp)).
    assert (W' : when_truthy (Some (base64 password')) = Some (base64 password'))
      by (unfold when_truthy; now rewrite (base64_truthy password' Hp)).
    unfold modify, new_password. rewrite Ht, Hv.
    cbn [AuthAPI.email AuthAPI.name AuthAPI.password]. rewrite W.
    cbn [option_map]. rewrite W'.
    rewrite (proj2 (test_password password') Hp). reflexivity. }
  cbv zeta. rewrite Hm. cbn [fst snd].
  split; [reflexivity|].
  unfold login, login_with. cbn [l_email l_password].
  rewrite (users_with_email_new_password s u password' Hwf Hin).
  rewrite (truthy_str_true _ Hmail). cbn [negb orb usr_password usr_id with_password].
  split; [|split].
  - now rewrite (some_of_truthy _ _ Hp), str_eqb_refl.
  - intros other Hc Hne.
    destruct (truthy_str other); cbn [negb]; [|split; reflexivity].
    destruct (str_eqb (base64 password') (base64 other)) eqn:E;
      [|split; reflexivity].
    apply str_eqb_eq in E. symmetry in E.
    apply base64_inj in E; [congruence | now apply password_ascii | exact Hc].
  - intros v Hv' Hne. unfold update_user. cbn [t_users with_users].
    apply in_map_iff. exists v. split; [|exact Hv'].
    apply Z.eqb_neq in Hne. now rewrite Hne.
Qed.

End NewPassword.

(** X27, witness: the sample member changes the password; the new one
    logs in, the old one does not. *)
Lemma modify_password_then_login_witness :
  exists u,
    In u (t_users one_member) /\ usr_email u = js "kim@example.org"
    /\ is_success
         (snd (AuthAPI.login sample_sign 9
                 (fst (AuthAPI.modify sample_verify one_member
                         (Some (js "Bearer a1")) (new_password (js "new!pass1"))))
                 [] (login_with (usr_email u) (js "new!pass1")))) = true
    /\ is_success
         (snd (AuthAPI.login sample_sign 9
                 (fst (AuthAPI.modify sample_verify one_member
                         (Some (js "Bearer a1")) (new_password (js "new!pass1"))))
                 [] (login_with (usr_email u) (js "pass1234!")))) = false.
Proof.
  assert (E : exists u, In u (t_users one_member) /\ usr_id u = 1
                        /\ usr_email u = js "kim@example.org").
  { eexists. split; [vm_compute; left; reflexivity|]. split; reflexivity. }
  destruct E as (u & Hin & Hid & Hmail).
  assert (Ht : AuthAPI.when_truthy (AuthAPI.bearer_token (Some (js "Bearer a1")))
               = Some (js "a1")) by (vm_compute; reflexivity).
  assert (Hv : sample_verify AuthAPI.SECRET_KEY (js "a1") = Some (usr_id u))
    by (rewrite Hid; vm_compute; reflexivity).
  assert (Hne : usr_email u <> []) by (rewrite Hmail; discriminate).
  assert (Hp : some_of password_char (js "new!pass1")).
  { apply test_password. vm_compute. reflexivity. }
  destruct (modify_password_then_login sample_sign sample_verify 9 one_member []
              (Some (js "Bearer a1")) (js "a1") u (js "new!pass1")
              wf_users_one_member Hin Hne Ht Hv Hp) as (_ & H2 & H3 & _).
  exists u. split; [exact Hin|]. split; [exact Hmail|]. split.
  - rewrite H2. reflexivity.
  - apply H3; [|discriminate].
    apply Forall_forall. intros c Hc. vm_compute in Hc.
    repeat (destruct Hc as [<- | Hc]; [reflexivity|]). destruct Hc.
Defined.
